(** * Link tracker: click ledger, enrichment patch and analytics aggregation

    A shallow embedding of [src/lib/storage.ts], [src/lib/location.ts],
    the enrichment callback of [src/app/t/[shortCode]/route.ts] and the
    aggregation helpers of [src/app/api/links/[id]/route.ts].

    Modelling conventions.
    - A JavaScript [Map<string, V>] iterates in insertion order, so it is an
      association list ([JsMap.t]); [set] on a present key keeps its position.
    - Integer-valued JavaScript numbers (click counts, group counts, epoch
      milliseconds) are [Z]; latitude and longitude are only copied, and are
      carried as rationals.
    - Optional fields ([title?: string]) are [option]; the [||] operator is
      written out with JavaScript's notion of a falsy value.
    - The module-level stores are one explicit [Stores] record threaded through
      every operation.  Objects held by the stores are reached only through
      the stores in the code modelled here, so a value model is faithful: an
      in-place mutation of a stored object is an update at its position. *)

From Stdlib Require Import String Ascii List ZArith QArith Lia Bool Arith.
From Stdlib Require Import Permutation Sorted DecimalString DecimalZ.
Import ListNotations.

Local Close Scope Q_scope.
Local Open Scope string_scope.
Local Open Scope list_scope.

(** ** JavaScript's [Map] with string keys *)

Module JsMap.

Definition t (V : Type) : Type := list (string * V).

Definition empty {V : Type} : t V := [].

(** [m.get(k)]: the value stored under [k], if any. *)
Fixpoint get {V : Type} (k : string) (m : t V) : option V :=
  match m with
  | [] => None
  | (k', v) :: m' => if String.eqb k' k then Some v else get k m'
  end.

(** [m.has(k)]. *)
Definition has {V : Type} (k : string) (m : t V) : bool :=
  match get k m with Some _ => true | None => false end.

(** [m.set(k, v)]: overwrite in place when [k] is present, append otherwise. *)
Fixpoint set {V : Type} (k : string) (v : V) (m : t V) : t V :=
  match m with
  | [] => [(k, v)]
  | (k', v') :: m' =>
      if String.eqb k' k then (k, v) :: m' else (k', v') :: set k v m'
  end.

(** [m.delete(k)]. *)
Definition delete {V : Type} (k : string) (m : t V) : t V :=
  filter (fun e => negb (String.eqb (fst e) k)) m.

(** [m.keys()], [m.values()] and [m.entries()] in iteration order. *)
Definition keys {V : Type} (m : t V) : list string := map fst m.
Definition values {V : Type} (m : t V) : list V := map snd m.
Definition entries {V : Type} (m : t V) : list (string * V) := m.

(** The representation invariant of a [Map]: no key occurs twice. *)
Definition ok {V : Type} (m : t V) : Prop := NoDup (keys m).

End JsMap.

(** ** [src/types]: the records *)

(** A JavaScript number that the code only stores and copies. *)
Definition number : Type := Q.

Module Link.
Record t : Type := mk {
  id : string;
  originalUrl : string;
  shortCode : string;
  title : option string;
  description : option string;
  createdAt : Z;
  clickCount : Z;
  isActive : bool
}.

Definition with_clickCount (n : Z) (l : t) : t :=
  mk (id l) (originalUrl l) (shortCode l) (title l) (description l)
     (createdAt l) n (isActive l).

Definition with_isActive (b : bool) (l : t) : t :=
  mk (id l) (originalUrl l) (shortCode l) (title l) (description l)
     (createdAt l) (clickCount l) b.
End Link.

Module LocationData.
Record t : Type := mk {
  country : option string;
  countryCode : option string;
  region : option string;
  city : option string;
  lat : option number;
  lon : option number;
  isp : option string;
  org : option string;
  query : option string
}.
End LocationData.

Module LocationResult.
Record t : Type := mk {
  success : bool;
  location : option LocationData.t;
  error : option string
}.
End LocationResult.

Module Click.
Record t : Type := mk {
  id : string;
  linkId : string;
  timestamp : Z;
  ip : string;
  userAgent : string;
  country : option string;
  countryCode : option string;
  region : option string;
  city : option string;
  latitude : option number;
  longitude : option number;
  referer : option string;
  isp : option string;
  org : option string
}.

(** The eight assignments of the enrichment callback, on one click. *)
Definition with_location (loc : LocationData.t) (c : t) : t :=
  mk (id c) (linkId c) (timestamp c) (ip c) (userAgent c)
     (LocationData.country loc) (LocationData.countryCode loc)
     (LocationData.region loc) (LocationData.city loc)
     (LocationData.lat loc) (LocationData.lon loc)
     (referer c)
     (LocationData.isp loc) (LocationData.org loc).
End Click.

(** ** JavaScript's [||] on optional strings and numbers *)

(** [s || d] for [s : string | undefined]: the empty string is falsy. *)
Definition str_or (s : option string) (d : string) : string :=
  match s with
  | Some x => if String.eqb x "" then d else x
  | None => d
  end.

(** The truthy part of an optional string, [None] when it is falsy. *)
Definition truthy (s : option string) : option string :=
  match s with
  | Some x => if String.eqb x "" then None else Some x
  | None => None
  end.

(** [n || d] for [n : number | undefined]: zero is falsy. *)
Definition num_or (n : option Z) (d : Z) : Z :=
  match n with
  | Some x => if Z.eqb x 0 then d else x
  | None => d
  end.

(** [a || d] for an array reference: every array is truthy. *)
Definition arr_or {A : Type} (a : option (list A)) (d : list A) : list A :=
  match a with Some x => x | None => d end.

(** [xs.forEach(body)] threading the state the body mutates. *)
Definition forEach {A S : Type} (xs : list A) (body : S -> A -> S) (s : S) : S :=
  fold_left body xs s.

(** Mutating the first element that satisfies [p], as
    [const x = xs.find(p); if (x) { ... }] does on an array of objects. *)
Fixpoint update_first {A : Type} (p : A -> bool) (f : A -> A) (xs : list A) : list A :=
  match xs with
  | [] => []
  | x :: xs' => if p x then f x :: xs' else x :: update_first p f xs'
  end.

(** ** [Array.prototype.sort] with a comparator

    The sort is stable (ECMAScript 2019), and for a consistent comparator a
    stable sort has one possible result; insertion from the right computes it.
    [insert_sorted cmp x l] places [x], which preceded every element of [l] in
    the input, behind exactly the elements the comparator orders before it. *)

Fixpoint insert_sorted {A : Type} (cmp : A -> A -> Z) (x : A) (l : list A) : list A :=
  match l with
  | [] => [x]
  | y :: l' => if (0 <? cmp x y)%Z then y :: insert_sorted cmp x l' else x :: l
  end.

Fixpoint js_sort {A : Type} (cmp : A -> A -> Z) (l : list A) : list A :=
  match l with
  | [] => []
  | x :: l' => insert_sorted cmp x (js_sort cmp l')
  end.

(** [xs.slice(0, n)]. *)
Definition slice0 {A : Type} (n : nat) (xs : list A) : list A := firstn n xs.


(** ** [src/lib/storage.ts] *)

(** The two module-level stores: links keyed by short code, click histories
    keyed by link id. *)
Record Stores : Type := mkStores {
  linksStore : JsMap.t Link.t;
  clicksStore : JsMap.t (list Click.t)
}.

Definition emptyStores : Stores := mkStores JsMap.empty JsMap.empty.

(** What a call that may [throw] produced. *)
Inductive outcome (A : Type) : Type :=
| Returned (a : A)
| Thrown (message : string).
Arguments Returned {A} a.
Arguments Thrown {A} message.

Definition chars : string :=
  "abcdefghijklmnopqrstuvwxyzABCDEFGHIJKLMNOPQRSTUVWXYZ0123456789".

(** [s.charAt(i)]: the empty string when [i] is out of range. *)
Definition charAt (s : string) (i : nat) : string :=
  match String.get i s with
  | Some c => String c EmptyString
  | None => EmptyString
  end.

(** [generateShortCode(length)].  [rnd k] is the value of
    [Math.floor(Math.random() * chars.length)] at the [k]-th draw of the
    process; [pos] is the number of draws made so far.  Returns the code and
    the new number of draws. *)
Fixpoint generateShortCode (length : nat) (rnd : nat -> nat) (pos : nat) : string * nat :=
  match length with
  | O => (EmptyString, pos)
  | S n =>
      let (rest, pos') := generateShortCode n rnd (S pos) in
      (String.append (charAt chars (rnd pos)) rest, pos')
  end.

(** The [while (linksStore.has(code))] loop; [fuel] bounds its iterations and
    [None] means the loop was still running when the fuel ran out. *)
Fixpoint generateUniqueShortCode_loop (fuel : nat) (rnd : nat -> nat) (pos : nat)
    (links : JsMap.t Link.t) (code : string) : option string :=
  if JsMap.has code links then
    match fuel with
    | O => None
    | S fuel' =>
        let (code', pos') := generateShortCode 6 rnd pos in
        generateUniqueShortCode_loop fuel' rnd pos' links code'
    end
  else Some code.

Definition generateUniqueShortCode (fuel : nat) (rnd : nat -> nat)
    (links : JsMap.t Link.t) : option string :=
  let (code, pos) := generateShortCode 6 rnd 0 in
  generateUniqueShortCode_loop fuel rnd pos links code.

(** The first entry of the registry whose link has the given id: the loop
    [for (const [shortCode, link] of linksStore.entries()) if (link.id === id)]. *)
Definition findEntryById (id : string) (links : JsMap.t Link.t) : option (string * Link.t) :=
  find (fun e => String.eqb (Link.id (snd e)) id) (JsMap.entries links).

Module LinkStorage.

(** [createLink(originalUrl, title, description, customCode)].  [newId] and
    [now] are the id string and the clock value the call computes from
    [Date.now()], [Math.random()] and [new Date()]; [rnd] feeds the short
    code generator.  [None]: the generator loop did not finish within
    [fuel].  A thrown error leaves the stores as they are. *)
Definition createLink (fuel : nat) (newId : string) (now : Z) (rnd : nat -> nat)
    (originalUrl : string) (title description customCode : option string)
    (st : Stores) : option (outcome Link.t * Stores) :=
  let generated :=
    match truthy customCode with
    | Some c => Some c
    | None => generateUniqueShortCode fuel rnd (linksStore st)
    end in
  match generated with
  | None => None
  | Some shortCode =>
      if match truthy customCode with
         | Some c => JsMap.has c (linksStore st)
         | None => false
         end
      then Some (Thrown "Custom short code already exists", st)
      else
        let link :=
          Link.mk newId originalUrl shortCode title description now 0%Z true in
        Some (Returned link,
              mkStores (JsMap.set shortCode link (linksStore st))
                       (JsMap.set newId [] (clicksStore st)))
  end.

Definition getLinkByShortCode (shortCode : string) (st : Stores) : option Link.t :=
  JsMap.get shortCode (linksStore st).

Definition getLinkById (id : string) (st : Stores) : option Link.t :=
  find (fun l => String.eqb (Link.id l) id) (JsMap.values (linksStore st)).

Definition updateLinkClickCount (linkId : string) (st : Stores) : Stores :=
  match findEntryById linkId (linksStore st) with
  | Some (shortCode, link) =>
      mkStores
        (JsMap.set shortCode
           (Link.with_clickCount (Link.clickCount link + 1)%Z link)
           (linksStore st))
        (clicksStore st)
  | None => st
  end.

Definition deleteLink (id : string) (st : Stores) : bool * Stores :=
  match findEntryById id (linksStore st) with
  | Some (shortCode, _) =>
      (true, mkStores (JsMap.delete shortCode (linksStore st))
                      (JsMap.delete id (clicksStore st)))
  | None => (false, st)
  end.

Definition toggleLinkStatus (id : string) (st : Stores) : bool * Stores :=
  match findEntryById id (linksStore st) with
  | Some (shortCode, link) =>
      (true, mkStores
               (JsMap.set shortCode
                  (Link.with_isActive (negb (Link.isActive link)) link)
                  (linksStore st))
               (clicksStore st))
  | None => (false, st)
  end.

End LinkStorage.

Module ClickStorage.

(** [addClick(click)] returns nothing and has no [throw]. *)
Definition addClick (click : Click.t) (st : Stores) : Stores :=
  let linkClicks := arr_or (JsMap.get (Click.linkId click) (clicksStore st)) [] in
  let linkClicks := linkClicks ++ [click] in
  let st := mkStores (linksStore st)
                     (JsMap.set (Click.linkId click) linkClicks (clicksStore st)) in
  LinkStorage.updateLinkClickCount (Click.linkId click) st.

Definition getClicksForLink (linkId : string) (st : Stores) : list Click.t :=
  arr_or (JsMap.get linkId (clicksStore st)) [].

End ClickStorage.

(** ** The enrichment callback of [src/app/t/[shortCode]/route.ts]

    [getLocationFromIP(ip).then(locationResult => ...)] for the click
    [clickId] recorded under [linkId]: it looks the click up again in the
    ledger and assigns the eight location fields to the object it finds. *)
Definition enrichClick (linkId clickId : string) (locationResult : LocationResult.t)
    (st : Stores) : Stores :=
  match LocationResult.success locationResult, LocationResult.location locationResult with
  | true, Some loc =>
      let linkClicks := ClickStorage.getClicksForLink linkId st in
      match find (fun c => String.eqb (Click.id c) clickId) linkClicks with
      | Some _ =>
          mkStores (linksStore st)
            (JsMap.set linkId
               (update_first (fun c => String.eqb (Click.id c) clickId)
                  (Click.with_location loc) linkClicks)
               (clicksStore st))
      | None => st
      end
  | _, _ => st
  end.

(** ** [src/lib/location.ts]: grouping for analytics *)

(** An element of the arrays the aggregations return. *)
Record NameCount : Type := mkNameCount { name : string; count : Z }.

(** The comparator [(a, b) => b.count - a.count]. *)
Definition byCountDesc (a b : NameCount) : Z := (count b - count a)%Z.

(** [Array.from(m.entries()).map(([name, count]) => ({ name, count }))]. *)
Definition toNameCounts (m : JsMap.t Z) : list NameCount :=
  map (fun e => mkNameCount (fst e) (snd e)) (JsMap.entries m).

Definition groupClicksByCountry (clicks : list Click.t) : list NameCount :=
  let countryCount :=
    forEach clicks (fun countryCount click =>
      let country := str_or (Click.country click) "Unknown" in
      JsMap.set country (num_or (JsMap.get country countryCount) 0 + 1)%Z countryCount)
      JsMap.empty in
  js_sort byCountDesc (toNameCounts countryCount).

(** ** [src/app/api/links/[id]/route.ts]: the aggregation helpers *)

Module DayCount.
Record t : Type := mk { date : string; clicks : Z }.
End DayCount.

(** [xs.map(f)] and [xs.forEach(body)] for a callback that may throw: [None]
    as soon as one call throws. *)
Fixpoint map_throwing {A B : Type} (f : A -> option B) (xs : list A) : option (list B) :=
  match xs with
  | [] => Some []
  | x :: xs' =>
      match f x with
      | None => None
      | Some y =>
          match map_throwing f xs' with
          | None => None
          | Some ys => Some (y :: ys)
          end
      end
  end.

Fixpoint forEach_throwing {A S : Type} (xs : list A) (body : S -> A -> option S) (s : S)
    : option S :=
  match xs with
  | [] => Some s
  | x :: xs' =>
      match body s x with
      | None => None
      | Some s' => forEach_throwing xs' body s'
      end
  end.

Section Analytics.

(** The three functions of the [date-fns] library the code calls, on instants
    in epoch milliseconds.  [format] stands for [format(_, 'yyyy-MM-dd')]:
    [None] where the library throws its [RangeError], as it does when the
    date it is given is an Invalid Date. *)
Variable startOfDay : Z -> Z.
Variable subDays : Z -> Z -> Z.
Variable format : Z -> option string.

(** [new URL(url).hostname], [None] when the constructor throws. *)
Variable urlHostname : string -> option string.

(** [generateClicksByDate(clicks)].  [clock i] is the value of the [i]-th
    [new Date()] the call evaluates: one per element of [Array.from], in the
    order of the index [i].  The function has no [try]: what [format] throws
    ends the call. *)
Definition generateClicksByDate (clock : nat -> Z) (clicks : list Click.t)
    : outcome (list DayCount.t) :=
  match map_throwing (fun i =>
                        let date := startOfDay (subDays (clock i) (Z.of_nat i)) in
                        match format date with
                        | Some rendered => Some (DayCount.mk rendered 0%Z)
                        | None => None
                        end)
                     (seq 0 30) with
  | None => Thrown "Invalid time value"
  | Some days =>
      let last30Days := rev days in
      match forEach_throwing clicks (fun last30Days click =>
              match format (startOfDay (Click.timestamp click)) with
              | None => None
              | Some clickDate =>
                  Some match find (fun day => String.eqb (DayCount.date day) clickDate)
                               last30Days with
                       | Some _ =>
                           update_first
                             (fun day => String.eqb (DayCount.date day) clickDate)
                             (fun dayData =>
                                DayCount.mk (DayCount.date dayData)
                                  (DayCount.clicks dayData + 1)%Z)
                             last30Days
                       | None => last30Days
                       end
              end)
              last30Days with
      | None => Thrown "Invalid time value"
      | Some last30Days => Returned last30Days
      end
  end.

Definition extractDomain (url : string) : string :=
  match urlHostname url with
  | Some hostname => hostname
  | None => url
  end.

Definition generateTopReferers (clicks : list Click.t) : list NameCount :=
  let refererCount :=
    forEach clicks (fun refererCount click =>
      let referer := str_or (Click.referer click) "Direct" in
      let domain := if String.eqb referer "Direct" then "Direct" else extractDomain referer in
      JsMap.set domain (num_or (JsMap.get domain refererCount) 0 + 1)%Z refererCount)
      JsMap.empty in
  slice0 10 (js_sort byCountDesc (toNameCounts refererCount)).

End Analytics.

(** [initializeSampleData()], with the environment [createLink] reads;
    [hourAgo] and [halfHourAgo] are [Date.now() - 3600000] and
    [Date.now() - 1800000] at the two places they are evaluated.  The call
    passes no custom code, so [createLink] does not throw here; that branch
    hands back the stores untouched. *)
Definition initializeSampleData (fuel : nat) (newId : string) (now : Z)
    (rnd : nat -> nat) (hourAgo halfHourAgo : Z) (st : Stores) : option Stores :=
  if Nat.eqb (List.length (linksStore st)) 0 then
    match LinkStorage.createLink fuel newId now rnd "https://example.com"
            (Some "Sample Link")
            (Some "This is a sample tracking link for demo purposes") None st with
    | None => None
    | Some (Thrown _, st') => Some st'
    | Some (Returned sampleLink, st') =>
        let sampleClicks :=
          [ Click.mk "click_1" (Link.id sampleLink) hourAgo "192.168.1.1"
              "Mozilla/5.0 (Windows NT 10.0; Win64; x64) AppleWebKit/537.36"
              (Some "United States") (Some "US") (Some "California")
              (Some "San Francisco") (Some (377749 # 10000)%Q)
              (Some (-1224194 # 10000)%Q) (Some "https://google.com") None None;
            Click.mk "click_2" (Link.id sampleLink) halfHourAgo "203.0.113.1"
              "Mozilla/5.0 (Macintosh; Intel Mac OS X 10_15_7) AppleWebKit/537.36"
              (Some "Canada") (Some "CA") (Some "Ontario") (Some "Toronto")
              (Some (436532 # 10000)%Q) (Some (-793832 # 10000)%Q) None None None ] in
        Some (forEach sampleClicks (fun st click => ClickStorage.addClick click st) st')
    end
  else Some st.

(** The stores after [initializeSampleData()] on a fresh process whose
    random draws are all zero: one link, registered under the generated code
    [aaaaaa], with two clicks. *)
Definition sampleStores : Stores :=
  match initializeSampleData 0 "link_1" 7200000%Z (fun _ => 0) 3600000%Z 5400000%Z
          emptyStores with
  | Some st => st
  | None => emptyStores
  end.

(** A click as the redirect handler builds it, before any enrichment. *)
Definition bareClick (id linkId : string) (timestamp : Z) : Click.t :=
  Click.mk id linkId timestamp "8.8.8.8" "Unknown"
    None None None None None None None None None.

(** ** Reachable stores

    One step of the service on the stores.  In every case the draws of
    [createLink] index into [chars], since [Math.random()] is below 1.  With
    [guarded = true] the calls are moreover guarded: the id [createLink]
    computes is the id of no live link, which the code does not check, and
    [addClick] is called for a link that is live.  With [guarded = false]
    any call is a step. *)
Inductive step (guarded : bool) : Stores -> Stores -> Prop :=
| step_createLink fuel newId now rnd originalUrl title description customCode st link st' :
    (forall k, rnd k < String.length chars) ->
    (guarded = true -> forall k l, In (k, l) (linksStore st) -> Link.id l <> newId) ->
    LinkStorage.createLink fuel newId now rnd originalUrl title description customCode st
      = Some (Returned link, st') ->
    step guarded st st'
| step_addClick click st :
    (guarded = true ->
     exists k l, In (k, l) (linksStore st) /\ Link.id l = Click.linkId click) ->
    step guarded st (ClickStorage.addClick click st)
| step_toggleLinkStatus id st :
    step guarded st (snd (LinkStorage.toggleLinkStatus id st))
| step_enrichClick linkId clickId locationResult st :
    step guarded st (enrichClick linkId clickId locationResult st)
| step_deleteLink id st :
    step guarded st (snd (LinkStorage.deleteLink id st)).

Inductive reachable (guarded : bool) : Stores -> Prop :=
| reachable_empty : reachable guarded emptyStores
| reachable_step st st' :
    reachable guarded st -> step guarded st st' -> reachable guarded st'.

(** The character class [[A-Za-z0-9]] and the pattern [[A-Za-z0-9]{6}]. *)
Definition isAlnum (c : ascii) : bool :=
  let n := nat_of_ascii c in
  ((97 <=? n)%nat && (n <=? 122)%nat) || ((65 <=? n)%nat && (n <=? 90)%nat)
  || ((48 <=? n)%nat && (n <=? 57)%nat).

Definition isShortCode (s : string) : bool :=
  Nat.eqb (String.length s) 6 && forallb isAlnum (list_ascii_of_string s).

(** The code drawn at the [n]-th attempt of [generateUniqueShortCode]: the
    first call of [generateShortCode] is attempt 0, each turn of the loop
    one more, and each consumes six draws. *)
Definition attempt (rnd : nat -> nat) (n : nat) : string :=
  fst (generateShortCode 6 rnd (6 * n)).

(** The registry keeps every link under its own short code, which is not
    empty. *)
Definition code_ok (e : string * Link.t) : Prop :=
  Link.shortCode (snd e) = fst e /\ fst e <> EmptyString.

Definition codes_ok (st : Stores) : Prop :=
  JsMap.ok (linksStore st) /\ Forall code_ok (linksStore st).

(** The ids of the links are distinct, and every link counts the clicks of
    the history kept under its id. *)
Definition count_ok (st : Stores) (e : string * Link.t) : Prop :=
  Link.clickCount (snd e) =
    Z.of_nat (List.length (ClickStorage.getClicksForLink (Link.id (snd e)) st)).

Definition counts_ok (st : Stores) : Prop :=
  NoDup (map (fun e => Link.id (snd e)) (linksStore st)) /\
  Forall (count_ok st) (linksStore st).

(** ** Vocabulary of the aggregation properties *)

(** The group key the loop of [groupClicksByCountry] computes for a click. *)
Definition countryLabel (click : Click.t) : string :=
  str_or (Click.country click) "Unknown".

(** The group key the loop of [generateTopReferers] computes for a click. *)
Definition refererLabel (urlHostname : string -> option string) (click : Click.t) : string :=
  let referer := str_or (Click.referer click) "Direct" in
  if String.eqb referer "Direct" then "Direct" else extractDomain urlHostname referer.

(** The counting loop both aggregations run, for a labelling of the clicks. *)
Definition tally {A : Type} (label : A -> string) (xs : list A) : JsMap.t Z :=
  forEach xs (fun m x =>
    JsMap.set (label x) (num_or (JsMap.get (label x) m) 0 + 1)%Z m) JsMap.empty.

(** How many elements carry the label [n]. *)
Definition occurrences {A : Type} (label : A -> string) (n : string) (xs : list A) : nat :=
  List.length (filter (fun x => String.eqb (label x) n) xs).

(** The position of the first element labelled [n]; the length of the list
    when there is none. *)
Fixpoint firstIndex {A : Type} (label : A -> string) (n : string) (xs : list A) : nat :=
  match xs with
  | [] => 0
  | x :: xs' => if String.eqb (label x) n then 0 else S (firstIndex label n xs')
  end.

(** The order of the result: a larger count first, and among equal counts the
    order [R] the entries had before sorting. *)
Definition countDescThen (R : NameCount -> NameCount -> Prop) (a b : NameCount) : Prop :=
  (count b < count a)%Z \/ (count a = count b /\ R a b).

(** The total of the counts of a [clicksByDate] array. *)
Definition sumClicks (days : list DayCount.t) : Z :=
  fold_right (fun day acc => (DayCount.clicks day + acc)%Z) 0%Z days.

(** For [localDay], the calendar day (as a day number) of an instant: the
    click falls on day [d]; the click falls in the 30 days that end with
    [today]. *)
Definition onDay (localDay : Z -> Z) (d : Z) (click : Click.t) : bool :=
  Z.eqb (localDay (Click.timestamp click)) d.

Definition inWindow (localDay : Z -> Z) (today : Z) (click : Click.t) : bool :=
  Z.leb (today - 29) (localDay (Click.timestamp click)) &&
  Z.leb (localDay (Click.timestamp click)) today.

(** An instance of the date functions, for a process whose time zone is UTC;
    the day is rendered by its number, in decimal, instead of as
    [yyyy-MM-dd]. *)
Definition msPerDay : Z := 86400000.
Definition utcDay (t : Z) : Z := (t / msPerDay)%Z.
Definition utcStartOfDay (t : Z) : Z := (utcDay t * msPerDay)%Z.
Definition utcSubDays (t n : Z) : Z := (t - n * msPerDay)%Z.
Definition utcFormat (t : Z) : string := NilEmpty.string_of_int (Z.to_int (utcDay t)).

(** Instances of [format].  The UTC rendering, which never throws.  The same
    with one value set apart to stand for an Invalid Date, a value beyond the
    largest time value a Date holds: [format] throws on it and [startOfDay]
    hands it on.  And a rendering that drops the sign of the day number, as
    [yyyy] renders a year before the common era without its era. *)
Definition utcFormatDate (t : Z) : option string := Some (utcFormat t).

Definition invalidTime : Z := 8640000000000001.

Definition dateStartOfDay (t : Z) : Z :=
  if Z.eqb t invalidTime then invalidTime else utcStartOfDay t.

Definition dateFormat (t : Z) : option string :=
  if Z.eqb t invalidTime then None else Some (utcFormat t).

Definition signlessFormat (t : Z) : option string :=
  Some (NilEmpty.string_of_int (Z.to_int (Z.abs (utcDay t)))).

(** ** [src/lib/storage.ts]: the queries and the dashboard *)

(** [LinkStorage.getAllLinks()]. *)
Definition getAllLinks (st : Stores) : list Link.t :=
  js_sort (fun a b => (Link.createdAt b - Link.createdAt a)%Z)
    (JsMap.values (linksStore st)).

(** [ClickStorage.getAllClicks()]. *)
Definition getAllClicks (st : Stores) : list Click.t :=
  let allClicks :=
    forEach (JsMap.values (clicksStore st))
      (fun allClicks clicks => allClicks ++ clicks) [] in
  js_sort (fun a b => (Click.timestamp b - Click.timestamp a)%Z) allClicks.

(** JavaScript's [Set] of strings: insertion-ordered, without repetition. *)
Module JsSet.
Definition t : Type := list string.
Definition has (x : string) (s : t) : bool := existsb (String.eqb x) s.
Definition add (x : string) (s : t) : t := if has x s then s else s ++ [x].
(** [new Set(xs)]. *)
Definition fromList (xs : list string) : t := fold_left (fun s x => add x s) xs [].
Definition size (s : t) : nat := List.length s.
End JsSet.

(** [ClickStorage.getUniqueClicksForLink(linkId)]. *)
Definition getUniqueClicksForLink (linkId : string) (st : Stores) : Z :=
  let clicks := arr_or (JsMap.get linkId (clicksStore st)) [] in
  let uniqueIps := JsSet.fromList (map Click.ip clicks) in
  Z.of_nat (JsSet.size uniqueIps).

Module DashboardStats.
Record t : Type := mk {
  totalLinks : Z;
  totalClicks : Z;
  activeLinks : Z;
  topPerformingLink : option Link.t
}.
End DashboardStats.

(** [StatsService.getDashboardStats()]. *)
Definition getDashboardStats (st : Stores) : DashboardStats.t :=
  let links := getAllLinks st in
  let allClicks := getAllClicks st in
  let totalLinks := Z.of_nat (List.length links) in
  let totalClicks := Z.of_nat (List.length allClicks) in
  let activeLinks := Z.of_nat (List.length (filter Link.isActive links)) in
  let topPerformingLink :=
    fold_left (fun top current =>
                 match top with
                 | None => Some current
                 | Some t =>
                     if (Link.clickCount t <? Link.clickCount current)%Z
                     then Some current else top
                 end)
              links None in
  DashboardStats.mk totalLinks totalClicks activeLinks topPerformingLink.

(** The sum of a list of numbers. *)
Definition sumZ (l : list Z) : Z := fold_right Z.add 0%Z l.

(** The histories hold only clicks of their own link. *)
Definition filed_ok (st : Stores) : Prop :=
  forall k cs c, In (k, cs) (clicksStore st) -> In c cs -> Click.linkId c = k.

(** The histories are those of the links, in the order of the registry. *)
Definition ledgers_ok (st : Stores) : Prop :=
  JsMap.keys (clicksStore st) = map (fun e => Link.id (snd e)) (linksStore st).

(** ** [src/lib/location.ts]: cities and display strings *)

(** [groupClicksByCity(clicks)]; the key is the template literal
    [`${click.city}, ${click.country || 'Unknown'}`] when the city is truthy. *)
Definition groupClicksByCity (clicks : list Click.t) : list NameCount :=
  let cityCount :=
    forEach clicks (fun cityCount click =>
      let city :=
        match truthy (Click.city click) with
        | Some c =>
            String.append c
              (String.append ", " (str_or (Click.country click) "Unknown"))
        | None => "Unknown"
        end in
      JsMap.set city (num_or (JsMap.get city cityCount) 0 + 1)%Z cityCount)
      JsMap.empty in
  js_sort byCountDesc (toNameCounts cityCount).

(** The group key the loop of [groupClicksByCity] computes for a click. *)
Definition cityLabel (click : Click.t) : string :=
  match truthy (Click.city click) with
  | Some c =>
      String.append c (String.append ", " (str_or (Click.country click) "Unknown"))
  | None => "Unknown"
  end.

(** [parts.join(sep)]. *)
Fixpoint join (sep : string) (parts : list string) : string :=
  match parts with
  | [] => EmptyString
  | [p] => p
  | p :: rest => String.append p (String.append sep (join sep rest))
  end.

(** [formatLocation(location)]. *)
Definition formatLocation (location : LocationData.t) : string :=
  let parts := [] in
  let parts := match truthy (LocationData.city location) with
               | Some city => parts ++ [city] | None => parts end in
  let parts := match truthy (LocationData.region location) with
               | Some region => parts ++ [region] | None => parts end in
  let parts := match truthy (LocationData.country location) with
               | Some country => parts ++ [country] | None => parts end in
  str_or (Some (join ", " parts)) "Unknown Location".

(** ** Strings, and the regular expressions the code tests with *)

Definition isDigit (c : ascii) : bool :=
  let n := nat_of_ascii c in (48 <=? n)%nat && (n <=? 57)%nat.

(** The white space of JavaScript among the code units below 256. *)
Definition isWhiteSpace (c : ascii) : bool :=
  existsb (Nat.eqb (nat_of_ascii c)) [9; 10; 11; 12; 13; 32; 160].

(** [s.split(sep)] for a separator of one character. *)
Fixpoint split (sep : ascii) (s : string) : list string :=
  match s with
  | EmptyString => [EmptyString]
  | String c s' =>
      if Ascii.eqb c sep then EmptyString :: split sep s'
      else match split sep s' with
           | p :: ps => String c p :: ps
           | [] => [String c EmptyString]
           end
  end.

Fixpoint trimStart (s : string) : string :=
  match s with
  | EmptyString => EmptyString
  | String c s' => if isWhiteSpace c then trimStart s' else s
  end.

Definition reverse (s : string) : string :=
  string_of_list_ascii (rev (list_ascii_of_string s)).

Definition trimEnd (s : string) : string := reverse (trimStart (reverse s)).

(** [s.trim()]. *)
Definition trim (s : string) : string := trimEnd (trimStart s).

(** The value of the decimal digits at the head of [s], after those read
    into [acc]. *)
Fixpoint digitsValue (acc : Z) (s : string) : Z :=
  match s with
  | EmptyString => acc
  | String c s' =>
      if isDigit c
      then digitsValue (10 * acc + (Z.of_nat (nat_of_ascii c) - 48))%Z s'
      else acc
  end.

(** [parseInt(s, 10)]; [None] is [NaN]. *)
Definition parseInt10 (s : string) : option Z :=
  let s := trimStart s in
  let (negative, s) :=
    match s with
    | String "-"%char s' => (true, s')
    | String "+"%char s' => (false, s')
    | _ => (false, s)
    end in
  match s with
  | String c _ =>
      if isDigit c
      then Some (if negative then (- digitsValue 0 s)%Z else digitsValue 0 s)
      else None
  | EmptyString => None
  end.

(** The fragment of regular expressions the code uses: a character class, a
    sequence, a bounded repetition. *)
Inductive regex : Type :=
| Class (p : ascii -> bool)
| Seq (r1 r2 : regex)
| Rep (min max : nat) (r : regex).

(** The remainders of [s] after each way of matching [r] at its head. *)
Fixpoint matchAt (r : regex) (s : string) : list string :=
  match r with
  | Class p =>
      match s with
      | String c s' => if p c then [s'] else []
      | EmptyString => []
      end
  | Seq r1 r2 => flat_map (matchAt r2) (matchAt r1 s)
  | Rep min max r' =>
      flat_map (fun k => Nat.iter k (flat_map (matchAt r')) [s])
               (seq min (S max - min))
  end.

(** [/^r$/.test(s)]. *)
Definition test (r : regex) (s : string) : bool :=
  existsb (String.eqb EmptyString) (matchAt r s).

(** ** [src/lib/location.ts]: the client address *)

(** [/^(\d{1,3}\.){3}\d{1,3}$/]. *)
Definition ipv4Regex : regex :=
  Seq (Rep 3 3 (Seq (Rep 1 3 (Class isDigit)) (Class (Ascii.eqb "."%char))))
      (Rep 1 3 (Class isDigit)).

Definition isValidIP (ip : string) : bool :=
  test ipv4Regex ip &&
  forallb (fun part =>
             match parseInt10 part with
             | Some num => (0 <=? num)%Z && (num <=? 255)%Z
             | None => false
             end)
          (split "."%char ip).

(** Comparisons of a number that may be [NaN] or missing ([None]) with an
    integer constant: [x === n], [x >= n], [x <= n]. *)
Definition numEq (x : option Q) (n : Z) : bool :=
  match x with Some q => Qeq_bool q (inject_Z n) | None => false end.
Definition numGe (x : option Q) (n : Z) : bool :=
  match x with Some q => Qle_bool (inject_Z n) q | None => false end.
Definition numLe (x : option Q) (n : Z) : bool :=
  match x with Some q => Qle_bool q (inject_Z n) | None => false end.

(** A text of one to three decimal digits, as [\d{1,3}] matches. *)
Definition isOctetText (s : string) : bool :=
  (1 <=? String.length s)%nat && (String.length s <=? 3)%nat &&
  forallb isDigit (list_ascii_of_string s).

Section ClientAddress.

(** The conversion [Number(s)] of a string; [None] is [NaN]. *)
Variable toNumber : string -> option Q.

Definition isPrivateIP (ip : string) : bool :=
  let parts := map toNumber (split "."%char ip) in
  let part (i : nat) : option Q :=
    match nth_error parts i with Some x => x | None => None end in
  numEq (part 0) 10 ||
  (numEq (part 0) 172 && numGe (part 1) 16 && numLe (part 1) 31) ||
  (numEq (part 0) 192 && numEq (part 1) 168) ||
  numEq (part 0) 127.

Definition possibleHeaders : list string :=
  [ "x-forwarded-for"; "x-real-ip"; "x-client-ip"; "cf-connecting-ip";
    "x-forwarded"; "forwarded-for"; "forwarded" ].

(** The [for (const header of possibleHeaders)] loop of [getClientIP];
    [None] when it ends without a [return]. *)
Fixpoint getClientIP_loop (headers : string -> option string) (names : list string)
    : option string :=
  match names with
  | [] => None
  | header :: rest =>
      match truthy (headers header) with
      | Some value =>
          let ip := trim (hd EmptyString (split ","%char value)) in
          if isValidIP ip && negb (isPrivateIP ip) then Some ip
          else getClientIP_loop headers rest
      | None => getClientIP_loop headers rest
      end
  end.

(** [getClientIP(req)], on [req.headers.get]. *)
Definition getClientIP (headers : string -> option string) : string :=
  match getClientIP_loop headers possibleHeaders with
  | Some ip => ip
  | None => "8.8.8.8"
  end.

End ClientAddress.

(** Four texts written as a dotted quad. *)
Definition dotted (d1 d2 d3 d4 : string) : string :=
  String.append d1 (String "."%char
    (String.append d2 (String "."%char
       (String.append d3 (String "."%char d4))))).

(** The four address ranges [isPrivateIP] names, on the first two octets. *)
Definition inPrivateRange (a b : Z) : bool :=
  Z.eqb a 10 ||
  (Z.eqb a 172 && Z.leb 16 b && Z.leb b 31) ||
  (Z.eqb a 192 && Z.eqb b 168) ||
  Z.eqb a 127.

(** An instance of [Number] on the texts of one to three digits. *)
Definition numberOfOctetText (s : string) : option Q :=
  if isOctetText s then Some (inject_Z (digitsValue 0 s)) else None.

(** Request headers of a client behind a proxy on a private network: the
    forwarded chain starts with the proxy's private address, the real
    address comes in the next header. *)
Definition forwardedHeaders (header : string) : option string :=
  if String.eqb header "x-forwarded-for" then Some "10.0.0.7, 203.0.113.9"
  else if String.eqb header "x-real-ip" then Some " 203.0.113.9 "
  else None.

(** ** [src/lib/validation.ts]: the sanitizers *)

(** [s.replace(/[class]/g, '')]: every character of the class is dropped. *)
Fixpoint removeAll (class : ascii -> bool) (s : string) : string :=
  match s with
  | EmptyString => EmptyString
  | String c s' =>
      if class c then removeAll class s' else String c (removeAll class s')
  end.

(** [s.slice(0, n)]. *)
Definition sliceTo (n : nat) (s : string) : string := substring 0 n s.

(** The class [[a-zA-Z0-9_-]]. *)
Definition isCodeChar (c : ascii) : bool :=
  isAlnum c || Ascii.eqb c "_"%char || Ascii.eqb c "-"%char.

Definition sanitizeShortCode (code : string) : string :=
  sliceTo 20 (removeAll (fun c => negb (isCodeChar c)) code).

(** The class of [sanitizeUserAgent]: the two angle brackets, the double
    quote (character 34) and the single quote. *)
Definition isMarkupChar (c : ascii) : bool :=
  Ascii.eqb c "<"%char || Ascii.eqb c ">"%char
  || Ascii.eqb c (ascii_of_nat 34) || Ascii.eqb c "'"%char.

Definition sanitizeUserAgent (userAgent : option string) : string :=
  match truthy userAgent with
  | None => "Unknown"
  | Some userAgent => sliceTo 500 (removeAll isMarkupChar userAgent)
  end.

(** [sanitizeReferer(referer)], for [urlParts url] the [origin] and the
    [pathname] of [new URL(url)], [None] when the constructor throws. *)
Definition sanitizeReferer (urlParts : string -> option (string * string))
    (referer : option string) : option string :=
  match truthy referer with
  | None => None
  | Some referer =>
      match urlParts referer with
      | Some (origin, pathname) => Some (String.append origin pathname)
      | None => None
      end
  end.

(** ** [src/lib/location.ts]: [getLocationFromIP] *)

(** What a [throw] or a rejected promise carries: an [Error] with its
    message, or a value that is no [Error]. *)
Inductive thrown : Type :=
| ErrorObject (message : string)
| OtherValue.

(** The JSON object ip-api.com answers with, by the fields the code reads. *)
Module IpApiData.
Record t : Type := mk {
  status : option string;
  message : option string;
  country : option string;
  countryCode : option string;
  region : option string;
  regionName : option string;
  city : option string;
  lat : option number;
  lon : option number;
  isp : option string;
  org : option string;
  query : option string
}.
End IpApiData.

(** The JSON object ipapi.co answers with, by the fields the code reads. *)
Module IpapiCoData.
Record t : Type := mk {
  country_name : option string;
  country_code : option string;
  region : option string;
  city : option string;
  latitude : option number;
  longitude : option number;
  org : option string
}.
End IpapiCoData.

(** A [fetch] and the [response.json()] that may follow it: the promise of
    [fetch] rejects (network failure, or the [AbortSignal.timeout]), or it
    resolves to a response with its [ok] flag and [status], whose [json()]
    rejects or resolves to the object. *)
Inductive fetched (A : Type) : Type :=
| Rejected (e : thrown)
| Responded (ok : bool) (status : Z) (json : thrown + A).
Arguments Rejected {A} e.
Arguments Responded {A} ok status json.

(** The two services [getLocationFromIP] fetches from. *)
Inductive service : Type := IpApi | IpapiCo.

(** [a || b] on optional strings. *)
Definition or_else (a b : option string) : option string :=
  match truthy a with
  | Some x => Some x
  | None => b
  end.

(** A whole number in a template literal. *)
Definition numberToString (n : Z) : string := NilZero.string_of_int (Z.to_int n).

Section Geolocation.

Variable toNumber : string -> option Q.

(** What the two services answer to a request for an address. *)
Variable ipApi : string -> fetched IpApiData.t.
Variable ipapiCo : string -> fetched IpapiCoData.t.

(** The [catch (error)] block: the fallback service is tried, and whatever
    it throws is swallowed by the inner [catch]. *)
Definition getLocationFromIP_catch (ip : string) (error : thrown) : LocationResult.t :=
  match ipapiCo ip with
  | Responded true _ (inr fallbackData) =>
      let location :=
        LocationData.mk
          (IpapiCoData.country_name fallbackData)
          (IpapiCoData.country_code fallbackData)
          (IpapiCoData.region fallbackData)
          (IpapiCoData.city fallbackData)
          (IpapiCoData.latitude fallbackData)
          (IpapiCoData.longitude fallbackData)
          (IpapiCoData.org fallbackData)
          None
          (Some ip) in
      LocationResult.mk true (Some location) None
  | _ =>
      LocationResult.mk false None
        (Some match error with
              | ErrorObject message => message
              | OtherValue => "Unknown error"
              end)
  end.

(** [getLocationFromIP(ip)]: the value its promise resolves to, and the
    services it has fetched from, in order. *)
Definition getLocationFromIP (ip : string) : LocationResult.t * list service :=
  if isPrivateIP toNumber ip then
    (LocationResult.mk false None (Some "Private IP address"), [])
  else
    match ipApi ip with
    | Rejected e => (getLocationFromIP_catch ip e, [IpApi; IpapiCo])
    | Responded ok status json =>
        if negb ok then
          (getLocationFromIP_catch ip
             (ErrorObject (String.append "HTTP error! status: " (numberToString status))),
           [IpApi; IpapiCo])
        else
          match json with
          | inl e => (getLocationFromIP_catch ip e, [IpApi; IpapiCo])
          | inr data =>
              if match IpApiData.status data with
                 | Some s => String.eqb s "fail"
                 | None => false
                 end
              then
                (LocationResult.mk false None
                   (Some (str_or (IpApiData.message data) "Failed to get location data")),
                 [IpApi])
              else
                let location :=
                  LocationData.mk
                    (IpApiData.country data)
                    (IpApiData.countryCode data)
                    (or_else (IpApiData.regionName data) (IpApiData.region data))
                    (IpApiData.city data)
                    (IpApiData.lat data)
                    (IpApiData.lon data)
                    (IpApiData.isp data)
                    (IpApiData.org data)
                    (IpApiData.query data) in
                (LocationResult.mk true (Some location) None, [IpApi])
          end
    end.

(** [getLocationFromHeaders(req)], on [req.headers.get]; the fields the
    object literal leaves out are absent. *)
Definition getLocationFromHeaders (headers : string -> option string) : LocationData.t :=
  LocationData.mk
    (or_else (headers "cf-ipcountry") (or_else (headers "x-country-code") None))
    None None None None None None None
    (Some (getClientIP toNumber headers)).

End Geolocation.

(** ** [src/app/t/[shortCode]/route.ts]: the redirect handler *)

Module ShortLinkRoute.

(** Where a redirect points: a path of the site itself, as in
    [new URL(path, request.url)], or a URL passed as it is. *)
Inductive target : Type :=
| OnSite (path : string)
| Absolute (url : string).

(** [NextResponse.redirect(url, init)]; [status] is [None] where the call
    passes no [init]. *)
Record redirect : Type := mkRedirect { url : target; status : option Z }.

(** The lookup still running when the handler returns: the promise of
    [getLocationFromIP(ip)], with the callback that enriches the click
    [clickId] of the link [linkId]. *)
Record lookup : Type := mkLookup { linkId : string; clickId : string; ip : string }.

Section Handler.

Variable toNumber : string -> option Q.
Variable urlParts : string -> option (string * string).

(** Whether [NextResponse.redirect] takes a URL; it throws when it does
    not. *)
Variable redirectAccepts : string -> bool.

(** [GET(request, context)] for the route parameter [shortCode] and
    [request.headers.get]; [clickId] is the id the handler computes and
    [now] its [new Date()]. *)
Definition GET (clickId : string) (now : Z) (shortCode : string)
    (headers : string -> option string) (st : Stores)
    : redirect * Stores * option lookup :=
  if String.eqb shortCode EmptyString then
    (mkRedirect (OnSite "/") None, st, None)
  else
    match LinkStorage.getLinkByShortCode shortCode st with
    | None => (mkRedirect (OnSite "/?error=not-found") None, st, None)
    | Some link =>
        if negb (Link.isActive link) then
          (mkRedirect (OnSite "/?error=inactive") None, st, None)
        else
          let ip := getClientIP toNumber headers in
          let userAgent := sanitizeUserAgent (truthy (headers "user-agent")) in
          let referer := sanitizeReferer urlParts (truthy (headers "referer")) in
          let click :=
            Click.mk clickId (Link.id link) now ip userAgent
              None None None None None None referer None None in
          let st := ClickStorage.addClick click st in
          let pending := Some (mkLookup (Link.id link) clickId ip) in
          if redirectAccepts (Link.originalUrl link) then
            (mkRedirect (Absolute (Link.originalUrl link)) (Some 302%Z), st, pending)
          else
            (mkRedirect (OnSite "/") None, st, pending)
    end.

(** The callback of a lookup, run when its promise has resolved. *)
Definition settle (ipApi : string -> fetched IpApiData.t)
    (ipapiCo : string -> fetched IpapiCoData.t) (l : lookup) (st : Stores) : Stores :=
  enrichClick (linkId l) (clickId l)
    (fst (getLocationFromIP toNumber ipApi ipapiCo (ip l))) st.

End Handler.

End ShortLinkRoute.

(** ** [src/app/api/links/[id]/route.ts]: the handlers *)

Module AnalyticsData.
Record t : Type := mk {
  link : Link.t;
  clicks : list Click.t;
  totalClicks : Z;
  uniqueClicks : Z;
  topCountries : list NameCount;
  topCities : list NameCount;
  clicksByDate : list DayCount.t;
  topReferers : list NameCount
}.
End AnalyticsData.

Module ApiResponse.
Record t (A : Type) : Type := mk {
  success : bool;
  data : option A;
  error : option string;
  message : option string
}.
Arguments mk {A} success data error message.
Arguments success {A} t.
Arguments data {A} t.
Arguments error {A} t.
Arguments message {A} t.
End ApiResponse.

Module LinkRoute.

(** [NextResponse.json(body, init)]; [status] is [None] where the call
    passes no [init]. *)
Record json (A : Type) : Type := mkJson { body : ApiResponse.t A; status : option Z }.
Arguments mkJson {A} body status.
Arguments body {A} j.
Arguments status {A} j.

Section Handlers.

Variable startOfDay : Z -> Z.
Variable subDays : Z -> Z -> Z.
Variable format : Z -> option string.
Variable urlHostname : string -> option string.

(** [GET(request, context)] for the route parameter [id]; [clock] gives
    the instants [generateClicksByDate] reads.  The body of the handler is
    one [try]: what [generateClicksByDate] throws is answered by the [catch]
    with 500; nothing else in the [try] throws. *)
Definition GET (clock : nat -> Z) (id : string) (st : Stores) : json AnalyticsData.t :=
  if String.eqb id EmptyString then
    mkJson (ApiResponse.mk false None (Some "Link ID is required") None) (Some 400%Z)
  else
    match LinkStorage.getLinkById id st with
    | None =>
        mkJson (ApiResponse.mk false None (Some "Link not found") None) (Some 404%Z)
    | Some link =>
        let clicks := ClickStorage.getClicksForLink id st in
        let totalClicks := Z.of_nat (List.length clicks) in
        let uniqueClicks := getUniqueClicksForLink id st in
        let topCountries := slice0 10 (groupClicksByCountry clicks) in
        let topCities := slice0 10 (groupClicksByCity clicks) in
        match generateClicksByDate startOfDay subDays format clock clicks with
        | Thrown _ =>
            mkJson (ApiResponse.mk false None (Some "Failed to fetch link data") None)
              (Some 500%Z)
        | Returned clicksByDate =>
            let topReferers := generateTopReferers urlHostname clicks in
            let analyticsData :=
              AnalyticsData.mk link clicks totalClicks uniqueClicks
                topCountries topCities clicksByDate topReferers in
            mkJson (ApiResponse.mk true (Some analyticsData) None None) None
        end
    end.

End Handlers.

(** [DELETE(request, context)] for the route parameter [id]. *)
Definition DELETE (id : string) (st : Stores) : json bool * Stores :=
  if String.eqb id EmptyString then
    (mkJson (ApiResponse.mk false None (Some "Link ID is required") None) (Some 400%Z), st)
  else
    let (deleted, st) := LinkStorage.deleteLink id st in
    if negb deleted then
      (mkJson (ApiResponse.mk false None (Some "Link not found") None) (Some 404%Z), st)
    else
      (mkJson (ApiResponse.mk true (Some true) None (Some "Link deleted successfully")) None,
       st).

End LinkRoute.

(** ** [src/app/api/track/[shortCode]/route.ts]: the POST handler *)

(** A JSON value, as [request.json()] yields it. *)
#[warnings="-register-all"]
Inductive jsonValue : Type :=
| JNull
| JBool (b : bool)
| JNumber (n : number)
| JString (s : string)
| JArray (items : list jsonValue)
| JObject (fields : list (string * jsonValue)).

(** Whether a JSON value is truthy. *)
Definition jsTruthy (v : jsonValue) : bool :=
  match v with
  | JNull => false
  | JBool b => b
  | JNumber n => negb (Qeq_bool n 0)
  | JString s => negb (String.eqb s EmptyString)
  | JArray _ => true
  | JObject _ => true
  end.

(** [v || header || undefined] for a field [v] of the body and a header. *)
Definition firstTruthy (v : option jsonValue) (header : option string) : option jsonValue :=
  match v with
  | Some value =>
      if jsTruthy value then Some value else option_map JString (truthy header)
  | None => option_map JString (truthy header)
  end.

Module TrackRoute.

(** What [request.json()] resolves to, by the fields the handler reads:
    [null], or a value whose [userAgent], [referer] and [location] may be
    missing (all three are, for a body that cannot be parsed, and for one
    that is a number, a string, a boolean or an array).  [userAgent] and
    [referer] are any JSON values.  [location] is [None] when it is missing
    or falsy; otherwise it gives the [latitude] and the [longitude], each a
    number or missing, as the fields of a click hold them: a location whose
    coordinates are other values has no counterpart here. *)
Inductive requestBody : Type :=
| NullBody
| Fields (userAgent referer : option jsonValue)
         (location : option (option number * option number)).

(** [NextResponse.json(body, init)]; [status] is [None] where the call
    passes no [init]. *)
Record response : Type := mkResponse {
  success : bool;
  redirectUrl : option string;
  error : option string;
  message : option string;
  status : option Z
}.

(** Where the handler stands when it first gives up control: it has
    answered, or it awaits [getLocationFromIP(ip)] with the link it found
    and the click it has built. *)
Inductive progress : Type :=
| Answered (r : response) (st : Stores)
| Awaiting (link : Link.t) (click : Click.t).

Definition failed (error : string) (status : Z) : response :=
  mkResponse false None (Some error) None (Some status).

Definition tracked (link : Link.t) : response :=
  mkResponse true (Some (Link.originalUrl link)) None
    (Some "Click tracked successfully") None.

Section Handler.

Variable toNumber : string -> option Q.
Variable urlParts : string -> option (string * string).

(** [String(v)], the text [new URL(v)] parses for a value that is no
    string. *)
Variable textOf : jsonValue -> string.

(** [POST(request, context)] up to its answer or to the [await] of the
    lookup; [clickId] is the id the handler computes and [now] its
    [new Date()].  Two reads throw a [TypeError], which the [catch] of the
    handler answers with 500: a field of a [null] body, and [replace] of a
    user agent that is truthy and no string, inside [sanitizeUserAgent].
    [sanitizeReferer] has its own [try]. *)
Definition POST (clickId : string) (now : Z) (shortCode : string)
    (headers : string -> option string) (body : requestBody) (st : Stores) : progress :=
  if String.eqb shortCode EmptyString then
    Answered (failed "Short code is required" 400) st
  else
    match LinkStorage.getLinkByShortCode shortCode st with
    | None => Answered (failed "Link not found" 404) st
    | Some link =>
        if negb (Link.isActive link) then
          Answered (failed "Link is inactive" 403) st
        else
          match body with
          | NullBody => Answered (failed "Failed to track click" 500) st
          | Fields bodyUserAgent bodyReferer bodyLocation =>
              let ip := getClientIP toNumber headers in
              let sanitized :=
                match firstTruthy bodyUserAgent (headers "user-agent") with
                | None => Returned (sanitizeUserAgent None)
                | Some (JString userAgent) => Returned (sanitizeUserAgent (Some userAgent))
                | Some _ => Thrown "userAgent.replace is not a function"
                end in
              match sanitized with
              | Thrown _ => Answered (failed "Failed to track click" 500) st
              | Returned userAgent =>
                  let referer :=
                    match firstTruthy bodyReferer (headers "referer") with
                    | None => None
                    | Some (JString referer) => sanitizeReferer urlParts (Some referer)
                    | Some value => sanitizeReferer urlParts (Some (textOf value))
                    end in
                  match bodyLocation with
                  | Some (latitude, longitude) =>
                      let click :=
                        Click.mk clickId (Link.id link) now ip userAgent
                          None None None None latitude longitude referer None None in
                      Answered (tracked link) (ClickStorage.addClick click st)
                  | None =>
                      Awaiting link
                        (Click.mk clickId (Link.id link) now ip userAgent
                           None None None None None None referer None None)
                  end
              end
          end
    end.

(** The rest of the handler, run when the lookup has resolved to
    [locationResult], on the stores as they are by then. *)
Definition POST_resumed (link : Link.t) (click : Click.t)
    (locationResult : LocationResult.t) (st : Stores) : response * Stores :=
  let click :=
    match LocationResult.success locationResult,
          LocationResult.location locationResult with
    | true, Some location => Click.with_location location click
    | _, _ => click
    end in
  (tracked link, ClickStorage.addClick click st).

End Handler.

End TrackRoute.

(** The click the redirect handler builds for a request, before any
    enrichment. *)
Definition requestClick (toNumber : string -> option Q)
    (urlParts : string -> option (string * string))
    (clickId linkId : string) (now : Z) (headers : string -> option string) : Click.t :=
  Click.mk clickId linkId now (getClientIP toNumber headers)
    (sanitizeUserAgent (truthy (headers "user-agent")))
    None None None None None None
    (sanitizeReferer urlParts (truthy (headers "referer")))
    None None.

(** Sample surroundings of the handlers: ip-api.com answers every request
    with a body, ipapi.co cannot be reached, one referer parses as a URL and
    every redirect is accepted. *)
Definition sampleIpApi (ip : string) : fetched IpApiData.t :=
  Responded true 200%Z
    (inr (IpApiData.mk (Some "success") None (Some "United States") (Some "US")
            (Some "CA") (Some "California") (Some "Mountain View")
            (Some (374056 # 10000)%Q) (Some (-1220775 # 10000)%Q)
            (Some "Example ISP") (Some "Example Org") (Some ip))).

Definition sampleIpapiCo (ip : string) : fetched IpapiCoData.t := Rejected OtherValue.

Definition sampleUrlParts (url : string) : option (string * string) :=
  if String.eqb url "https://news.example/story?id=7"
  then Some ("https://news.example", "/story")
  else None.

(** * Properties *)

(** ** The insertion-ordered map *)

Module JsMapFacts.
Import JsMap.

Section Facts.
Context {V : Type}.
Implicit Types (m : JsMap.t V) (k : string) (v : V).

Lemma get_set_eq k v m : get k (set k v m) = Some v.
Proof.
  induction m as [|[k' v'] m IH]; simpl.
  - now rewrite String.eqb_refl.
  - destruct (String.eqb k' k) eqn:E; simpl.
    + now rewrite String.eqb_refl.
    + now rewrite E.
Qed.

Lemma get_set_ne k k' v m : k <> k' -> get k' (set k v m) = get k' m.
Proof.
  intros Hne. induction m as [|[k0 v0] m IH]; simpl.
  - apply String.eqb_neq in Hne. now rewrite Hne.
  - destruct (String.eqb k0 k) eqn:E; simpl.
    + apply String.eqb_eq in E. subst k0.
      apply String.eqb_neq in Hne. now rewrite Hne.
    + now rewrite IH.
Qed.

Lemma get_In k v m : get k m = Some v -> In (k, v) m.
Proof.
  induction m as [|[k' v'] m IH]; simpl; [discriminate|].
  destruct (String.eqb k' k) eqn:E.
  - apply String.eqb_eq in E. intros [= ->]. left. now subst.
  - intros H. right. auto.
Qed.

Lemma get_None_keys k m : get k m = None <-> ~ In k (keys m).
Proof.
  induction m as [|[k' v'] m IH]; simpl.
  - tauto.
  - destruct (String.eqb k' k) eqn:E.
    + apply String.eqb_eq in E. split; [discriminate | intros H; exfalso; auto].
    + apply String.eqb_neq in E. rewrite IH. tauto.
Qed.

Lemma has_false_keys k m : has k m = false <-> ~ In k (keys m).
Proof.
  unfold has. rewrite <- get_None_keys.
  destruct (get k m); split; congruence.
Qed.

Lemma In_get k v m : ok m -> In (k, v) m -> get k m = Some v.
Proof.
  unfold ok. induction m as [|[k' v'] m IH]; simpl; [tauto|].
  intros Hnd [H | H].
  - injection H as -> ->. now rewrite String.eqb_refl.
  - inversion Hnd as [|? ? Hnot Hnd']; subst.
    destruct (String.eqb k' k) eqn:E.
    + apply String.eqb_eq in E. subst k'. exfalso. apply Hnot.
      now apply (in_map fst) in H.
    + auto.
Qed.

(** [set] on an absent key appends. *)
Lemma set_fresh k v m : has k m = false -> set k v m = m ++ [(k, v)].
Proof.
  unfold has. induction m as [|[k' v'] m IH]; simpl; [reflexivity|].
  destruct (String.eqb k' k) eqn:E; [discriminate|].
  intros H. now rewrite IH.
Qed.

(** [set] on a present key overwrites at its position. *)
Lemma set_present k v m :
  has k m = true ->
  exists pre v0 post,
    m = pre ++ (k, v0) :: post /\ ~ In k (keys pre) /\
    forall v', set k v' m = pre ++ (k, v') :: post.
Proof.
  unfold has. induction m as [|[k' v'] m IH]; simpl; [discriminate|].
  destruct (String.eqb k' k) eqn:E.
  - apply String.eqb_eq in E. subst k'. intros _.
    exists [], v', m. simpl. repeat split; auto.
  - intros H. destruct (IH H) as (pre & v0 & post & -> & Hpre & Hset).
    exists ((k', v') :: pre), v0, post. simpl. repeat split.
    + apply String.eqb_neq in E. intros [F | F]; auto.
    + intros v''. now rewrite Hset.
Qed.

Lemma keys_set k v m :
  keys (set k v m) = if has k m then keys m else keys m ++ [k].
Proof.
  unfold has, keys. induction m as [|[k' v'] m IH]; simpl; [reflexivity|].
  destruct (String.eqb k' k) eqn:E; simpl.
  - apply String.eqb_eq in E. now subst.
  - rewrite IH. now destruct (get k m).
Qed.

Lemma ok_set k v m : ok m -> ok (set k v m).
Proof.
  unfold ok. rewrite keys_set. destruct (has k m) eqn:E; [trivial|].
  intros Hnd. apply has_false_keys in E.
  apply NoDup_rev in Hnd. rewrite <- (rev_involutive (keys m ++ [k])).
  apply NoDup_rev. rewrite rev_app_distr. simpl. constructor; [|assumption].
  now rewrite <- in_rev.
Qed.

Lemma set_set k v1 v2 m : set k v2 (set k v1 m) = set k v2 m.
Proof.
  induction m as [|[k' v'] m IH]; simpl.
  - now rewrite String.eqb_refl.
  - destruct (String.eqb k' k) eqn:E; simpl.
    + now rewrite String.eqb_refl.
    + now rewrite E, IH.
Qed.

Lemma set_same k v m : get k m = Some v -> set k v m = m.
Proof.
  induction m as [|[k' v'] m IH]; simpl; [discriminate|].
  destruct (String.eqb k' k) eqn:E.
  - apply String.eqb_eq in E. now intros [= ->]; subst.
  - intros H. now rewrite IH.
Qed.

Lemma In_set k v m k' v' :
  ok m ->
  In (k', v') (set k v m) <-> (k' = k /\ v' = v) \/ (k' <> k /\ In (k', v') m).
Proof.
  intros Hok. destruct (has k m) eqn:E.
  - destruct (set_present k v m E) as (pre & v0 & post & Hm & Hpre & Hset).
    rewrite Hset. unfold ok in Hok. rewrite Hm in Hok |- *.
    unfold keys in Hok. rewrite map_app in Hok. simpl in Hok.
    apply NoDup_remove_2 in Hok. rewrite !in_app_iff. simpl.
    assert (Hk : forall x, In (k, x) pre \/ In (k, x) post -> False).
    { intros x Hx. apply Hok. rewrite in_app_iff.
      destruct Hx as [Hx | Hx]; [left | right];
        now apply (in_map fst) in Hx. }
    split.
    + intros [H | [H | H]].
      * right. split; [|auto]. intros ->. eapply Hk; eauto.
      * injection H as <- <-. now left.
      * right. split; [|auto]. intros ->. eapply Hk; eauto.
    + intros [[-> ->] | [Hne [H | [H | H]]]]; auto.
      injection H as <- <-. congruence.
  - rewrite (set_fresh k v m E). rewrite in_app_iff. simpl.
    apply has_false_keys in E. split.
    + intros [H | [H | []]].
      * right. split; [|assumption]. intros ->. apply E.
        now apply (in_map fst) in H.
      * injection H as <- <-. now left.
    + intros [[-> ->] | [_ H]]; auto.
Qed.

Lemma get_delete_eq k m : get k (delete k m) = None.
Proof.
  unfold delete. induction m as [|[k' v'] m IH]; simpl; [reflexivity|].
  destruct (String.eqb k' k) eqn:E; simpl; [assumption|].
  now rewrite E.
Qed.

Lemma get_delete_ne k k' m : k <> k' -> get k' (delete k m) = get k' m.
Proof.
  intros Hne. unfold delete. induction m as [|[k0 v0] m IH]; simpl; [reflexivity|].
  destruct (String.eqb k0 k) eqn:E; simpl.
  - apply String.eqb_eq in E. subst k0.
    apply String.eqb_neq in Hne. now rewrite Hne.
  - now rewrite IH.
Qed.

Lemma In_delete k m k' v' : In (k', v') (delete k m) <-> k' <> k /\ In (k', v') m.
Proof.
  unfold delete. rewrite filter_In. simpl.
  rewrite negb_true_iff, String.eqb_neq. tauto.
Qed.

Lemma keys_delete k m : keys (delete k m) = filter (fun x => negb (String.eqb x k)) (keys m).
Proof.
  unfold delete, keys. induction m as [|[k' v'] m IH]; simpl; [reflexivity|].
  destruct (String.eqb k' k); simpl; now rewrite IH.
Qed.

Lemma ok_delete k m : ok m -> ok (delete k m).
Proof.
  unfold ok. rewrite keys_delete. apply NoDup_filter.
Qed.

End Facts.
End JsMapFacts.

(** ** Looking a link up by id *)

Lemma findEntryById_Some id (m : JsMap.t Link.t) k l :
  findEntryById id m = Some (k, l) -> In (k, l) m /\ Link.id l = id.
Proof.
  unfold findEntryById, JsMap.entries. intros H.
  apply find_some in H. simpl in H. now rewrite String.eqb_eq in H.
Qed.

Lemma findEntryById_None id (m : JsMap.t Link.t) :
  findEntryById id m = None <-> (forall k l, In (k, l) m -> Link.id l <> id).
Proof.
  unfold findEntryById, JsMap.entries. split.
  - intros H k l Hin. apply (find_none _ _ H) in Hin. simpl in Hin.
    now apply String.eqb_neq.
  - intros H. destruct (find _ m) as [[k l]|] eqn:E; [|reflexivity].
    apply find_some in E. simpl in E. destruct E as [Hin E].
    apply String.eqb_eq in E. now apply H in Hin.
Qed.

Lemma findEntryById_live id (m : JsMap.t Link.t) :
  (exists k l, In (k, l) m /\ Link.id l = id) ->
  exists k l, findEntryById id m = Some (k, l).
Proof.
  intros (k & l & Hin & Hid).
  destruct (findEntryById id m) as [[k' l']|] eqn:E; [eauto|].
  rewrite findEntryById_None in E. now apply E in Hin.
Qed.

(** Under the map invariant the entry found by id is the one [set] overwrites. *)
Lemma findEntryById_split id (m : JsMap.t Link.t) k l :
  JsMap.ok m ->
  findEntryById id m = Some (k, l) ->
  exists pre post,
    m = pre ++ (k, l) :: post /\
    Forall (fun e => Link.id (snd e) <> id) pre /\
    forall v, JsMap.set k v m = pre ++ (k, v) :: post.
Proof.
  unfold findEntryById, JsMap.entries, JsMap.ok.
  induction m as [|[k0 l0] m IH]; simpl; [discriminate|].
  intros Hnd. inversion Hnd as [|? ? Hnot Hnd']; subst.
  destruct (String.eqb (Link.id l0) id) eqn:E.
  - intros [= -> ->]. exists [], m. simpl. repeat split; auto.
    intros v. now rewrite String.eqb_refl.
  - intros H. destruct (IH Hnd' H) as (pre & post & Hm & Hpre & Hset).
    exists ((k0, l0) :: pre), post. simpl. repeat split.
    + now rewrite Hm.
    + constructor; [|assumption]. simpl. now apply String.eqb_neq.
    + intros v. destruct (String.eqb k0 k) eqn:Ek.
      * apply String.eqb_eq in Ek. subst k0. exfalso. apply Hnot.
        apply find_some in H. destruct H as [H _].
        now apply (in_map fst) in H.
      * now rewrite Hset.
Qed.

Lemma findEntryById_app_skip id (pre : JsMap.t Link.t) k l post :
  Forall (fun e => Link.id (snd e) <> id) pre ->
  Link.id l = id ->
  findEntryById id (pre ++ (k, l) :: post) = Some (k, l).
Proof.
  unfold findEntryById, JsMap.entries.
  induction 1 as [|[k0 l0] pre Hne _ IH]; simpl; intros Hid.
  - apply String.eqb_eq in Hid. now rewrite Hid.
  - simpl in Hne. apply String.eqb_neq in Hne. rewrite Hne. auto.
Qed.

Lemma Stores_eta (st : Stores) : mkStores (linksStore st) (clicksStore st) = st.
Proof. now destruct st. Qed.

(** ** C10: toggling a link's status *)

(** C10.  On a registry that is a [Map] (no key twice): when some link has
    the id, [toggleLinkStatus] returns [true] and rewrites exactly the first
    entry with that id, keeping its key and every field but [isActive], which
    is negated; all other entries and the click histories stay as they are,
    and a second call returns [true] and restores the stores.  When no link
    has the id it returns [false] and the stores are unchanged. *)
Theorem toggleLinkStatus_involution (id : string) (st : Stores) :
  JsMap.ok (linksStore st) ->
  ((exists k l, In (k, l) (linksStore st) /\ Link.id l = id) ->
   exists pre k l post,
     linksStore st = pre ++ (k, l) :: post /\
     Link.id l = id /\
     Forall (fun e => Link.id (snd e) <> id) pre /\
     LinkStorage.toggleLinkStatus id st =
       (true,
        mkStores
          (pre ++
           (k, Link.mk (Link.id l) (Link.originalUrl l) (Link.shortCode l)
                 (Link.title l) (Link.description l) (Link.createdAt l)
                 (Link.clickCount l) (negb (Link.isActive l))) :: post)
          (clicksStore st)) /\
     LinkStorage.toggleLinkStatus id (snd (LinkStorage.toggleLinkStatus id st)) =
       (true, st))
  /\
  ((forall k l, In (k, l) (linksStore st) -> Link.id l <> id) ->
   LinkStorage.toggleLinkStatus id st = (false, st)).
Proof.
  intros Hok. split.
  - intros Hlive. apply findEntryById_live in Hlive.
    destruct Hlive as (k & l & Hfind).
    destruct (findEntryById_split _ _ _ _ Hok Hfind) as (pre & post & Hm & Hpre & Hset).
    destruct (findEntryById_Some _ _ _ _ Hfind) as [_ Hid].
    exists pre, k, l, post. repeat split; auto.
    + unfold LinkStorage.toggleLinkStatus. rewrite Hfind, Hset. reflexivity.
    + unfold LinkStorage.toggleLinkStatus at 2. rewrite Hfind, Hset. simpl.
      unfold LinkStorage.toggleLinkStatus. simpl.
      rewrite (findEntryById_app_skip id pre k
                 (Link.with_isActive (negb (Link.isActive l)) l) post Hpre Hid).
      rewrite <- (Hset (Link.with_isActive _ l)), JsMapFacts.set_set, Hset.
      unfold Link.with_isActive. simpl. rewrite negb_involutive.
      destruct l; simpl. rewrite <- Hm. now rewrite Stores_eta.
  - intros Habs. apply findEntryById_None in Habs.
    unfold LinkStorage.toggleLinkStatus. now rewrite Habs.
Qed.

(** ** C1: appending a click whose link is not live *)

Lemma updateLinkClickCount_unknown linkId st :
  findEntryById linkId (linksStore st) = None ->
  LinkStorage.updateLinkClickCount linkId st = st.
Proof.
  intros H. unfold LinkStorage.updateLinkClickCount. now rewrite H.
Qed.

(** C1, as the code has it.  [addClick] has no failure path.  For a click
    whose [linkId] is the id of no live link, the registry is left as it is
    (no [clickCount] moves), and the click is appended to the history kept
    under its [linkId], which is created when there was none. *)
Theorem addClick_unknown_link (click : Click.t) (st : Stores) :
  (forall k l, In (k, l) (linksStore st) -> Link.id l <> Click.linkId click) ->
  linksStore (ClickStorage.addClick click st) = linksStore st /\
  clicksStore (ClickStorage.addClick click st) =
    JsMap.set (Click.linkId click)
      (ClickStorage.getClicksForLink (Click.linkId click) st ++ [click])
      (clicksStore st) /\
  ClickStorage.getClicksForLink (Click.linkId click) (ClickStorage.addClick click st) =
    ClickStorage.getClicksForLink (Click.linkId click) st ++ [click].
Proof.
  intros Hdead. apply findEntryById_None in Hdead.
  unfold ClickStorage.addClick.
  rewrite updateLinkClickCount_unknown by exact Hdead.
  simpl. repeat split.
  unfold ClickStorage.getClicksForLink at 1. simpl.
  now rewrite JsMapFacts.get_set_eq.
Qed.

(** ** C3: an enrichment patch that arrives after its link was deleted *)

(** C3.  When [deleteLink id] found the link, the stores it leaves hold no
    history under [id]; the enrichment callback of any click of that link,
    with any location result, then returns these stores unchanged, so the
    short code of the deleted link and the history key stay absent. *)
Theorem enrichClick_after_deleteLink (id clickId : string)
    (locationResult : LocationResult.t) (st st' : Stores) :
  LinkStorage.deleteLink id st = (true, st') ->
  enrichClick id clickId locationResult st' = st' /\
  JsMap.get id (clicksStore (enrichClick id clickId locationResult st')) = None /\
  exists shortCode link,
    findEntryById id (linksStore st) = Some (shortCode, link) /\
    LinkStorage.getLinkByShortCode shortCode
      (enrichClick id clickId locationResult st') = None.
Proof.
  unfold LinkStorage.deleteLink.
  destruct (findEntryById id (linksStore st)) as [[k l]|] eqn:E; [|discriminate].
  intros [= <-].
  assert (Hsame : forall r, enrichClick id clickId r
            (mkStores (JsMap.delete k (linksStore st)) (JsMap.delete id (clicksStore st)))
          = mkStores (JsMap.delete k (linksStore st)) (JsMap.delete id (clicksStore st))).
  { intros r. unfold enrichClick, ClickStorage.getClicksForLink. simpl.
    rewrite JsMapFacts.get_delete_eq. simpl.
    destruct (LocationResult.success r); [|reflexivity].
    now destruct (LocationResult.location r). }
  rewrite Hsame. simpl. repeat split.
  - apply JsMapFacts.get_delete_eq.
  - exists k, l. split; [reflexivity|].
    unfold LinkStorage.getLinkByShortCode. simpl.
    apply JsMapFacts.get_delete_eq.
Qed.

(** ** C5: a successful enrichment patch after an append *)

Lemma find_app_last {A : Type} (p : A -> bool) (l : list A) (x : A) :
  (forall y, In y l -> p y = false) -> p x = true ->
  find p (l ++ [x]) = Some x /\
  forall f, update_first p f (l ++ [x]) = l ++ [f x].
Proof.
  intros Hl Hx. induction l as [|y l IH]; simpl.
  - rewrite Hx. auto.
  - rewrite (Hl y (or_introl eq_refl)).
    destruct IH as [IH1 IH2]; [intros z Hz; apply Hl; now right|].
    split; [assumption|]. intros f. now rewrite IH2.
Qed.

Lemma clicksStore_updateLinkClickCount linkId st :
  clicksStore (LinkStorage.updateLinkClickCount linkId st) = clicksStore st.
Proof.
  unfold LinkStorage.updateLinkClickCount.
  now destruct (findEntryById linkId (linksStore st)) as [[k l]|].
Qed.

(** C5.  Take any stores in which no click of the history of [click]'s link
    has [click]'s id (click ids are unique within the process).  After
    [addClick click] and the enrichment callback for that click with a
    successful result carrying [loc], [getClicksForLink] returns the former
    history followed by the click with its eight location fields set from
    [loc]; its [id], [linkId], [timestamp], [ip], [userAgent] and [referer]
    are those of [click]; the registry and every other history are as
    [addClick] left them. *)
Theorem enrichClick_after_addClick (click : Click.t) (loc : LocationData.t)
    (locationResult : LocationResult.t) (st : Stores) :
  LocationResult.success locationResult = true ->
  LocationResult.location locationResult = Some loc ->
  (forall c, In c (ClickStorage.getClicksForLink (Click.linkId click) st) ->
             Click.id c <> Click.id click) ->
  let st1 := ClickStorage.addClick click st in
  let st2 := enrichClick (Click.linkId click) (Click.id click) locationResult st1 in
  exists patched,
    ClickStorage.getClicksForLink (Click.linkId click) st2 =
      ClickStorage.getClicksForLink (Click.linkId click) st ++ [patched] /\
    (Click.country patched = LocationData.country loc /\
     Click.countryCode patched = LocationData.countryCode loc /\
     Click.region patched = LocationData.region loc /\
     Click.city patched = LocationData.city loc /\
     Click.latitude patched = LocationData.lat loc /\
     Click.longitude patched = LocationData.lon loc /\
     Click.isp patched = LocationData.isp loc /\
     Click.org patched = LocationData.org loc) /\
    (Click.id patched = Click.id click /\
     Click.linkId patched = Click.linkId click /\
     Click.timestamp patched = Click.timestamp click /\
     Click.ip patched = Click.ip click /\
     Click.userAgent patched = Click.userAgent click /\
     Click.referer patched = Click.referer click) /\
    linksStore st2 = linksStore st1 /\
    (forall other, other <> Click.linkId click ->
       JsMap.get other (clicksStore st2) = JsMap.get other (clicksStore st1)).
Proof.
  intros Hok Hloc Hfresh st1 st2.
  exists (Click.with_location loc click).
  assert (Hold : forall y, In y (ClickStorage.getClicksForLink (Click.linkId click) st) ->
                 String.eqb (Click.id y) (Click.id click) = false).
  { intros y Hy. apply String.eqb_neq. now apply Hfresh. }
  destruct (find_app_last (fun c => String.eqb (Click.id c) (Click.id click))
              _ click Hold (String.eqb_refl _)) as [Hfind Hupd].
  assert (H1 : ClickStorage.getClicksForLink (Click.linkId click) st1 =
               ClickStorage.getClicksForLink (Click.linkId click) st ++ [click]).
  { unfold st1, ClickStorage.addClick, ClickStorage.getClicksForLink.
    rewrite clicksStore_updateLinkClickCount. simpl.
    now rewrite JsMapFacts.get_set_eq. }
  assert (H2 : st2 = mkStores (linksStore st1)
            (JsMap.set (Click.linkId click)
               (ClickStorage.getClicksForLink (Click.linkId click) st ++
                [Click.with_location loc click])
               (clicksStore st1))).
  { unfold st2, enrichClick. rewrite Hok, Hloc, H1, Hfind. now rewrite Hupd. }
  rewrite H2. simpl. repeat split.
  - unfold ClickStorage.getClicksForLink at 1. simpl.
    now rewrite JsMapFacts.get_set_eq.
  - intros other Hne. apply JsMapFacts.get_set_ne. congruence.
Qed.

(** ** The short code generator *)

Lemma charAt_chars i :
  i < String.length chars ->
  exists c, charAt chars i = String c EmptyString /\ isAlnum c = true.
Proof.
  intros Hi.
  assert (Hall : forallb (fun i => match String.get i chars with
                                   | Some c => isAlnum c
                                   | None => false
                                   end) (seq 0 (String.length chars)) = true)
    by (vm_compute; reflexivity).
  rewrite forallb_forall in Hall.
  specialize (Hall i). rewrite in_seq in Hall.
  unfold charAt. destruct (String.get i chars) as [c|].
  - exists c. split; [reflexivity|]. apply Hall. lia.
  - discriminate Hall. lia.
Qed.

Lemma generateShortCode_pos n rnd pos : snd (generateShortCode n rnd pos) = pos + n.
Proof.
  revert pos. induction n as [|n IH]; intros pos; simpl; [lia|].
  specialize (IH (S pos)). destruct (generateShortCode n rnd (S pos)). simpl in *. lia.
Qed.

Lemma generateShortCode_alnum n rnd pos :
  (forall k, rnd k < String.length chars) ->
  String.length (fst (generateShortCode n rnd pos)) = n /\
  forallb isAlnum (list_ascii_of_string (fst (generateShortCode n rnd pos))) = true.
Proof.
  intros Hrnd. revert pos. induction n as [|n IH]; intros pos; simpl; [auto|].
  specialize (IH (S pos)). destruct (generateShortCode n rnd (S pos)) as [rest pos'].
  simpl in *. destruct (charAt_chars (rnd pos) (Hrnd pos)) as (c & -> & Hc).
  simpl. rewrite Hc. destruct IH as [-> ->]. auto.
Qed.

Lemma attempt_isShortCode rnd n :
  (forall k, rnd k < String.length chars) -> isShortCode (attempt rnd n) = true.
Proof.
  intros Hrnd. unfold isShortCode, attempt.
  destruct (generateShortCode_alnum 6 rnd (6 * n) Hrnd) as [-> ->]. reflexivity.
Qed.

Lemma isShortCode_nonempty s : isShortCode s = true -> s <> EmptyString.
Proof. intros H ->. discriminate H. Qed.

Lemma generateUniqueShortCode_loop_S fuel rnd pos links code :
  generateUniqueShortCode_loop (S fuel) rnd pos links code =
    if JsMap.has code links
    then generateUniqueShortCode_loop fuel rnd (pos + 6) links
           (fst (generateShortCode 6 rnd pos))
    else Some code.
Proof.
  cbn [generateUniqueShortCode_loop].
  pose proof (generateShortCode_pos 6 rnd pos) as Hpos.
  destruct (generateShortCode 6 rnd pos) as [c p]. cbn [fst snd] in *.
  now subst p.
Qed.

Lemma generateUniqueShortCode_loop_free fuel rnd pos links code :
  JsMap.has code links = false ->
  generateUniqueShortCode_loop fuel rnd pos links code = Some code.
Proof.
  intros H. destruct fuel; cbn [generateUniqueShortCode_loop]; now rewrite H.
Qed.

(** The loop entered after attempt [j] with [pos = 6 * (j + 1)] draws made. *)
Lemma generateUniqueShortCode_loop_finds links rnd d :
  forall j fuel,
    JsMap.has (attempt rnd (j + d)) links = false ->
    d <= fuel ->
    exists m, j <= m <= j + d /\
      JsMap.has (attempt rnd m) links = false /\
      (forall i, j <= i < m -> JsMap.has (attempt rnd i) links = true) /\
      generateUniqueShortCode_loop fuel rnd (6 * (j + 1)) links (attempt rnd j)
        = Some (attempt rnd m).
Proof.
  induction d as [|d IH]; intros j fuel Hfree Hfuel.
  - rewrite Nat.add_0_r in Hfree. exists j. repeat split; try lia.
    + assumption.
    + now apply generateUniqueShortCode_loop_free.
  - destruct (JsMap.has (attempt rnd j) links) eqn:Hj.
    + destruct fuel as [|fuel]; [lia|].
      rewrite generateUniqueShortCode_loop_S, Hj.
      replace (fst (generateShortCode 6 rnd (6 * (j + 1)))) with (attempt rnd (S j))
        by (unfold attempt; do 2 f_equal; lia).
      replace (6 * (j + 1) + 6) with (6 * (S j + 1)) by lia.
      destruct (IH (S j) fuel) as (m & Hm & Hfm & Hbusy & Hloop).
      * now replace (S j + d) with (j + S d) by lia.
      * lia.
      * exists m. split; [lia|]. split; [assumption|]. split; [|assumption].
        intros i Hi. destruct (Nat.eq_dec i j) as [->|Hne]; [assumption|].
        apply Hbusy. lia.
    + exists j. split; [lia|]. split; [assumption|]. split; [intros; lia|].
      now apply generateUniqueShortCode_loop_free.
Qed.

Lemma generateUniqueShortCode_finds links rnd n fuel :
  JsMap.has (attempt rnd n) links = false ->
  n <= fuel ->
  exists m, m <= n /\
    JsMap.has (attempt rnd m) links = false /\
    (forall i, i < m -> JsMap.has (attempt rnd i) links = true) /\
    generateUniqueShortCode fuel rnd links = Some (attempt rnd m).
Proof.
  intros Hfree Hfuel.
  destruct (generateUniqueShortCode_loop_finds links rnd n 0 fuel Hfree Hfuel)
    as (m & Hm & Hfm & Hbusy & Hloop).
  exists m. split; [lia|]. split; [assumption|]. split.
  - intros i Hi. apply Hbusy. lia.
  - unfold generateUniqueShortCode.
    pose proof (generateShortCode_pos 6 rnd 0) as Hpos.
    assert (Hcode : fst (generateShortCode 6 rnd 0) = attempt rnd 0) by reflexivity.
    destruct (generateShortCode 6 rnd 0) as [code pos].
    cbn [fst snd] in Hpos, Hcode. subst code pos. exact Hloop.
Qed.

(** Whatever the loop returns is a code it drew, and a free one. *)
Lemma generateUniqueShortCode_loop_sound links rnd fuel :
  forall pos code code',
    generateUniqueShortCode_loop fuel rnd pos links code = Some code' ->
    JsMap.has code' links = false /\
    (code' = code \/ exists pos', code' = fst (generateShortCode 6 rnd pos')).
Proof.
  induction fuel as [|fuel IH]; intros pos code code'.
  - cbn [generateUniqueShortCode_loop].
    destruct (JsMap.has code links) eqn:E; [discriminate|].
    intros [= <-]. auto.
  - rewrite generateUniqueShortCode_loop_S.
    destruct (JsMap.has code links) eqn:E.
    + intros H. apply IH in H. destruct H as [Hfree [-> | [pos' ->]]].
      * split; [assumption|]. right. now exists pos.
      * split; [assumption|]. right. now exists pos'.
    + intros [= <-]. auto.
Qed.

Lemma generateUniqueShortCode_sound links rnd fuel code :
  (forall k, rnd k < String.length chars) ->
  generateUniqueShortCode fuel rnd links = Some code ->
  JsMap.has code links = false /\ isShortCode code = true.
Proof.
  intros Hrnd. unfold generateUniqueShortCode.
  destruct (generateShortCode 6 rnd 0) as [c p] eqn:G. intros H.
  apply generateUniqueShortCode_loop_sound in H.
  destruct H as [Hfree Hcode]. split; [assumption|].
  assert (Hshape : forall pos, isShortCode (fst (generateShortCode 6 rnd pos)) = true).
  { intros pos. unfold isShortCode.
    destruct (generateShortCode_alnum 6 rnd pos Hrnd) as [-> ->]. reflexivity. }
  destruct Hcode as [-> | [pos' ->]]; [|apply Hshape].
  specialize (Hshape 0). now rewrite G in Hshape.
Qed.

Lemma truthy_Some s c : truthy s = Some c -> s = Some c /\ c <> EmptyString.
Proof.
  unfold truthy. destruct s as [x|]; [|discriminate].
  destruct (String.eqb x "") eqn:E; [discriminate|].
  intros [= ->]. split; [reflexivity|]. now apply String.eqb_neq.
Qed.

(** What a returning [createLink] did. *)
Lemma createLink_Returned fuel newId now rnd originalUrl title description customCode
    st link st' :
  (forall k, rnd k < String.length chars) ->
  LinkStorage.createLink fuel newId now rnd originalUrl title description customCode st
    = Some (Returned link, st') ->
  exists code,
    JsMap.has code (linksStore st) = false /\
    code <> EmptyString /\
    (truthy customCode = None -> isShortCode code = true) /\
    link = Link.mk newId originalUrl code title description now 0%Z true /\
    st' = mkStores (JsMap.set code link (linksStore st))
                   (JsMap.set newId [] (clicksStore st)).
Proof.
  intros Hrnd. unfold LinkStorage.createLink.
  destruct (truthy customCode) as [c|] eqn:T.
  - destruct (JsMap.has c (linksStore st)) eqn:Hc; [discriminate|].
    intros [= <- <-]. exists c. apply truthy_Some in T. destruct T as [_ T].
    repeat split; auto. discriminate.
  - destruct (generateUniqueShortCode fuel rnd (linksStore st)) as [code|] eqn:G;
      [|discriminate].
    intros [= <- <-]. exists code.
    destruct (generateUniqueShortCode_sound _ _ _ _ Hrnd G) as [Hfree Hshape].
    repeat split; auto. now apply isShortCode_nonempty.
Qed.

(** ** The invariant of the reachable stores *)

Lemma NoDup_snoc {A : Type} (l : list A) (x : A) :
  NoDup l -> ~ In x l -> NoDup (l ++ [x]).
Proof.
  intros Hnd Hx. induction Hnd as [|y l Hy Hnd IH]; simpl.
  - constructor; [tauto | constructor].
  - constructor.
    + rewrite in_app_iff. simpl. intros [H | [H | []]]; [tauto|].
      apply Hx. now left.
    + apply IH. intros H. apply Hx. now right.
Qed.

Lemma NoDup_map_eq {A B : Type} (f : A -> B) (l : list A) (a b : A) :
  NoDup (map f l) -> In a l -> In b l -> f a = f b -> a = b.
Proof.
  induction l as [|x l IH]; simpl; [tauto|].
  intros Hnd Ha Hb Hab. inversion Hnd as [|? ? Hx Hnd']; subst.
  destruct Ha as [-> | Ha], Hb as [-> | Hb]; auto.
  - exfalso. apply Hx. rewrite Hab. now apply in_map.
  - exfalso. apply Hx. rewrite <- Hab. now apply in_map.
Qed.

(** Deleting a registry entry keeps the ids of the remaining links distinct. *)
Lemma ids_delete_NoDup (k : string) (links : JsMap.t Link.t) :
  NoDup (map (fun e => Link.id (snd e)) links) ->
  NoDup (map (fun e => Link.id (snd e)) (JsMap.delete k links)).
Proof.
  unfold JsMap.delete. induction links as [|[k0 l0] links IH]; simpl; [trivial|].
  intros Hnd. apply NoDup_cons_iff in Hnd. destruct Hnd as [Hfresh Hnd].
  destruct (String.eqb k0 k); simpl; [auto|].
  apply NoDup_cons; [|auto].
  rewrite in_map_iff. intros (e & He & Hin). apply Hfresh.
  apply filter_In in Hin. rewrite <- He.
  apply (in_map (fun e => Link.id (snd e))). tauto.
Qed.

Lemma length_update_first {A : Type} (p : A -> bool) (f : A -> A) (l : list A) :
  List.length (update_first p f l) = List.length l.
Proof.
  induction l as [|x l IH]; simpl; [reflexivity|].
  destruct (p x); simpl; congruence.
Qed.

Lemma length_getClicksForLink_enrichClick linkId clickId locationResult st other :
  List.length (ClickStorage.getClicksForLink other
                 (enrichClick linkId clickId locationResult st)) =
  List.length (ClickStorage.getClicksForLink other st).
Proof.
  unfold enrichClick.
  destruct (LocationResult.success locationResult); [|reflexivity].
  destruct (LocationResult.location locationResult) as [loc|]; [|reflexivity].
  destruct (find _ _); [|reflexivity].
  unfold ClickStorage.getClicksForLink at 1. simpl.
  destruct (String.eqb linkId other) eqn:E.
  - apply String.eqb_eq in E. subst other.
    rewrite JsMapFacts.get_set_eq. simpl. apply length_update_first.
  - apply String.eqb_neq in E. now rewrite JsMapFacts.get_set_ne.
Qed.

Lemma linksStore_enrichClick linkId clickId locationResult st :
  linksStore (enrichClick linkId clickId locationResult st) = linksStore st.
Proof.
  unfold enrichClick.
  destruct (LocationResult.success locationResult); [|reflexivity].
  destruct (LocationResult.location locationResult) as [loc|]; [|reflexivity].
  now destruct (find _ _).
Qed.

Lemma count_ok_same_history st st' e :
  List.length (ClickStorage.getClicksForLink (Link.id (snd e)) st') =
  List.length (ClickStorage.getClicksForLink (Link.id (snd e)) st) ->
  count_ok st e -> count_ok st' e.
Proof.
  unfold count_ok. now intros ->.
Qed.

(** *** Short codes *)

Lemma codes_ok_createLink fuel newId now rnd originalUrl title description customCode
    st link st' :
  (forall k, rnd k < String.length chars) ->
  LinkStorage.createLink fuel newId now rnd originalUrl title description customCode st
    = Some (Returned link, st') ->
  codes_ok st -> codes_ok st'.
Proof.
  intros Hrnd Hcreate (Hok & Hall).
  destruct (createLink_Returned _ _ _ _ _ _ _ _ _ _ _ Hrnd Hcreate)
    as (code & Hfree & Hne & _ & Hlink & ->).
  unfold codes_ok. simpl. split; [now apply JsMapFacts.ok_set|].
  rewrite (JsMapFacts.set_fresh _ _ _ Hfree). apply Forall_app. split; [assumption|].
  constructor; [|constructor]. subst link. now split.
Qed.

Lemma codes_ok_overwrite id k l l' clicks' st :
  codes_ok st ->
  findEntryById id (linksStore st) = Some (k, l) ->
  Link.shortCode l' = Link.shortCode l ->
  codes_ok (mkStores (JsMap.set k l' (linksStore st)) clicks').
Proof.
  intros (Hok & Hall) Hfind Hcode.
  destruct (findEntryById_split _ _ _ _ Hok Hfind) as (pre & post & Hm & _ & Hset).
  unfold codes_ok. simpl. split; [now apply JsMapFacts.ok_set|].
  rewrite Hset. rewrite Hm in Hall. apply Forall_app in Hall.
  destruct Hall as [Hpre Hrest]. inversion Hrest as [|? ? Hl Hpost]; subst.
  apply Forall_app. split; [assumption|]. constructor; [|assumption].
  unfold code_ok in *. simpl in *. now rewrite Hcode.
Qed.

Lemma codes_ok_step guarded st st' : step guarded st st' -> codes_ok st -> codes_ok st'.
Proof.
  intros Hstep Hst. destruct Hstep as
    [fuel newId now rnd url title description custom st link st' Hrnd _ Hcreate
    | click st _ | id st | linkId clickId locationResult st | id st].
  - eapply codes_ok_createLink; eauto.
  - unfold ClickStorage.addClick, LinkStorage.updateLinkClickCount. simpl.
    destruct (findEntryById (Click.linkId click) (linksStore st)) as [[k l]|] eqn:Hfind;
      [|exact Hst].
    now apply (codes_ok_overwrite (Click.linkId click) k l).
  - unfold LinkStorage.toggleLinkStatus.
    destruct (findEntryById id (linksStore st)) as [[k l]|] eqn:Hfind; [|exact Hst].
    now apply (codes_ok_overwrite id k l).
  - unfold codes_ok. now rewrite linksStore_enrichClick.
  - unfold LinkStorage.deleteLink.
    destruct (findEntryById id (linksStore st)) as [[k l]|] eqn:Hfind; [|exact Hst].
    destruct Hst as (Hok & Hall). split; simpl; [now apply JsMapFacts.ok_delete|].
    rewrite Forall_forall in Hall |- *. intros [k' l'] He.
    apply JsMapFacts.In_delete in He. now apply Hall.
Qed.

Lemma codes_ok_reachable guarded st : reachable guarded st -> codes_ok st.
Proof.
  induction 1 as [|st st' _ IH Hstep].
  - split; constructor.
  - now apply (codes_ok_step guarded st st').
Qed.

(** *** Click counts *)

Lemma counts_ok_createLink fuel newId now rnd originalUrl title description customCode
    st link st' :
  (forall k, rnd k < String.length chars) ->
  (forall k l, In (k, l) (linksStore st) -> Link.id l <> newId) ->
  LinkStorage.createLink fuel newId now rnd originalUrl title description customCode st
    = Some (Returned link, st') ->
  counts_ok st -> counts_ok st'.
Proof.
  intros Hrnd Hfresh Hcreate (Hids & Hall).
  destruct (createLink_Returned _ _ _ _ _ _ _ _ _ _ _ Hrnd Hcreate)
    as (code & Hfree & _ & _ & Hlink & ->).
  unfold counts_ok. simpl.
  rewrite (JsMapFacts.set_fresh _ _ _ Hfree). split.
  - rewrite map_app. simpl. apply NoDup_snoc; [assumption|].
    rewrite in_map_iff. intros ([k l] & Hid & Hin). simpl in Hid.
    apply Hfresh in Hin. subst link. simpl in Hid. congruence.
  - apply Forall_app. split.
    + rewrite Forall_forall in Hall |- *. intros [k l] Hin.
      apply count_ok_same_history with (st := st); [|auto].
      unfold ClickStorage.getClicksForLink. simpl.
      rewrite JsMapFacts.get_set_ne; [reflexivity|].
      intros Heq. now apply (Hfresh k l Hin).
    + constructor; [|constructor]. unfold count_ok. simpl.
      subst link. simpl.
      unfold ClickStorage.getClicksForLink. simpl.
      now rewrite JsMapFacts.get_set_eq.
Qed.

(** Overwriting the entry found by id with a link of the same id keeps the
    counts right, given what the clicks of each id now are. *)
Lemma counts_ok_overwrite id k l l' clicks' st :
  JsMap.ok (linksStore st) ->
  counts_ok st ->
  findEntryById id (linksStore st) = Some (k, l) ->
  Link.id l' = Link.id l ->
  Link.clickCount l' =
    Z.of_nat (List.length (arr_or (JsMap.get id clicks') [])) ->
  (forall other, other <> id ->
     List.length (arr_or (JsMap.get other clicks') []) =
     List.length (ClickStorage.getClicksForLink other st)) ->
  counts_ok (mkStores (JsMap.set k l' (linksStore st)) clicks').
Proof.
  intros Hok (Hids & Hall) Hfind Hid Hcount Hothers.
  destruct (findEntryById_split _ _ _ _ Hok Hfind) as (pre & post & Hm & Hpre & Hset).
  destruct (findEntryById_Some _ _ _ _ Hfind) as [_ Hidl].
  unfold counts_ok. simpl.
  rewrite Hset. rewrite Hm in Hids, Hall.
  rewrite map_app in Hids |- *. simpl in Hids |- *. rewrite Hid. split; [assumption|].
  apply Forall_app in Hall. destruct Hall as [Hall1 Hall2].
  inversion Hall2 as [|? ? Hl Hall3]; subst.
  assert (Hother : forall e, In e pre \/ In e post -> count_ok st e ->
            count_ok (mkStores (pre ++ (k, l') :: post) clicks') e).
  { intros e He. apply count_ok_same_history.
    unfold ClickStorage.getClicksForLink at 1. simpl. apply Hothers.
    intros Heq. apply NoDup_remove_2 in Hids. apply Hids.
    rewrite in_app_iff, <- Heq.
    destruct He as [He | He]; [left | right];
      now apply (in_map (fun e => Link.id (snd e))) in He. }
  apply Forall_app. split; [|constructor].
  - rewrite Forall_forall in Hall1 |- *. intros e He. apply Hother; auto.
  - unfold count_ok, ClickStorage.getClicksForLink. simpl. now rewrite Hid.
  - rewrite Forall_forall in Hall3 |- *. intros e He. apply Hother; auto.
Qed.

Lemma counts_ok_addClick click st :
  (exists k l, In (k, l) (linksStore st) /\ Link.id l = Click.linkId click) ->
  JsMap.ok (linksStore st) ->
  counts_ok st -> counts_ok (ClickStorage.addClick click st).
Proof.
  intros Hlive Hok Hst. apply findEntryById_live in Hlive.
  destruct Hlive as (k & l & Hfind).
  unfold ClickStorage.addClick, LinkStorage.updateLinkClickCount. simpl.
  rewrite Hfind.
  apply (counts_ok_overwrite (Click.linkId click) k l); auto.
  - rewrite JsMapFacts.get_set_eq. simpl. rewrite length_app. simpl.
    destruct Hst as (_ & Hall). rewrite Forall_forall in Hall.
    destruct (findEntryById_Some _ _ _ _ Hfind) as [Hin Hid].
    pose proof (Hall _ Hin) as Hc. unfold count_ok in Hc. simpl in Hc.
    rewrite Hc, Hid. unfold ClickStorage.getClicksForLink. lia.
  - intros other Hne. now rewrite JsMapFacts.get_set_ne by congruence.
Qed.

Lemma counts_ok_toggleLinkStatus id st :
  JsMap.ok (linksStore st) ->
  counts_ok st -> counts_ok (snd (LinkStorage.toggleLinkStatus id st)).
Proof.
  intros Hok Hst. unfold LinkStorage.toggleLinkStatus.
  destruct (findEntryById id (linksStore st)) as [[k l]|] eqn:Hfind; [|assumption].
  simpl. apply (counts_ok_overwrite id k l); auto.
  destruct Hst as (_ & Hall). rewrite Forall_forall in Hall.
  destruct (findEntryById_Some _ _ _ _ Hfind) as [Hin Hid].
  pose proof (Hall _ Hin) as Hc. unfold count_ok in Hc. simpl in *.
  now rewrite Hc, Hid.
Qed.

Lemma counts_ok_enrichClick linkId clickId locationResult st :
  counts_ok st -> counts_ok (enrichClick linkId clickId locationResult st).
Proof.
  intros (Hids & Hall). unfold counts_ok.
  rewrite linksStore_enrichClick. split; [assumption|].
  rewrite Forall_forall in Hall |- *. intros e He.
  apply count_ok_same_history with (st := st); auto.
  apply length_getClicksForLink_enrichClick.
Qed.

Lemma counts_ok_deleteLink id st :
  counts_ok st -> counts_ok (snd (LinkStorage.deleteLink id st)).
Proof.
  intros Hst. unfold LinkStorage.deleteLink.
  destruct (findEntryById id (linksStore st)) as [[k l]|] eqn:Hfind; [|assumption].
  destruct Hst as (Hids & Hall).
  destruct (findEntryById_Some _ _ _ _ Hfind) as [Hin Hid].
  unfold counts_ok. simpl. split; [now apply ids_delete_NoDup|].
  rewrite Forall_forall in Hall |- *. intros [k' l'] He.
  apply JsMapFacts.In_delete in He. destruct He as [Hne He].
  apply count_ok_same_history with (st := st); auto.
  unfold ClickStorage.getClicksForLink. simpl.
  rewrite JsMapFacts.get_delete_ne; [reflexivity|].
  intros Heq. apply Hne.
  assert (Hsame : (k', l') = (k, l)).
  { apply (NoDup_map_eq (fun e => Link.id (snd e)) _ _ _ Hids He Hin).
    simpl. congruence. }
  congruence.
Qed.

Lemma counts_ok_step st st' :
  step true st st' -> JsMap.ok (linksStore st) -> counts_ok st -> counts_ok st'.
Proof.
  intros Hstep Hok Hst. destruct Hstep as
    [fuel newId now rnd url title description custom st link st' Hrnd Hfresh Hcreate
    | click st Hlive | id st | linkId clickId locationResult st | id st].
  - eapply counts_ok_createLink; eauto.
  - apply counts_ok_addClick; auto.
  - now apply counts_ok_toggleLinkStatus.
  - now apply counts_ok_enrichClick.
  - now apply counts_ok_deleteLink.
Qed.

Lemma counts_ok_reachable st : reachable true st -> counts_ok st.
Proof.
  induction 1 as [|st st' Hreach IH Hstep].
  - split; constructor.
  - apply (counts_ok_step st st' Hstep); [|assumption].
    now destruct (codes_ok_reachable true st Hreach).
Qed.

(** A state reached by guarded calls is reached by calls. *)
Lemma reachable_unguarded st : reachable true st -> reachable false st.
Proof.
  induction 1 as [|st st' _ IH Hstep]; [constructor|].
  apply (reachable_step false st); [assumption|].
  destruct Hstep as
    [fuel newId now rnd url title description custom st link st' Hrnd _ Hcreate
    | click st _ | id st | linkId clickId locationResult st | id st].
  - eapply step_createLink; eauto. discriminate.
  - apply step_addClick. discriminate.
  - apply step_toggleLinkStatus.
  - apply step_enrichClick.
  - apply step_deleteLink.
Qed.

Lemma reachable_sampleStores : reachable true sampleStores.
Proof.
  pose (link := Link.mk "link_1" "https://example.com" "aaaaaa" (Some "Sample Link")
                  (Some "This is a sample tracking link for demo purposes")
                  7200000%Z 0%Z true).
  pose (st1 := mkStores [("aaaaaa", link)] [("link_1", [])]).
  assert (H1 : reachable true st1).
  { apply (reachable_step true emptyStores); [constructor|].
    apply (step_createLink true 0 "link_1" 7200000%Z (fun _ => 0) "https://example.com"
             (Some "Sample Link")
             (Some "This is a sample tracking link for demo purposes") None
             emptyStores link).
    - intros _. vm_compute. lia.
    - intros _ k l [].
    - reflexivity. }
  eapply reachable_step.
  - eapply reachable_step; [exact H1|].
    apply (step_addClick true
             (Click.mk "click_1" "link_1" 3600000%Z "192.168.1.1"
                "Mozilla/5.0 (Windows NT 10.0; Win64; x64) AppleWebKit/537.36"
                (Some "United States") (Some "US") (Some "California")
                (Some "San Francisco") (Some (377749 # 10000)%Q)
                (Some (-1224194 # 10000)%Q) (Some "https://google.com") None None)).
    intros _. exists "aaaaaa", link. split; [now left | reflexivity].
  - match goal with
    | |- step _ ?st _ =>
        change sampleStores with
          (ClickStorage.addClick
             (Click.mk "click_2" "link_1" 5400000%Z "203.0.113.1"
                "Mozilla/5.0 (Macintosh; Intel Mac OS X 10_15_7) AppleWebKit/537.36"
                (Some "Canada") (Some "CA") (Some "Ontario") (Some "Toronto")
                (Some (436532 # 10000)%Q) (Some (-793832 # 10000)%Q) None None None)
             st)
    end.
    apply step_addClick. intros _.
    eexists _, _. split; [left; reflexivity | reflexivity].
Qed.

(** ** C2: the click counter and the length of the history *)

(** C2.  In every state reachable from the empty stores by [createLink] (with
    an id no live link has), [addClick] for a live link, [toggleLinkStatus],
    enrichment callbacks and [deleteLink], every link of the registry has a
    [clickCount] equal to the number of clicks in the history kept under its
    id.  There, an [addClick] for a live link adds 1 to that link's count and
    one click to its history; [toggleLinkStatus] and the enrichment callback
    change no count and no history length. *)
Theorem clickCount_matches_history (st : Stores) :
  reachable true st ->
  (forall k l, In (k, l) (linksStore st) ->
     Link.clickCount l =
       Z.of_nat (List.length (ClickStorage.getClicksForLink (Link.id l) st))) /\
  (forall click k l,
     findEntryById (Click.linkId click) (linksStore st) = Some (k, l) ->
     exists l',
       findEntryById (Click.linkId click)
         (linksStore (ClickStorage.addClick click st)) = Some (k, l') /\
       Link.clickCount l' = (Link.clickCount l + 1)%Z /\
       ClickStorage.getClicksForLink (Click.linkId click)
         (ClickStorage.addClick click st) =
         ClickStorage.getClicksForLink (Click.linkId click) st ++ [click]) /\
  (forall id,
     map (fun e => Link.clickCount (snd e))
       (linksStore (snd (LinkStorage.toggleLinkStatus id st))) =
     map (fun e => Link.clickCount (snd e)) (linksStore st) /\
     clicksStore (snd (LinkStorage.toggleLinkStatus id st)) = clicksStore st) /\
  (forall linkId clickId locationResult other,
     linksStore (enrichClick linkId clickId locationResult st) = linksStore st /\
     List.length (ClickStorage.getClicksForLink other
                    (enrichClick linkId clickId locationResult st)) =
     List.length (ClickStorage.getClicksForLink other st)).
Proof.
  intros Hreach. pose proof (counts_ok_reachable st Hreach) as (Hids & Hall).
  pose proof (codes_ok_reachable true st Hreach) as (Hok & _).
  split; [|split; [|split]].
  - intros k l Hin. rewrite Forall_forall in Hall. exact (Hall _ Hin).
  - intros click k l Hfind.
    destruct (findEntryById_split _ _ _ _ Hok Hfind) as (pre & post & Hm & Hpre & Hset).
    destruct (findEntryById_Some _ _ _ _ Hfind) as [_ Hid].
    exists (Link.with_clickCount (Link.clickCount l + 1)%Z l).
    unfold ClickStorage.addClick, LinkStorage.updateLinkClickCount. simpl.
    rewrite Hfind. simpl. rewrite Hset. repeat split.
    + now apply findEntryById_app_skip.
    + unfold ClickStorage.getClicksForLink at 1. simpl.
      now rewrite JsMapFacts.get_set_eq.
  - intros id. unfold LinkStorage.toggleLinkStatus.
    destruct (findEntryById id (linksStore st)) as [[k l]|] eqn:Hfind; [|auto].
    destruct (findEntryById_split _ _ _ _ Hok Hfind) as (pre & post & Hm & Hpre & Hset).
    simpl. rewrite Hset. rewrite Hm. rewrite !map_app. auto.
  - intros linkId clickId locationResult other. split.
    + apply linksStore_enrichClick.
    + apply length_getClicksForLink_enrichClick.
Qed.

Lemma clickCount_matches_history_witness :
  reachable true sampleStores /\
  In ("aaaaaa",
      Link.mk "link_1" "https://example.com" "aaaaaa" (Some "Sample Link")
        (Some "This is a sample tracking link for demo purposes")
        7200000%Z 2%Z true) (linksStore sampleStores) /\
  2%Z = Z.of_nat (List.length (ClickStorage.getClicksForLink "link_1" sampleStores)).
Proof.
  split; [exact reachable_sampleStores|].
  split; [left; reflexivity|].
  exact (proj1 (clickCount_matches_history sampleStores reachable_sampleStores)
           "aaaaaa" _ (or_introl eq_refl)).
Defined.

(** C2 does not hold of every [createLink]: one that computes the id of a
    live link empties that link's history and leaves its [clickCount].  From
    the sample stores, whose one link has two clicks, the link registered
    under [aaaaaa] then counts 2 clicks over a history of none. *)
Lemma clickCount_not_every_createLink :
  reachable true sampleStores /\
  exists link st',
    LinkStorage.createLink 0 "link_1" 7300000%Z (fun _ => 0) "https://example.org"
      None None (Some "promo") sampleStores = Some (Returned link, st') /\
    reachable false st' /\
    option_map Link.id (LinkStorage.getLinkByShortCode "aaaaaa" st') = Some "link_1" /\
    option_map Link.clickCount (LinkStorage.getLinkByShortCode "aaaaaa" st') = Some 2%Z /\
    ClickStorage.getClicksForLink "link_1" st' = [].
Proof.
  split; [exact reachable_sampleStores|].
  eexists _, _. split; [reflexivity|]. split; [|repeat split].
  apply (reachable_step false sampleStores);
    [exact (reachable_unguarded _ reachable_sampleStores)|].
  eapply (step_createLink false 0 "link_1" 7300000%Z (fun _ => 0) "https://example.org"
            None None (Some "promo") sampleStores).
  - intros k. vm_compute. lia.
  - discriminate.
  - reflexivity.
Qed.

(** ** C6: a custom code that is already registered *)

(** C6.  In every reachable state, when some link of the registry has a
    [shortCode] equal to the custom code passed, [createLink] throws the
    duplicate-code error and the stores (registry and click histories) are
    exactly what they were. *)
Theorem createLink_duplicate_customCode (st : Stores) (customCode : string)
    (k : string) (l : Link.t)
    (fuel : nat) (newId : string) (now : Z) (rnd : nat -> nat)
    (originalUrl : string) (title description : option string) :
  reachable false st ->
  In (k, l) (linksStore st) ->
  Link.shortCode l = customCode ->
  LinkStorage.createLink fuel newId now rnd originalUrl title description
    (Some customCode) st
  = Some (Thrown "Custom short code already exists", st).
Proof.
  intros Hreach Hin Hcode.
  pose proof (codes_ok_reachable false st Hreach) as (Hok & Hall).
  rewrite Forall_forall in Hall. destruct (Hall _ Hin) as (Hk & Hne).
  simpl in Hk, Hne. rewrite <- Hcode, Hk. clear Hcode.
  assert (Htruthy : truthy (Some k) = Some k).
  { unfold truthy. apply String.eqb_neq in Hne. now rewrite Hne. }
  unfold LinkStorage.createLink. rewrite Htruthy.
  unfold JsMap.has. now rewrite (JsMapFacts.In_get _ _ _ Hok Hin).
Qed.

Lemma createLink_duplicate_customCode_witness :
  reachable false sampleStores /\
  LinkStorage.createLink 0 "link_2" 7200001%Z (fun _ => 0) "https://example.org"
    None None (Some "aaaaaa") sampleStores
  = Some (Thrown "Custom short code already exists", sampleStores).
Proof.
  split; [exact (reachable_unguarded _ reachable_sampleStores)|].
  apply (createLink_duplicate_customCode sampleStores "aaaaaa" "aaaaaa"
           (Link.mk "link_1" "https://example.com" "aaaaaa" (Some "Sample Link")
              (Some "This is a sample tracking link for demo purposes")
              7200000%Z 2%Z true)).
  - exact (reachable_unguarded _ reachable_sampleStores).
  - left. reflexivity.
  - reflexivity.
Defined.

(** ** C7: a generated short code *)

Lemma generateUniqueShortCode_starved links rnd :
  (forall n, JsMap.has (attempt rnd n) links = true) ->
  forall fuel, generateUniqueShortCode fuel rnd links = None.
Proof.
  intros Hbusy fuel.
  assert (Hloop : forall fuel j,
            generateUniqueShortCode_loop fuel rnd (6 * (j + 1)) links (attempt rnd j)
            = None).
  { clear fuel. induction fuel as [|fuel IH]; intros j.
    - cbn [generateUniqueShortCode_loop]. now rewrite Hbusy.
    - rewrite generateUniqueShortCode_loop_S, Hbusy.
      replace (fst (generateShortCode 6 rnd (6 * (j + 1)))) with (attempt rnd (S j))
        by (unfold attempt; do 2 f_equal; lia).
      replace (6 * (j + 1) + 6) with (6 * (S j + 1)) by lia.
      apply IH. }
  unfold generateUniqueShortCode.
  pose proof (generateShortCode_pos 6 rnd 0) as Hpos.
  assert (Hcode : fst (generateShortCode 6 rnd 0) = attempt rnd 0) by reflexivity.
  destruct (generateShortCode 6 rnd 0) as [code pos].
  cbn [fst snd] in Hpos, Hcode. subst code pos. apply (Hloop fuel 0).
Qed.

Lemma generateShortCode_constant n c :
  forall pos, fst (generateShortCode n (fun _ => c) pos)
              = fst (generateShortCode n (fun _ => c) 0).
Proof.
  induction n as [|n IH]; intros pos; simpl; [reflexivity|].
  pose proof (IH (S pos)) as H1. pose proof (IH 1) as H2.
  destruct (generateShortCode n (fun _ => c) (S pos)).
  destruct (generateShortCode n (fun _ => c) 1).
  simpl in *. congruence.
Qed.

(** C7, as the code has it.  In a reachable state, with draws that index
    into the alphabet and no (truthy) custom code: if some attempt [n] of the
    generator draws a code that is not registered, then [createLink], given
    at least [n] turns of its retry loop, returns a link; its [shortCode] is
    the code of the first such attempt, is six characters of [[A-Za-z0-9]],
    is the [shortCode] of no link registered before, and the link is
    registered under it.  If every attempt draws a registered code, the call
    returns nothing, whatever number of turns it is given. *)
Theorem createLink_generated_code (st : Stores) (fuel : nat) (newId : string)
    (now : Z) (rnd : nat -> nat) (originalUrl : string)
    (title description customCode : option string) :
  reachable false st ->
  (forall k, rnd k < String.length chars) ->
  truthy customCode = None ->
  (forall n,
     JsMap.has (attempt rnd n) (linksStore st) = false ->
     n <= fuel ->
     exists link st',
       LinkStorage.createLink fuel newId now rnd originalUrl title description
         customCode st = Some (Returned link, st') /\
       isShortCode (Link.shortCode link) = true /\
       (forall k l, In (k, l) (linksStore st) ->
                    Link.shortCode l <> Link.shortCode link) /\
       (exists m, m <= n /\ Link.shortCode link = attempt rnd m /\
                  forall i, i < m ->
                    JsMap.has (attempt rnd i) (linksStore st) = true) /\
       LinkStorage.getLinkByShortCode (Link.shortCode link) st' = Some link) /\
  ((forall n, JsMap.has (attempt rnd n) (linksStore st) = true) ->
   LinkStorage.createLink fuel newId now rnd originalUrl title description
     customCode st = None).
Proof.
  intros Hreach Hrnd Hcustom. split.
  - intros n Hfree Hfuel.
    destruct (generateUniqueShortCode_finds _ _ _ _ Hfree Hfuel)
      as (m & Hm & Hfm & Hbusy & Hgen).
    unfold LinkStorage.createLink. rewrite Hcustom, Hgen.
    eexists _, _. split; [reflexivity|]. simpl. repeat split.
    + now apply attempt_isShortCode.
    + intros k l Hin Heq.
      pose proof (codes_ok_reachable false st Hreach) as (_ & Hall).
      rewrite Forall_forall in Hall. destruct (Hall _ Hin) as (Hk & _).
      simpl in Hk. apply JsMapFacts.has_false_keys in Hfm. apply Hfm.
      rewrite <- Heq, Hk. now apply (in_map fst) in Hin.
    + exists m. auto.
    + unfold LinkStorage.getLinkByShortCode. simpl. apply JsMapFacts.get_set_eq.
  - intros Hbusy. unfold LinkStorage.createLink.
    now rewrite Hcustom, generateUniqueShortCode_starved.
Qed.

Lemma createLink_generated_code_witness :
  exists link st',
    LinkStorage.createLink 1 "link_2" 7200001%Z
      (fun k => if (k <? 6)%nat then 0 else 1) "https://example.org" None None None
      sampleStores = Some (Returned link, st') /\
    Link.shortCode link = "bbbbbb".
Proof.
  destruct (createLink_generated_code sampleStores 1 "link_2" 7200001%Z
              (fun k => if (k <? 6)%nat then 0 else 1) "https://example.org"
              None None None (reachable_unguarded _ reachable_sampleStores))
    as [Hreturns _].
  - intros k. destruct (k <? 6)%nat; vm_compute; lia.
  - reflexivity.
  - destruct (Hreturns 1 eq_refl (le_n 1)) as (link & st' & Hcreate & _).
    exists link, st'. split; [exact Hcreate|].
    vm_compute in Hcreate. injection Hcreate as <- _. reflexivity.
Defined.

(** C7 does not hold for every sequence of draws: with the code [aaaaaa]
    registered and every draw equal to zero, [createLink] without a custom
    code returns nothing, whatever number of turns the retry loop is given. *)
Lemma createLink_generated_code_may_not_return :
  reachable false sampleStores /\
  (forall k, (fun _ : nat => 0) k < String.length chars) /\
  ~ (exists fuel result,
       LinkStorage.createLink fuel "link_2" 7200001%Z (fun _ => 0)
         "https://example.org" None None None sampleStores = Some result).
Proof.
  split; [exact (reachable_unguarded _ reachable_sampleStores)|]. split.
  - intros _. vm_compute. lia.
  - intros (fuel & result & H). unfold LinkStorage.createLink in H.
    cbn [truthy] in H.
    rewrite generateUniqueShortCode_starved in H; [discriminate|].
    intros n. unfold attempt. rewrite generateShortCode_constant. reflexivity.
Qed.

(** C1 does not hold as the specification words it: on the empty stores,
    where no link is live, [addClick] stores the click. *)
Lemma addClick_unknown_link_keeps_click :
  findEntryById "link_9" (linksStore emptyStores) = None /\
  ClickStorage.getClicksForLink "link_9"
    (ClickStorage.addClick (bareClick "click_9" "link_9" 0%Z) emptyStores)
  = [bareClick "click_9" "link_9" 0%Z].
Proof. split; reflexivity. Qed.

Lemma addClick_unknown_link_witness :
  (forall k l, In (k, l) (linksStore sampleStores) -> Link.id l <> "link_9") /\
  linksStore (ClickStorage.addClick (bareClick "click_9" "link_9" 0%Z) sampleStores)
    = linksStore sampleStores /\
  ClickStorage.getClicksForLink "link_9"
    (ClickStorage.addClick (bareClick "click_9" "link_9" 0%Z) sampleStores)
  = [bareClick "click_9" "link_9" 0%Z].
Proof.
  assert (Hdead : forall k l, In (k, l) (linksStore sampleStores) ->
                              Link.id l <> "link_9").
  { intros k l [H | []]. injection H as _ <-. discriminate. }
  split; [exact Hdead|].
  destruct (addClick_unknown_link (bareClick "click_9" "link_9" 0%Z) sampleStores Hdead)
    as (Hlinks & _ & Hclicks).
  split; [exact Hlinks | exact Hclicks].
Defined.

Lemma enrichClick_after_deleteLink_witness :
  LinkStorage.deleteLink "link_1" sampleStores = (true, emptyStores) /\
  enrichClick "link_1" "click_1"
    (LocationResult.mk true
       (Some (LocationData.mk (Some "France") (Some "FR") (Some "Occitanie")
                (Some "Toulouse") None None None None (Some "8.8.8.8")))
       None)
    emptyStores = emptyStores.
Proof.
  split; [reflexivity|].
  exact (proj1 (enrichClick_after_deleteLink "link_1" "click_1" _
                  sampleStores emptyStores eq_refl)).
Defined.

Lemma enrichClick_after_addClick_witness :
  let loc := LocationData.mk (Some "France") (Some "FR") (Some "Occitanie")
               (Some "Toulouse") None None None None (Some "8.8.8.8") in
  let click := bareClick "click_3" "link_1" 6000000%Z in
  (forall c, In c (ClickStorage.getClicksForLink "link_1" sampleStores) ->
             Click.id c <> "click_3") /\
  exists patched,
    ClickStorage.getClicksForLink "link_1"
      (enrichClick "link_1" "click_3" (LocationResult.mk true (Some loc) None)
         (ClickStorage.addClick click sampleStores))
    = ClickStorage.getClicksForLink "link_1" sampleStores ++ [patched] /\
    Click.country patched = Some "France" /\
    Click.timestamp patched = 6000000%Z.
Proof.
  intros loc click.
  assert (Hfresh : forall c, In c (ClickStorage.getClicksForLink "link_1" sampleStores) ->
                             Click.id c <> "click_3").
  { intros c [<- | [<- | []]]; discriminate. }
  split; [exact Hfresh|].
  destruct (enrichClick_after_addClick click loc
              (LocationResult.mk true (Some loc) None) sampleStores
              eq_refl eq_refl Hfresh)
    as (patched & Hhist & Hloc & Himm & _).
  exists patched. split; [exact Hhist|]. split.
  - exact (proj1 Hloc).
  - exact (proj1 (proj2 (proj2 Himm))).
Defined.

Lemma toggleLinkStatus_involution_witness :
  JsMap.ok (linksStore sampleStores) /\
  LinkStorage.toggleLinkStatus "link_1"
    (snd (LinkStorage.toggleLinkStatus "link_1" sampleStores)) = (true, sampleStores) /\
  LinkStorage.toggleLinkStatus "link_0" sampleStores = (false, sampleStores).
Proof.
  assert (Hok : JsMap.ok (linksStore sampleStores)).
  { repeat constructor. intros []. }
  split; [exact Hok|].
  destruct (toggleLinkStatus_involution "link_1" sampleStores Hok) as [Hlive _].
  destruct (toggleLinkStatus_involution "link_0" sampleStores Hok) as [_ Habsent].
  split.
  - destruct Hlive as (pre & k & l & post & _ & _ & _ & _ & Htwice).
    + eexists _, _. split; [left; reflexivity | reflexivity].
    + exact Htwice.
  - apply Habsent. intros k l [H | []]. injection H as _ <-. discriminate.
Defined.

(** ** The stable sort *)

Section SortFacts.
Context {A : Type} (cmp : A -> A -> Z).

Lemma insert_sorted_perm (x : A) (l : list A) :
  Permutation (x :: l) (insert_sorted cmp x l).
Proof.
  induction l as [|y l IH]; simpl; [reflexivity|].
  destruct (0 <? cmp x y)%Z; [|reflexivity].
  rewrite perm_swap. now apply perm_skip.
Qed.

Lemma js_sort_perm (l : list A) : Permutation l (js_sort cmp l).
Proof.
  induction l as [|x l IH]; simpl; [reflexivity|].
  rewrite <- insert_sorted_perm. now apply perm_skip.
Qed.

End SortFacts.

Lemma insert_sorted_countDescThen R (x : NameCount) (l : list NameCount) :
  StronglySorted (countDescThen R) l ->
  Forall (R x) l ->
  StronglySorted (countDescThen R) (insert_sorted byCountDesc x l).
Proof.
  induction 1 as [|y l Hl IH Hy]; intros Hx; simpl.
  - repeat constructor.
  - inversion Hx as [|? ? Hxy Hxl]; subst.
    unfold byCountDesc at 1. destruct (0 <? count y - count x)%Z eqn:E.
    + apply Z.ltb_lt in E. constructor; [now apply IH|].
      rewrite <- (insert_sorted_perm byCountDesc x l).
      constructor; [|assumption]. left. lia.
    + apply Z.ltb_ge in E. constructor; [now constructor|].
      constructor.
      * unfold countDescThen. destruct (Z.eq_dec (count x) (count y)); [right | left];
          auto; lia.
      * rewrite Forall_forall in Hy, Hxl |- *. intros z Hz.
        specialize (Hy z Hz). specialize (Hxl z Hz).
        unfold countDescThen in *.
        destruct (Z.eq_dec (count x) (count z)); [right | left]; auto.
        destruct Hy as [Hy | [Hy _]]; lia.
Qed.

(** The sort is stable: entries in the order [R] come out ordered by count,
    largest first, and by [R] among equal counts. *)
Lemma js_sort_countDescThen R (l : list NameCount) :
  StronglySorted R l -> StronglySorted (countDescThen R) (js_sort byCountDesc l).
Proof.
  induction 1 as [|x l Hl IH Hx]; simpl; [constructor|].
  apply insert_sorted_countDescThen; [assumption|].
  now rewrite <- (js_sort_perm byCountDesc l).
Qed.

Lemma StronglySorted_nth_error {A : Type} (R : A -> A -> Prop) (l : list A) :
  StronglySorted R l ->
  forall i j a b, i < j -> nth_error l i = Some a -> nth_error l j = Some b -> R a b.
Proof.
  induction 1 as [|x l Hl IH Hx]; intros i j a b Hij Hi Hj.
  - now destruct i.
  - destruct j as [|j]; [lia|]. simpl in Hj. destruct i as [|i]; simpl in Hi.
    + injection Hi as <-. rewrite Forall_forall in Hx. apply Hx.
      now apply nth_error_In in Hj.
    + apply (IH i j); auto. lia.
Qed.

Lemma StronglySorted_snoc {A : Type} (R : A -> A -> Prop) (l : list A) (a : A) :
  StronglySorted R l -> Forall (fun y => R y a) l -> StronglySorted R (l ++ [a]).
Proof.
  induction 1 as [|x l Hl IH Hx]; intros Ha; simpl.
  - repeat constructor.
  - inversion Ha as [|? ? Hxa Hla]; subst. constructor; [auto|].
    apply Forall_app. split; [assumption|]. now constructor.
Qed.

Lemma StronglySorted_weaken {A : Type} (R R' : A -> A -> Prop) (l : list A) :
  (forall a b, In a l -> In b l -> R a b -> R' a b) ->
  StronglySorted R l -> StronglySorted R' l.
Proof.
  intros HR Hs. induction Hs as [|x l Hl IH Hx]; [constructor|].
  constructor.
  - apply IH. intros a b Ha Hb. apply HR; now right.
  - rewrite Forall_forall in Hx |- *. intros y Hy.
    apply HR; [now left | now right | auto].
Qed.

Lemma StronglySorted_map {A B : Type} (f : A -> B) (R : B -> B -> Prop) (l : list A) :
  StronglySorted (fun a b => R (f a) (f b)) l -> StronglySorted R (map f l).
Proof.
  induction 1 as [|x l Hl IH Hx]; simpl; constructor; [assumption|].
  rewrite Forall_forall in Hx |- *. intros y Hy.
  apply in_map_iff in Hy. destruct Hy as (z & <- & Hz). auto.
Qed.

(** ** The counting loop *)

Section TallyFacts.
Context {A : Type} (label : A -> string).

Lemma tally_snoc (xs : list A) (x : A) :
  tally label (xs ++ [x]) =
  JsMap.set (label x)
    (num_or (JsMap.get (label x) (tally label xs)) 0 + 1)%Z (tally label xs).
Proof.
  unfold tally, forEach. now rewrite fold_left_app.
Qed.

Lemma occurrences_snoc n (xs : list A) (x : A) :
  occurrences label n (xs ++ [x]) =
  occurrences label n xs + (if String.eqb (label x) n then 1 else 0).
Proof.
  unfold occurrences. rewrite filter_app, length_app. simpl.
  now destruct (String.eqb (label x) n).
Qed.

Lemma occurrences_pos n (xs : list A) :
  0 < occurrences label n xs <-> exists x, In x xs /\ label x = n.
Proof.
  unfold occurrences. split.
  - destruct (filter _ xs) as [|y l] eqn:E; simpl; [lia|]. intros _.
    assert (Hy : In y (filter (fun x => String.eqb (label x) n) xs))
      by (rewrite E; now left).
    apply filter_In in Hy. exists y. now rewrite <- String.eqb_eq.
  - intros (x & Hin & Hx).
    assert (Hy : In x (filter (fun x => String.eqb (label x) n) xs)).
    { apply filter_In. now rewrite String.eqb_eq. }
    destruct (filter _ xs); simpl; [contradiction | lia].
Qed.

(** The map holds, for each label met, the number of elements that carry it. *)
Lemma tally_get n (xs : list A) :
  JsMap.get n (tally label xs) =
  if Nat.eqb (occurrences label n xs) 0 then None
  else Some (Z.of_nat (occurrences label n xs)).
Proof.
  induction xs as [|x xs IH] using rev_ind; [reflexivity|].
  rewrite tally_snoc, occurrences_snoc.
  destruct (String.eqb (label x) n) eqn:E.
  - apply String.eqb_eq in E. subst n.
    rewrite JsMapFacts.get_set_eq, IH.
    replace (Nat.eqb (occurrences label (label x) xs + 1) 0) with false
      by (symmetry; apply Nat.eqb_neq; lia).
    destruct (Nat.eqb (occurrences label (label x) xs) 0) eqn:E0; simpl.
    + apply Nat.eqb_eq in E0. rewrite E0. reflexivity.
    + apply Nat.eqb_neq in E0.
      destruct (Z.eqb_spec (Z.of_nat (occurrences label (label x) xs)) 0); [lia|].
      f_equal. lia.
  - apply String.eqb_neq in E. rewrite JsMapFacts.get_set_ne by assumption.
    now rewrite IH, Nat.add_0_r.
Qed.

Lemma tally_ok (xs : list A) : JsMap.ok (tally label xs).
Proof.
  induction xs as [|x xs IH] using rev_ind; [constructor|].
  rewrite tally_snoc. now apply JsMapFacts.ok_set.
Qed.

Lemma tally_In n c (xs : list A) :
  In (n, c) (tally label xs) <->
  0 < occurrences label n xs /\ c = Z.of_nat (occurrences label n xs).
Proof.
  split.
  - intros H. apply (JsMapFacts.In_get _ _ _ (tally_ok xs)) in H.
    rewrite tally_get in H.
    destruct (Nat.eqb_spec (occurrences label n xs) 0); [discriminate|].
    injection H as <-. split; [lia | reflexivity].
  - intros [Hpos ->]. apply JsMapFacts.get_In. rewrite tally_get.
    destruct (Nat.eqb_spec (occurrences label n xs) 0); [lia | reflexivity].
Qed.

Lemma firstIndex_le n (xs : list A) : firstIndex label n xs <= List.length xs.
Proof.
  induction xs as [|x xs IH]; simpl; [lia|].
  destruct (String.eqb (label x) n); lia.
Qed.

Lemma firstIndex_lt n (xs : list A) :
  firstIndex label n xs < List.length xs <-> 0 < occurrences label n xs.
Proof.
  unfold occurrences. induction xs as [|x xs IH]; simpl; [lia|].
  destruct (String.eqb (label x) n); simpl; lia.
Qed.

Lemma firstIndex_snoc n (xs : list A) (x : A) :
  firstIndex label n (xs ++ [x]) =
  if (firstIndex label n xs <? List.length xs)%nat then firstIndex label n xs
  else if String.eqb (label x) n then List.length xs else S (List.length xs).
Proof.
  induction xs as [|y xs IH]; simpl.
  - now destruct (String.eqb (label x) n).
  - destruct (String.eqb (label y) n); [reflexivity|].
    rewrite IH. change (S (firstIndex label n xs) <? S (List.length xs))%nat
      with (firstIndex label n xs <? List.length xs)%nat.
    destruct (firstIndex label n xs <? List.length xs)%nat; [reflexivity|].
    now destruct (String.eqb (label x) n).
Qed.

(** The entries of the map stand in the order in which their labels were
    first met. *)
Lemma tally_order (xs : list A) :
  StronglySorted
    (fun e1 e2 => firstIndex label (fst e1) xs < firstIndex label (fst e2) xs)
    (tally label xs).
Proof.
  induction xs as [|x xs IH] using rev_ind; [constructor|].
  assert (Hmet : forall e, In e (tally label xs) ->
            firstIndex label (fst e) (xs ++ [x]) = firstIndex label (fst e) xs /\
            firstIndex label (fst e) xs < List.length xs).
  { intros [n c] Hin. apply tally_In in Hin. destruct Hin as [Hpos _].
    apply firstIndex_lt in Hpos. simpl. rewrite firstIndex_snoc.
    apply Nat.ltb_lt in Hpos as Hpos'. now rewrite Hpos'. }
  assert (Hold : StronglySorted
            (fun e1 e2 => firstIndex label (fst e1) (xs ++ [x]) <
                          firstIndex label (fst e2) (xs ++ [x]))
            (tally label xs)).
  { apply (StronglySorted_weaken _ _ _ ) with (2 := IH).
    intros a b Ha Hb Hab.
    destruct (Hmet a Ha) as [-> _]. destruct (Hmet b Hb) as [-> _]. exact Hab. }
  rewrite tally_snoc.
  destruct (JsMap.has (label x) (tally label xs)) eqn:Hhas.
  - destruct (JsMapFacts.set_present (label x)
                (num_or (JsMap.get (label x) (tally label xs)) 0 + 1)%Z
                _ Hhas) as (pre & v0 & post & Hm & _ & Hset).
    rewrite Hset. rewrite Hm in Hold.
    clear -Hold. induction pre as [|p pre IHp]; simpl in *.
    + inversion Hold; subst. now constructor.
    + inversion Hold as [|? ? Hs Hf]; subst. constructor; [auto|].
      rewrite Forall_forall in Hf |- *. intros e He. apply in_app_iff in He.
      destruct He as [He | [<- | He]].
      * apply Hf. apply in_app_iff. now left.
      * apply (Hf (label x, v0)). apply in_app_iff. right. now left.
      * apply Hf. apply in_app_iff. right. now right.
  - rewrite (JsMapFacts.set_fresh _ _ _ Hhas).
    apply StronglySorted_snoc; [assumption|].
    rewrite Forall_forall. intros e He. destruct (Hmet e He) as [-> Hlt].
    simpl. rewrite firstIndex_snoc.
    assert (Hnew : (firstIndex label (label x) xs <? List.length xs)%nat = false).
    { apply Nat.ltb_ge. pose proof (firstIndex_le (label x) xs) as Hle.
      destruct (Nat.eq_dec (firstIndex label (label x) xs) (List.length xs)); [lia|].
      exfalso. assert (Hlt' : firstIndex label (label x) xs < List.length xs) by lia.
      apply firstIndex_lt in Hlt'.
      apply JsMapFacts.has_false_keys in Hhas. apply Hhas.
      apply (in_map fst _
               (label x, Z.of_nat (occurrences label (label x) xs))).
      now apply tally_In. }
    now rewrite Hnew, String.eqb_refl.
Qed.

End TallyFacts.

(** ** Grouping: the counting loop followed by the sort *)

Lemma names_toNameCounts (m : JsMap.t Z) : map name (toNameCounts m) = JsMap.keys m.
Proof.
  unfold toNameCounts, JsMap.entries, JsMap.keys. rewrite map_map. reflexivity.
Qed.

Lemma In_toNameCounts (m : JsMap.t Z) (e : NameCount) :
  In e (toNameCounts m) <-> In (name e, count e) m.
Proof.
  unfold toNameCounts, JsMap.entries. rewrite in_map_iff. split.
  - intros ([n c] & <- & Hin). exact Hin.
  - intros Hin. exists (name e, count e). split; [now destruct e | exact Hin].
Qed.

Lemma grouped_spec {A : Type} (label : A -> string) (xs : list A) :
  let r := js_sort byCountDesc (toNameCounts (tally label xs)) in
  NoDup (map name r) /\
  (forall n, In n (map name r) <-> exists x, In x xs /\ label x = n) /\
  (forall e, In e r -> count e = Z.of_nat (occurrences label (name e) xs)) /\
  StronglySorted
    (countDescThen (fun a b => firstIndex label (name a) xs <
                               firstIndex label (name b) xs)) r.
Proof.
  intros r.
  assert (Hperm : Permutation (toNameCounts (tally label xs)) r)
    by apply js_sort_perm.
  split; [|split; [|split]].
  - apply (Permutation_NoDup (Permutation_map name Hperm)).
    rewrite names_toNameCounts. apply tally_ok.
  - intros n. rewrite <- occurrences_pos. split.
    + intros Hin. apply (Permutation_in _ (Permutation_sym (Permutation_map name Hperm))) in Hin.
      apply in_map_iff in Hin. destruct Hin as (e & <- & Hin).
      apply In_toNameCounts, tally_In in Hin. tauto.
    + intros Hpos. apply (Permutation_in _ (Permutation_map name Hperm)).
      apply in_map_iff.
      exists (mkNameCount n (Z.of_nat (occurrences label n xs))). split; [reflexivity|].
      apply In_toNameCounts, tally_In. simpl. auto.
  - intros e Hin. apply (Permutation_in _ (Permutation_sym Hperm)) in Hin.
    apply In_toNameCounts, tally_In in Hin. tauto.
  - apply js_sort_countDescThen. unfold toNameCounts, JsMap.entries.
    apply StronglySorted_map. simpl. apply tally_order.
Qed.

(** ** C8: clicks by country *)

(** C8.  [groupClicksByCountry] labels a click with its country, and with
    the literal [Unknown] when the country is absent (or the empty string,
    which [||] treats alike).  The result has one entry per label met, each
    with the number of clicks that carry the label; an entry with a larger
    count comes first, and among entries of equal count the one whose label
    was met first in the input comes first.  On no clicks the result is
    empty. *)
Theorem groupClicksByCountry_spec (clicks : list Click.t) :
  (forall click,
     (Click.country click = None \/ Click.country click = Some EmptyString ->
      countryLabel click = "Unknown") /\
     (forall s, Click.country click = Some s -> s <> EmptyString ->
      countryLabel click = s)) /\
  NoDup (map name (groupClicksByCountry clicks)) /\
  (forall n, In n (map name (groupClicksByCountry clicks)) <->
             exists click, In click clicks /\ countryLabel click = n) /\
  (forall e, In e (groupClicksByCountry clicks) ->
             count e = Z.of_nat (occurrences countryLabel (name e) clicks)) /\
  (forall i j e1 e2,
     i < j ->
     nth_error (groupClicksByCountry clicks) i = Some e1 ->
     nth_error (groupClicksByCountry clicks) j = Some e2 ->
     (count e2 < count e1)%Z \/
     (count e1 = count e2 /\
      firstIndex countryLabel (name e1) clicks <
      firstIndex countryLabel (name e2) clicks)) /\
  groupClicksByCountry [] = [].
Proof.
  change (groupClicksByCountry clicks)
    with (js_sort byCountDesc (toNameCounts (tally countryLabel clicks))).
  destruct (grouped_spec countryLabel clicks) as (Hnd & Hnames & Hcount & Hsort).
  split; [|split; [|split; [|split; [|split]]]]; auto.
  - intros click. unfold countryLabel, str_or. split.
    + intros [-> | ->]; reflexivity.
    + intros s -> Hs. apply String.eqb_neq in Hs. now rewrite Hs.
  - intros i j e1 e2 Hij Hi Hj.
    exact (StronglySorted_nth_error _ _ Hsort i j e1 e2 Hij Hi Hj).
Qed.

(** ** C9: top referers *)

(** C9.  [generateTopReferers] labels a click with [Direct] when its referer
    is absent (or the empty string), with the referer string itself when it
    does not parse as a URL, and otherwise with the host name of the URL.
    The result is the first ten entries (all of them when there are fewer)
    of the list that has one entry per label met, each with the number of
    clicks that carry the label, ordered by count, largest first (entries of
    equal count in the order their labels were first met). *)
Theorem generateTopReferers_spec (urlHostname : string -> option string)
    (clicks : list Click.t) :
  (forall click,
     (Click.referer click = None \/ Click.referer click = Some EmptyString ->
      refererLabel urlHostname click = "Direct") /\
     (forall u, Click.referer click = Some u -> u <> EmptyString ->
      urlHostname u = None -> refererLabel urlHostname click = u) /\
     (forall u h, Click.referer click = Some u -> u <> EmptyString ->
      u <> "Direct" -> urlHostname u = Some h ->
      refererLabel urlHostname click = h)) /\
  List.length (generateTopReferers urlHostname clicks) <= 10 /\
  exists rest,
    let all := generateTopReferers urlHostname clicks ++ rest in
    (rest = [] \/ List.length (generateTopReferers urlHostname clicks) = 10) /\
    NoDup (map name all) /\
    (forall n, In n (map name all) <->
               exists click, In click clicks /\ refererLabel urlHostname click = n) /\
    (forall e, In e all ->
               count e = Z.of_nat (occurrences (refererLabel urlHostname) (name e) clicks)) /\
    (forall i j e1 e2,
       i < j -> nth_error all i = Some e1 -> nth_error all j = Some e2 ->
       (count e2 < count e1)%Z \/
       (count e1 = count e2 /\
        firstIndex (refererLabel urlHostname) (name e1) clicks <
        firstIndex (refererLabel urlHostname) (name e2) clicks)).
Proof.
  change (generateTopReferers urlHostname clicks)
    with (firstn 10 (js_sort byCountDesc
                       (toNameCounts (tally (refererLabel urlHostname) clicks)))).
  destruct (grouped_spec (refererLabel urlHostname) clicks)
    as (Hnd & Hnames & Hcount & Hsort).
  set (full := js_sort byCountDesc
                 (toNameCounts (tally (refererLabel urlHostname) clicks))) in *.
  split; [|split].
  - intros click. unfold refererLabel, extractDomain, str_or. repeat split.
    + intros [-> | ->]; reflexivity.
    + intros u -> Hu Hparse. apply String.eqb_neq in Hu. rewrite Hu, Hparse.
      destruct (String.eqb_spec u "Direct"); congruence.
    + intros u h -> Hu Hd Hparse. apply String.eqb_neq in Hu, Hd.
      now rewrite Hu, Hd, Hparse.
  - apply firstn_le_length.
  - exists (skipn 10 full). cbv zeta. rewrite firstn_skipn.
    split; [|split; [|split; [|split]]]; auto.
    + destruct (Nat.le_gt_cases (List.length full) 10) as [Hle | Hgt].
      * left. now apply skipn_all2.
      * right. rewrite length_firstn. lia.
    + intros i j e1 e2 Hij Hi Hj.
      exact (StronglySorted_nth_error _ _ Hsort i j e1 e2 Hij Hi Hj).
Qed.

Example groupClicksByCountry_tie :
  groupClicksByCountry
    [ Click.mk "click_1" "link_1" 0%Z "8.8.8.8" "Unknown" (Some "US") None None
        (Some "Austin") None None None None None;
      bareClick "click_2" "link_1" 1%Z ]
  = [ mkNameCount "US" 1; mkNameCount "Unknown" 1 ].
Proof. reflexivity. Qed.

(** ** C4: clicks by date *)

Lemma update_first_no_match {A : Type} (p : A -> bool) (f : A -> A) (l : list A) :
  find p l = None -> update_first p f l = l.
Proof.
  induction l as [|x l IH]; simpl; [reflexivity|].
  destruct (p x); [discriminate|]. intros H. now rewrite IH.
Qed.

Lemma rev_map_seq {B : Type} (g : nat -> B) (n : nat) :
  rev (map g (seq 0 n)) = map (fun j => g (n - 1 - j)) (seq 0 n).
Proof.
  induction n as [|n IH]; [reflexivity|].
  rewrite seq_S at 1. rewrite map_app, rev_app_distr. simpl rev at 1. simpl app.
  rewrite IH. simpl seq. simpl map. f_equal.
  - f_equal. lia.
  - rewrite <- seq_shift, map_map. apply map_ext_in.
    intros j _. f_equal. lia.
Qed.

Lemma map_throwing_cases {A B : Type} (f : A -> option B) (g : A -> B) (xs : list A) :
  (forall x y, f x = Some y -> g x = y) ->
  ((exists x, In x xs /\ f x = None) /\ map_throwing f xs = None) \/
  ((forall x, In x xs -> f x <> None) /\ map_throwing f xs = Some (map g xs)).
Proof.
  intros Hg. induction xs as [|x xs IH]; cbn [map_throwing map].
  - right. split; [intros x [] | reflexivity].
  - destruct (f x) as [y|] eqn:E.
    + destruct IH as [[(x' & Hin & Hx') ->] | [Hall ->]].
      * left. split; [|reflexivity]. exists x'. split; [now right | exact Hx'].
      * right. split; [|now rewrite (Hg x y E)].
        intros x' [<- | Hin]; [congruence | now apply Hall].
    + left. split; [|reflexivity]. exists x. split; [now left | exact E].
Qed.

Lemma forEach_throwing_cases {A S : Type} (body : S -> A -> option S) (ok : A -> bool)
    (step : S -> A -> S) (xs : list A) :
  (forall s x, body s x = if ok x then Some (step s x) else None) ->
  forall s,
    ((exists x, In x xs /\ ok x = false) /\ forEach_throwing xs body s = None) \/
    ((forall x, In x xs -> ok x = true) /\
     forEach_throwing xs body s = Some (fold_left step xs s)).
Proof.
  intros Hbody. induction xs as [|x xs IH]; intros s; cbn [forEach_throwing fold_left].
  - right. split; [intros x [] | reflexivity].
  - rewrite Hbody. destruct (ok x) eqn:E.
    + destruct (IH (step s x)) as [[(x' & Hin & Hx') ->] | [Hall ->]].
      * left. split; [|reflexivity]. exists x'. split; [now right | exact Hx'].
      * right. split; [|reflexivity]. intros x' [<- | Hin]; [exact E | now apply Hall].
    + left. split; [|reflexivity]. exists x. split; [now left | exact E].
Qed.

Section ClicksByDate.

Variable startOfDay : Z -> Z.
Variable subDays : Z -> Z -> Z.
Variable format : Z -> option string.
Variable clock : nat -> Z.

(** What [format] renders, where it does not throw. *)
Let render (t : Z) : string :=
  match format t with
  | Some rendered => rendered
  | None => EmptyString
  end.

(** The instant whose rendering is the date of entry [j], oldest first. *)
Let entryInstant (j : nat) : Z :=
  startOfDay (subDays (clock (30 - 1 - j)) (Z.of_nat (30 - 1 - j))).

Let bump (days : list DayCount.t) (click : Click.t) : list DayCount.t :=
  let clickDate := render (startOfDay (Click.timestamp click)) in
  match find (fun day => String.eqb (DayCount.date day) clickDate) days with
  | Some _ =>
      update_first (fun day => String.eqb (DayCount.date day) clickDate)
        (fun dayData => DayCount.mk (DayCount.date dayData) (DayCount.clicks dayData + 1)%Z)
        days
  | None => days
  end.

(** The two ways a call ends: [format] throws on one of the thirty dates of
    the window or on the date of a click, and the call throws; or it throws
    on none, and the call returns the window after the counting loop. *)
Lemma generateClicksByDate_cases clicks :
  (((exists i, i < 30 /\
               format (startOfDay (subDays (clock i) (Z.of_nat i))) = None) \/
    (exists click, In click clicks /\
                   format (startOfDay (Click.timestamp click)) = None)) /\
   generateClicksByDate startOfDay subDays format clock clicks =
     Thrown "Invalid time value") \/
  ((forall i, i < 30 -> format (startOfDay (subDays (clock i) (Z.of_nat i))) <> None) /\
   (forall click, In click clicks ->
                  format (startOfDay (Click.timestamp click)) <> None) /\
   generateClicksByDate startOfDay subDays format clock clicks =
     Returned (fold_left bump clicks
                 (map (fun j => DayCount.mk (render (entryInstant j)) 0%Z) (seq 0 30)))).
Proof.
  unfold generateClicksByDate.
  destruct (map_throwing_cases
              (fun i => match format (startOfDay (subDays (clock i) (Z.of_nat i))) with
                        | Some rendered => Some (DayCount.mk rendered 0%Z)
                        | None => None
                        end)
              (fun i => DayCount.mk
                          (render (startOfDay (subDays (clock i) (Z.of_nat i)))) 0%Z)
              (seq 0 30))
    as [[(i & Hi & Hthrow) ->] | [Hwindow ->]].
  - intros i y. unfold render.
    destruct (format (startOfDay (subDays (clock i) (Z.of_nat i)))); [|discriminate].
    now intros [= <-].
  - left. split; [|reflexivity]. left. exists i. apply in_seq in Hi.
    split; [lia|].
    destruct (format (startOfDay (subDays (clock i) (Z.of_nat i)))); [discriminate|].
    reflexivity.
  - assert (Hw : forall i, i < 30 ->
                 format (startOfDay (subDays (clock i) (Z.of_nat i))) <> None).
    { intros i Hi E. apply (Hwindow i); [apply in_seq; lia | now rewrite E]. }
    rewrite (rev_map_seq
               (fun i => DayCount.mk
                           (render (startOfDay (subDays (clock i) (Z.of_nat i)))) 0%Z) 30).
    change (map (fun j => DayCount.mk
                            (render (startOfDay (subDays (clock (30 - 1 - j))
                                                   (Z.of_nat (30 - 1 - j))))) 0%Z)
                (seq 0 30))
      with (map (fun j => DayCount.mk (render (entryInstant j)) 0%Z) (seq 0 30)).
    destruct (forEach_throwing_cases
                (fun last30Days click =>
                   match format (startOfDay (Click.timestamp click)) with
                   | None => None
                   | Some clickDate =>
                       Some match find (fun day => String.eqb (DayCount.date day) clickDate)
                                    last30Days with
                            | Some _ =>
                                update_first
                                  (fun day => String.eqb (DayCount.date day) clickDate)
                                  (fun dayData =>
                                     DayCount.mk (DayCount.date dayData)
                                       (DayCount.clicks dayData + 1)%Z)
                                  last30Days
                            | None => last30Days
                            end
                   end)
                (fun click =>
                   match format (startOfDay (Click.timestamp click)) with
                   | Some _ => true
                   | None => false
                   end)
                bump clicks)
      with (s := map (fun j => DayCount.mk (render (entryInstant j)) 0%Z) (seq 0 30))
      as [[(click & Hin & Hthrow) ->] | [Hclicks ->]].
    + intros s click. unfold bump, render.
      now destruct (format (startOfDay (Click.timestamp click))).
    + left. split; [|reflexivity]. right. exists click. split; [exact Hin|].
      now destruct (format (startOfDay (Click.timestamp click))).
    + right. split; [exact Hw|]. split; [|reflexivity].
      intros click Hin E. specialize (Hclicks click Hin). now rewrite E in Hclicks.
Qed.

Lemma bump_dates days click :
  map DayCount.date (bump days click) = map DayCount.date days.
Proof.
  unfold bump. destruct (find _ days); [|reflexivity].
  induction days as [|d days IH]; simpl; [reflexivity|].
  destruct (String.eqb (DayCount.date d) _); simpl; [reflexivity|].
  now rewrite IH.
Qed.

Lemma fold_bump_dates clicks days :
  map DayCount.date (fold_left bump clicks days) = map DayCount.date days.
Proof.
  revert days. induction clicks as [|c clicks IH]; intros days; simpl; [reflexivity|].
  now rewrite IH, bump_dates.
Qed.

(** A call that returns, returns thirty entries. *)
Lemma generateClicksByDate_runs clicks :
  (((exists i, i < 30 /\
               format (startOfDay (subDays (clock i) (Z.of_nat i))) = None) \/
    (exists click, In click clicks /\
                   format (startOfDay (Click.timestamp click)) = None)) /\
   generateClicksByDate startOfDay subDays format clock clicks =
     Thrown "Invalid time value") \/
  ((forall i, i < 30 -> format (startOfDay (subDays (clock i) (Z.of_nat i))) <> None) /\
   (forall click, In click clicks ->
                  format (startOfDay (Click.timestamp click)) <> None) /\
   exists result,
     generateClicksByDate startOfDay subDays format clock clicks = Returned result /\
     List.length result = 30).
Proof.
  destruct (generateClicksByDate_cases clicks) as [H | (Hw & Hc & ->)]; [now left|].
  right. split; [exact Hw|]. split; [exact Hc|]. eexists. split; [reflexivity|].
  rewrite <- (length_map DayCount.date), fold_bump_dates.
  now rewrite !length_map, length_seq.
Qed.

Lemma bump_nth days click j e :
  NoDup (map DayCount.date days) ->
  nth_error days j = Some e ->
  nth_error (bump days click) j =
  Some (DayCount.mk (DayCount.date e)
          (DayCount.clicks e +
           (if String.eqb (DayCount.date e) (render (startOfDay (Click.timestamp click)))
            then 1 else 0))%Z).
Proof.
  unfold bump. set (d := render (startOfDay (Click.timestamp click))).
  intros Hnd Hj.
  assert (Hupd : nth_error
            (update_first (fun day => String.eqb (DayCount.date day) d)
               (fun dayData => DayCount.mk (DayCount.date dayData)
                                 (DayCount.clicks dayData + 1)%Z) days) j =
            Some (DayCount.mk (DayCount.date e)
                    (DayCount.clicks e +
                     (if String.eqb (DayCount.date e) d then 1 else 0))%Z)).
  { revert j Hj. induction days as [|x days IH]; intros j Hj; [now destruct j|].
    simpl in Hnd. inversion Hnd as [|? ? Hx Hnd']; subst. simpl.
    destruct (String.eqb (DayCount.date x) d) eqn:Ex.
    - destruct j as [|j]; simpl in *.
      + injection Hj as <-. now rewrite Ex.
      + rewrite Hj. destruct (String.eqb_spec (DayCount.date e) d) as [Ee | Ee].
        * exfalso. apply Hx. apply String.eqb_eq in Ex. rewrite Ex, <- Ee.
          apply in_map. now apply nth_error_In in Hj.
        * destruct e; simpl. do 2 f_equal. lia.
    - destruct j as [|j]; simpl in *.
      + injection Hj as <-. rewrite Ex. destruct x; simpl. do 2 f_equal. lia.
      + now apply IH. }
  destruct (find _ days) eqn:Hfind; [exact Hupd|].
  now rewrite update_first_no_match in Hupd.
Qed.

Lemma bump_sum days click :
  sumClicks (bump days click) =
  (sumClicks days +
   (if existsb (String.eqb (render (startOfDay (Click.timestamp click))))
         (map DayCount.date days)
    then 1 else 0))%Z.
Proof.
  unfold bump. set (d := render (startOfDay (Click.timestamp click))).
  assert (Hfind : forall l,
            existsb (String.eqb d) (map DayCount.date l) = false ->
            find (fun day => String.eqb (DayCount.date day) d) l = None).
  { induction l as [|x l IH]; simpl; [reflexivity|].
    rewrite (String.eqb_sym d). destruct (String.eqb (DayCount.date x) d); simpl; auto.
    discriminate. }
  destruct (existsb (String.eqb d) (map DayCount.date days)) eqn:Ex.
  - assert (Hsome : find (fun day => String.eqb (DayCount.date day) d) days <> None).
    { intros Hnone. apply existsb_exists in Ex. destruct Ex as (s & Hs & Hd).
      apply in_map_iff in Hs. destruct Hs as (x & <- & Hx).
      apply (find_none _ _ Hnone) in Hx. rewrite String.eqb_sym in Hd. congruence. }
    destruct (find _ days); [clear Hsome | congruence].
    induction days as [|x days IH]; simpl in *; [discriminate|].
    rewrite (String.eqb_sym d) in Ex.
    destruct (String.eqb (DayCount.date x) d); simpl in *; [lia|].
    rewrite (IH Ex). lia.
  - rewrite (Hfind _ Ex). lia.
Qed.

Lemma fold_bump_nth clicks : forall days j e,
  NoDup (map DayCount.date days) ->
  nth_error days j = Some e ->
  nth_error (fold_left bump clicks days) j =
  Some (DayCount.mk (DayCount.date e)
          (DayCount.clicks e +
           Z.of_nat (List.length
             (filter (fun c => String.eqb (DayCount.date e)
                                 (render (startOfDay (Click.timestamp c))))
                     clicks)))%Z).
Proof.
  induction clicks as [|c clicks IH]; intros days j e Hnd Hj; simpl.
  - rewrite Hj. destruct e; simpl. do 2 f_equal. lia.
  - rewrite (IH (bump days c) j _ ltac:(now rewrite bump_dates)
               (bump_nth days c j e Hnd Hj)).
    simpl. f_equal. f_equal.
    destruct (String.eqb (DayCount.date e) (render (startOfDay (Click.timestamp c))));
      simpl; lia.
Qed.

Lemma fold_bump_sum clicks : forall days,
  sumClicks (fold_left bump clicks days) =
  (sumClicks days +
   Z.of_nat (List.length
     (filter (fun c => existsb (String.eqb (render (startOfDay (Click.timestamp c))))
                         (map DayCount.date days))
             clicks)))%Z.
Proof.
  induction clicks as [|c clicks IH]; intros days; simpl; [lia|].
  rewrite IH, bump_sum, bump_dates.
  destruct (existsb _ (map DayCount.date days)); simpl; lia.
Qed.

(** The contract of the date functions the code calls.  [localDay t] is the
    number of the calendar day, in the time zone of the process, on which the
    instant [t] falls, and [firstDay] the number of the first day of the
    common era, 1 January of the year 1.  [startOfDay] stays on the day and
    [subDays t n] lands [n] calendar days earlier.  The [yyyy-MM-dd]
    rendering of two instants of the common era is the same exactly when
    they fall on the same day; it says nothing of earlier instants, whose
    years are rendered without their era. *)
Variable localDay : Z -> Z.
Variable firstDay : Z.
Hypothesis startOfDay_day : forall t, localDay (startOfDay t) = localDay t.
Hypothesis subDays_day : forall t n, localDay (subDays t n) = (localDay t - n)%Z.
Hypothesis format_day :
  forall t t' rendered rendered',
    (firstDay <= localDay t)%Z -> (firstDay <= localDay t')%Z ->
    format t = Some rendered -> format t' = Some rendered' ->
    (rendered = rendered' <-> localDay t = localDay t').

(** The call: its thirty readings of the clock are valid dates that fall on
    the calendar day [today], and the window lies in the common era. *)
Variable today : Z.
Hypothesis clock_today : forall i, i < 30 -> localDay (clock i) = today.
Hypothesis clock_valid :
  forall i, i < 30 -> format (startOfDay (subDays (clock i) (Z.of_nat i))) <> None.
Hypothesis window_era : (firstDay <= today - 29)%Z.

Lemma entryInstant_day j :
  j < 30 -> localDay (entryInstant j) = (today - 29 + Z.of_nat j)%Z.
Proof.
  intros Hj. unfold entryInstant.
  rewrite startOfDay_day, subDays_day, clock_today by lia. lia.
Qed.

Lemma entryInstant_rendered j :
  j < 30 -> format (entryInstant j) = Some (render (entryInstant j)).
Proof.
  intros Hj. unfold render, entryInstant.
  pose proof (clock_valid (30 - 1 - j) ltac:(lia)) as H.
  now destruct (format (startOfDay (subDays (clock (30 - 1 - j)) (Z.of_nat (30 - 1 - j))))).
Qed.

Lemma click_rendered click :
  format (startOfDay (Click.timestamp click)) <> None ->
  format (startOfDay (Click.timestamp click)) =
    Some (render (startOfDay (Click.timestamp click))).
Proof.
  intros H. unfold render. now destruct (format (startOfDay (Click.timestamp click))).
Qed.

Lemma date_matches j click :
  j < 30 ->
  (firstDay <= localDay (Click.timestamp click))%Z ->
  format (startOfDay (Click.timestamp click)) <> None ->
  String.eqb (render (entryInstant j)) (render (startOfDay (Click.timestamp click)))
  = onDay localDay (today - 29 + Z.of_nat j) click.
Proof.
  intros Hj Hera Hvalid. unfold onDay.
  pose proof (format_day (entryInstant j) (startOfDay (Click.timestamp click)) _ _
                ltac:(rewrite entryInstant_day by assumption; lia)
                ltac:(now rewrite startOfDay_day)
                (entryInstant_rendered j Hj) (click_rendered click Hvalid)) as Hday.
  rewrite startOfDay_day, entryInstant_day in Hday by assumption.
  destruct (String.eqb_spec (render (entryInstant j))
              (render (startOfDay (Click.timestamp click)))) as [E | E];
    symmetry; [apply Z.eqb_eq | apply Z.eqb_neq].
  - symmetry. now apply Hday.
  - intros Heq. apply E, Hday. now symmetry.
Qed.

Lemma window_dates_NoDup :
  NoDup (map DayCount.date
           (map (fun j => DayCount.mk (render (entryInstant j)) 0%Z) (seq 0 30))).
Proof.
  rewrite map_map. apply NoDup_map_NoDup_ForallPairs; [|apply seq_NoDup].
  intros i j Hi Hj Heq. apply in_seq in Hi, Hj. cbn [DayCount.date] in Heq.
  apply (format_day (entryInstant i) (entryInstant j) _ _
           ltac:(rewrite entryInstant_day by lia; lia)
           ltac:(rewrite entryInstant_day by lia; lia)
           (entryInstant_rendered i ltac:(lia)) (entryInstant_rendered j ltac:(lia)))
    in Heq.
  rewrite !entryInstant_day in Heq by lia. lia.
Qed.

Lemma window_match click :
  (firstDay <= localDay (Click.timestamp click))%Z ->
  format (startOfDay (Click.timestamp click)) <> None ->
  existsb (String.eqb (render (startOfDay (Click.timestamp click))))
    (map DayCount.date
       (map (fun j => DayCount.mk (render (entryInstant j)) 0%Z) (seq 0 30)))
  = inWindow localDay today click.
Proof.
  intros Hera Hvalid. rewrite map_map.
  change (map (fun x => DayCount.date (DayCount.mk (render (entryInstant x)) 0%Z))
            (seq 0 30))
    with (map (fun j => render (entryInstant j)) (seq 0 30)).
  unfold inWindow. set (d := localDay (Click.timestamp click)).
  destruct (existsb _ _) eqn:Ex; symmetry.
  - apply existsb_exists in Ex. destruct Ex as (s & Hs & Hd).
    apply in_map_iff in Hs. destruct Hs as (j & <- & Hj). apply in_seq in Hj.
    rewrite String.eqb_sym, date_matches in Hd by (assumption || lia).
    unfold onDay in Hd. apply Z.eqb_eq in Hd. fold d in Hd.
    apply andb_true_iff. rewrite !Z.leb_le. lia.
  - apply andb_false_iff. rewrite !Z.leb_gt.
    destruct (Z_lt_ge_dec d (today - 29)) as [Hlo | Hlo]; [now left|].
    destruct (Z_lt_ge_dec today d) as [Hhi | Hhi]; [now right|].
    exfalso. assert (Hex : existsb
               (String.eqb (render (startOfDay (Click.timestamp click))))
               (map (fun j => render (entryInstant j)) (seq 0 30)) = true).
    { apply existsb_exists. exists (render (entryInstant (Z.to_nat (d - (today - 29))))).
      split.
      - apply in_map_iff. exists (Z.to_nat (d - (today - 29))). split; [reflexivity|].
        apply in_seq. lia.
      - rewrite String.eqb_sym, date_matches by (assumption || lia).
        unfold onDay. fold d. apply Z.eqb_eq. lia. }
    congruence.
Qed.

(** C4.  Let the date functions satisfy their contract for [localDay], let
    the thirty readings of the clock be valid dates that fall on the
    calendar day [today], and let the window lie in the common era.  If the
    timestamp of every click is a valid date of the common era,
    [generateClicksByDate] returns 30 entries; entry [j] (from 0, so oldest
    first) carries the rendering of the day [today - 29 + j] and the number
    of clicks whose timestamp falls on that day; and the counts add up to
    the number of clicks whose timestamp falls on one of the 30 days ending
    with [today].  If [format] throws on the date of some click, as it does
    on an Invalid Date, the call throws.  With no clicks it returns the 30
    entries with every count 0. *)
Theorem generateClicksByDate_spec (clicks : list Click.t) :
  ((forall click, In click clicks ->
      (firstDay <= localDay (Click.timestamp click))%Z /\
      format (startOfDay (Click.timestamp click)) <> None) ->
   exists result,
     generateClicksByDate startOfDay subDays format clock clicks = Returned result /\
     List.length result = 30 /\
     (forall j, j < 30 ->
        exists t rendered,
          localDay t = (today - 29 + Z.of_nat j)%Z /\
          format t = Some rendered /\
          nth_error result j =
            Some (DayCount.mk rendered
                    (Z.of_nat (List.length
                       (filter (onDay localDay (today - 29 + Z.of_nat j)) clicks))))) /\
     sumClicks result =
       Z.of_nat (List.length (filter (inWindow localDay today) clicks))) /\
  ((exists click, In click clicks /\
                  format (startOfDay (Click.timestamp click)) = None) ->
   generateClicksByDate startOfDay subDays format clock clicks =
     Thrown "Invalid time value") /\
  (exists empty,
     generateClicksByDate startOfDay subDays format clock [] = Returned empty /\
     List.length empty = 30 /\
     Forall (fun day => DayCount.clicks day = 0%Z) empty).
Proof.
  split; [|split].
  - intros Hclicks.
    destruct (generateClicksByDate_cases clicks)
      as [[[(i & Hi & Hthrow) | (click & Hin & Hthrow)] _] | (_ & _ & ->)].
    + exfalso. now apply (clock_valid i Hi).
    + exfalso. now apply (proj2 (Hclicks click Hin)).
    + set (days0 := map (fun j => DayCount.mk (render (entryInstant j)) 0%Z) (seq 0 30)).
      eexists. split; [reflexivity|]. split; [|split].
      * rewrite <- (length_map DayCount.date), fold_bump_dates.
        unfold days0. now rewrite !length_map, length_seq.
      * intros j Hj. exists (entryInstant j), (render (entryInstant j)).
        split; [now apply entryInstant_day|].
        split; [now apply entryInstant_rendered|].
        assert (Hnth : nth_error days0 j =
                       Some (DayCount.mk (render (entryInstant j)) 0%Z)).
        { unfold days0. rewrite nth_error_map, nth_error_seq.
          apply Nat.ltb_lt in Hj. now rewrite Hj. }
        rewrite (fold_bump_nth clicks days0 j _ window_dates_NoDup Hnth).
        cbn [DayCount.date DayCount.clicks]. rewrite Z.add_0_l.
        do 4 f_equal. apply filter_ext_in. intros c Hc.
        destruct (Hclicks c Hc). now apply date_matches.
      * rewrite fold_bump_sum.
        assert (Hzero : sumClicks days0 = 0%Z) by reflexivity.
        rewrite Hzero, Z.add_0_l. do 2 f_equal. apply filter_ext_in. intros c Hc.
        destruct (Hclicks c Hc). now apply window_match.
  - intros Hthrow.
    destruct (generateClicksByDate_cases clicks) as [[_ ->] | (_ & Hvalid & _)];
      [reflexivity|].
    destruct Hthrow as (click & Hin & Hnone). exfalso. now apply (Hvalid click Hin).
  - destruct (generateClicksByDate_cases [])
      as [[[(i & Hi & Hthrow) | (click & [] & _)] _] | (_ & _ & ->)].
    + exfalso. now apply (clock_valid i Hi).
    + eexists. split; [reflexivity|]. cbn [fold_left]. split.
      * now rewrite !length_map, length_seq.
      * rewrite Forall_forall. intros day Hday.
        apply in_map_iff in Hday. now destruct Hday as (j & <- & _).
Qed.

End ClicksByDate.

(** The UTC instance satisfies the contract of the date functions. *)
Lemma utcStartOfDay_day t : utcDay (utcStartOfDay t) = utcDay t.
Proof.
  unfold utcStartOfDay, utcDay, msPerDay. now apply Z.div_mul.
Qed.

Lemma utcSubDays_day t n : utcDay (utcSubDays t n) = (utcDay t - n)%Z.
Proof.
  unfold utcSubDays, utcDay, msPerDay.
  replace (t - n * 86400000)%Z with (t + (- n) * 86400000)%Z by lia.
  rewrite Z.div_add by discriminate. lia.
Qed.

Lemma utcFormat_day t t' : utcFormat t = utcFormat t' <-> utcDay t = utcDay t'.
Proof.
  unfold utcFormat. split; [|congruence]. intros H.
  apply DecimalZ.to_int_inj.
  assert (Hsome : Some (Z.to_int (utcDay t)) = Some (Z.to_int (utcDay t'))).
  { rewrite <- (NilEmpty.isi (Z.to_int (utcDay t))), H. apply NilEmpty.isi. }
  congruence.
Qed.

Lemma utcFormatDate_day (t t' : Z) (rendered rendered' : string) :
  (0 <= utcDay t)%Z -> (0 <= utcDay t')%Z ->
  utcFormatDate t = Some rendered -> utcFormatDate t' = Some rendered' ->
  (rendered = rendered' <-> utcDay t = utcDay t').
Proof.
  unfold utcFormatDate. intros _ _ [= <-] [= <-]. apply utcFormat_day.
Qed.

Lemma generateClicksByDate_spec_witness :
  let clicks := [ bareClick "click_1" "link_1" 2592000001%Z;
                  bareClick "click_2" "link_1" 2505600000%Z;
                  bareClick "click_3" "link_1" 1000%Z ] in
  (forall i, i < 30 -> utcDay ((fun _ : nat => 2600000000%Z) i) = 30%Z) /\
  exists result,
    generateClicksByDate utcStartOfDay utcSubDays utcFormatDate
      (fun _ => 2600000000%Z) clicks = Returned result /\
    List.length result = 30 /\
    sumClicks result = 2%Z.
Proof.
  intros clicks.
  assert (Hclock : forall i, i < 30 -> utcDay ((fun _ : nat => 2600000000%Z) i) = 30%Z)
    by (intros i _; reflexivity).
  split; [exact Hclock|].
  assert (Hvalid : forall i, i < 30 ->
            utcFormatDate
              (utcStartOfDay (utcSubDays ((fun _ : nat => 2600000000%Z) i) (Z.of_nat i)))
            <> None) by (intros i _; discriminate).
  assert (Hera : (0 <= 30 - 29)%Z) by lia.
  destruct (generateClicksByDate_spec utcStartOfDay utcSubDays utcFormatDate
              (fun _ => 2600000000%Z) utcDay 0%Z
              utcStartOfDay_day utcSubDays_day utcFormatDate_day
              30%Z Hclock Hvalid Hera clicks)
    as (Hreturns & _ & _).
  destruct Hreturns as (result & Hrun & Hlen & _ & Hsum).
  { intros click [<- | [<- | [<- | []]]]; split; (discriminate || (vm_compute; discriminate)). }
  exists result. split; [exact Hrun|]. split; [exact Hlen|]. exact Hsum.
Defined.

(** C4 does not hold of every call and every list of clicks.  In a call that
    straddles midnight, the first reading of the clock on day 29 and the
    others on day 30, the last two entries carry the same day and day 30 has
    no entry.  On a click whose timestamp is an Invalid Date the call
    throws.  And with a rendering that drops the era, a click five days
    before day 0 is counted in the entry of day 5, outside the window as it
    is. *)
Lemma generateClicksByDate_not_every_call :
  (exists result,
     generateClicksByDate utcStartOfDay utcSubDays utcFormatDate
       (fun i => if Nat.eqb i 0 then 2591999999%Z else 2592000000%Z) []
       = Returned result /\
     utcDay 2591999999 = 29%Z /\ utcDay 2592000000 = 30%Z /\
     nth_error (map DayCount.date result) 28 = Some (utcFormat 2591999999) /\
     nth_error (map DayCount.date result) 29 = Some (utcFormat 2591999999) /\
     ~ In (utcFormat 2592000000) (map DayCount.date result)) /\
  generateClicksByDate dateStartOfDay utcSubDays dateFormat (fun _ => 2600000000%Z)
    [bareClick "click_1" "link_1" invalidTime] = Thrown "Invalid time value" /\
  (exists result,
     generateClicksByDate utcStartOfDay utcSubDays signlessFormat
       (fun _ => 2600000000%Z) [bareClick "click_1" "link_1" (-432000000)%Z]
       = Returned result /\
     utcDay 2600000000 = 30%Z /\
     inWindow utcDay 30 (bareClick "click_1" "link_1" (-432000000)%Z) = false /\
     sumClicks result = 1%Z).
Proof.
  split; [|split].
  - eexists. split; [vm_compute; reflexivity|].
    split; [reflexivity|]. split; [reflexivity|].
    split; [reflexivity|]. split; [reflexivity|].
    vm_compute. intros H.
    repeat (destruct H as [H | H]; [discriminate H|]). exact H.
  - vm_compute. reflexivity.
  - eexists. split; [vm_compute; reflexivity|].
    split; [reflexivity|]. split; reflexivity.
Qed.

(** * Further properties of the storage *)

(** ** Sorting by a numeric key, largest first *)

Section SortByKey.
Context {A : Type} (key : A -> Z).

Let byKeyDesc (a b : A) : Z := (key b - key a)%Z.

Lemma insert_sorted_key_sorted (x : A) (l : list A) :
  StronglySorted (fun a b => (key b <= key a)%Z) l ->
  StronglySorted (fun a b => (key b <= key a)%Z) (insert_sorted byKeyDesc x l).
Proof.
  induction 1 as [|y l Hl IH Hy]; simpl.
  - repeat constructor.
  - unfold byKeyDesc at 1. destruct (0 <? key y - key x)%Z eqn:E.
    + apply Z.ltb_lt in E. constructor; [assumption|].
      rewrite <- (insert_sorted_perm byKeyDesc x l). constructor; [lia | assumption].
    + apply Z.ltb_ge in E. constructor; [now constructor|].
      constructor; [lia|]. rewrite Forall_forall in Hy |- *.
      intros z Hz. specialize (Hy z Hz). lia.
Qed.

Lemma js_sort_key_sorted (l : list A) :
  StronglySorted (fun a b => (key b <= key a)%Z) (js_sort byKeyDesc l).
Proof.
  induction l as [|x l IH]; simpl; [constructor|].
  now apply insert_sorted_key_sorted.
Qed.

(** Stability: the elements of one key keep their order. *)
Lemma insert_sorted_key_stable (t : Z) (x : A) (l : list A) :
  filter (fun a => Z.eqb (key a) t) (insert_sorted byKeyDesc x l) =
  filter (fun a => Z.eqb (key a) t) (x :: l).
Proof.
  induction l as [|y l IH]; [reflexivity|].
  cbn [insert_sorted]. unfold byKeyDesc at 1.
  destruct (0 <? key y - key x)%Z eqn:E; [|reflexivity].
  apply Z.ltb_lt in E. cbn [filter] in *. rewrite IH.
  destruct (Z.eqb_spec (key x) t), (Z.eqb_spec (key y) t); try reflexivity. lia.
Qed.

Lemma js_sort_key_stable (t : Z) (l : list A) :
  filter (fun a => Z.eqb (key a) t) (js_sort byKeyDesc l) =
  filter (fun a => Z.eqb (key a) t) l.
Proof.
  induction l as [|x l IH]; [reflexivity|].
  cbn [js_sort]. rewrite insert_sorted_key_stable. cbn [filter]. now rewrite IH.
Qed.

End SortByKey.

(** ** Looking links up *)

Lemma getLinkById_findEntryById id st :
  LinkStorage.getLinkById id st = option_map snd (findEntryById id (linksStore st)).
Proof.
  unfold LinkStorage.getLinkById, findEntryById, JsMap.values, JsMap.entries.
  induction (linksStore st) as [|[k l] m IH]; simpl; [reflexivity|].
  now destruct (String.eqb (Link.id l) id).
Qed.

Lemma has_true_get {V : Type} k (m : JsMap.t V) :
  JsMap.has k m = true <-> exists v, JsMap.get k m = Some v.
Proof.
  unfold JsMap.has. destruct (JsMap.get k m) as [v|]; split; eauto; try discriminate.
  intros [v H]. discriminate.
Qed.

Lemma createLink_free_code fuel newId now rnd originalUrl title description customCode
    st link st' :
  LinkStorage.createLink fuel newId now rnd originalUrl title description customCode st
    = Some (Returned link, st') ->
  exists code,
    JsMap.has code (linksStore st) = false /\
    (forall c, truthy customCode = Some c -> code = c) /\
    link = Link.mk newId originalUrl code title description now 0%Z true /\
    st' = mkStores (JsMap.set code link (linksStore st))
                   (JsMap.set newId [] (clicksStore st)).
Proof.
  unfold LinkStorage.createLink.
  destruct (truthy customCode) as [c|] eqn:T.
  - destruct (JsMap.has c (linksStore st)) eqn:Hc; [discriminate|].
    intros [= <- <-]. exists c. repeat split; auto. now intros c' [= ->].
  - destruct (generateUniqueShortCode fuel rnd (linksStore st)) as [code|] eqn:G;
      [|discriminate].
    intros [= <- <-]. exists code. repeat split; auto; [|discriminate].
    unfold generateUniqueShortCode in G.
    destruct (generateShortCode 6 rnd 0) as [c p].
    now apply generateUniqueShortCode_loop_sound in G.
Qed.

(** X1.  Whatever the stores, a [createLink] that returns has registered the
    link it returns under a short code that was free (the custom code, when
    one was passed), with the id, URL, title, description and creation time
    it was given, a count of 0 and the active flag set; the history under the
    link's id is empty; every other short code resolves as before and every
    other history is as before. *)
Theorem createLink_registers fuel newId now rnd originalUrl title description customCode
    (st st' : Stores) (link : Link.t) :
  LinkStorage.createLink fuel newId now rnd originalUrl title description customCode st
    = Some (Returned link, st') ->
  LinkStorage.getLinkByShortCode (Link.shortCode link) st = None /\
  LinkStorage.getLinkByShortCode (Link.shortCode link) st' = Some link /\
  (forall c, truthy customCode = Some c -> Link.shortCode link = c) /\
  link = Link.mk newId originalUrl (Link.shortCode link) title description now 0%Z true /\
  ClickStorage.getClicksForLink newId st' = [] /\
  (forall code, code <> Link.shortCode link ->
     LinkStorage.getLinkByShortCode code st' = LinkStorage.getLinkByShortCode code st) /\
  (forall id, id <> newId ->
     ClickStorage.getClicksForLink id st' = ClickStorage.getClicksForLink id st).
Proof.
  intros Hcreate.
  destruct (createLink_free_code _ _ _ _ _ _ _ _ _ _ _ Hcreate)
    as (code & Hfree & Hcustom & Hlink & ->).
  assert (Hcode : Link.shortCode link = code) by now subst link.
  rewrite Hcode. unfold LinkStorage.getLinkByShortCode, ClickStorage.getClicksForLink.
  simpl. repeat split.
  - unfold JsMap.has in Hfree. now destruct (JsMap.get code (linksStore st)).
  - apply JsMapFacts.get_set_eq.
  - exact Hcustom.
  - exact Hlink.
  - now rewrite JsMapFacts.get_set_eq.
  - intros c Hc. apply JsMapFacts.get_set_ne. congruence.
  - intros id Hid. rewrite JsMapFacts.get_set_ne; [reflexivity | congruence].
Qed.

Lemma createLink_registers_witness :
  exists link st',
    LinkStorage.createLink 0 "link_2" 7300000%Z (fun _ => 0) "https://example.org"
      None None (Some "promo") sampleStores = Some (Returned link, st') /\
    LinkStorage.getLinkByShortCode "promo" st' = Some link /\
    ClickStorage.getClicksForLink "link_2" st' = [].
Proof.
  eexists _, _. split; [reflexivity|].
  match goal with
  | |- LinkStorage.getLinkByShortCode _ ?st' = Some ?link /\ _ =>
      pose proof (createLink_registers 0 "link_2" 7300000%Z (fun _ => 0)
                    "https://example.org" None None (Some "promo")
                    sampleStores st' link eq_refl) as H
  end.
  destruct H as (_ & Hget & _ & _ & Hclicks & _).
  split; [exact Hget | exact Hclicks].
Defined.

(** ** Every click is filed under its own link id *)

Lemma In_set_inv {V : Type} k (v : V) m e :
  In e (JsMap.set k v m) -> e = (k, v) \/ In e m.
Proof.
  induction m as [|[k' v'] m IH]; simpl.
  - intros [<- | []]. now left.
  - destruct (String.eqb k' k).
    + intros [<- | H]; [now left | right; now right].
    + intros [<- | H]; [right; now left|].
      destruct (IH H); [now left | right; now right].
Qed.

Lemma In_update_first {A : Type} (p : A -> bool) (f : A -> A) (l : list A) (y : A) :
  In y (update_first p f l) -> In y l \/ exists x, In x l /\ y = f x.
Proof.
  induction l as [|x l IH]; simpl; [tauto|].
  destruct (p x); simpl.
  - intros [<- | H]; [right; exists x; auto | left; auto].
  - intros [<- | H]; [left; auto|].
    destruct (IH H) as [H' | (z & Hz & ->)]; [left; auto | right; exists z; auto].
Qed.

Lemma filed_ok_step guarded st st' : step guarded st st' -> filed_ok st -> filed_ok st'.
Proof.
  intros Hstep Hst. destruct Hstep as
    [fuel newId now rnd url title description custom st link st' _ _ Hcreate
    | click st _ | id st | linkId clickId locationResult st | id st].
  - destruct (createLink_free_code _ _ _ _ _ _ _ _ _ _ _ Hcreate)
      as (code & _ & _ & _ & ->).
    intros k cs c Hin Hc. simpl in Hin. apply In_set_inv in Hin.
    destruct Hin as [[= -> ->] | Hin]; [destruct Hc | eauto].
  - intros k cs c Hin Hc. unfold ClickStorage.addClick in Hin.
    rewrite clicksStore_updateLinkClickCount in Hin. simpl in Hin.
    apply In_set_inv in Hin. destruct Hin as [[= -> ->] | Hin]; [|eauto].
    apply in_app_iff in Hc. destruct Hc as [Hc | [<- | []]]; [|reflexivity].
    destruct (JsMap.get (Click.linkId click) (clicksStore st)) as [old|] eqn:G;
      [|destruct Hc].
    apply JsMapFacts.get_In in G. eauto.
  - unfold LinkStorage.toggleLinkStatus.
    now destruct (findEntryById id (linksStore st)) as [[k l]|].
  - unfold enrichClick.
    destruct (LocationResult.success locationResult); [|assumption].
    destruct (LocationResult.location locationResult) as [loc|]; [|assumption].
    destruct (find _ _); [|assumption].
    intros k cs c Hin Hc. simpl in Hin. apply In_set_inv in Hin.
    destruct Hin as [[= -> ->] | Hin]; [|eauto].
    assert (Hold : forall x, In x (ClickStorage.getClicksForLink linkId st) ->
                             Click.linkId x = linkId).
    { intros x Hx. unfold ClickStorage.getClicksForLink in Hx.
      destruct (JsMap.get linkId (clicksStore st)) as [old|] eqn:G; [|destruct Hx].
      apply JsMapFacts.get_In in G. eauto. }
    apply In_update_first in Hc. destruct Hc as [Hc | (x & Hx & ->)]; auto.
    simpl. auto.
  - unfold LinkStorage.deleteLink.
    destruct (findEntryById id (linksStore st)) as [[k l]|]; [|assumption].
    intros k' cs c Hin Hc. simpl in Hin. apply JsMapFacts.In_delete in Hin.
    destruct Hin as [_ Hin]. eauto.
Qed.

(** X2.  In every state reached by any calls of the five operations, every
    click that [getClicksForLink] returns for an id carries that id as its
    [linkId]. *)
Theorem getClicksForLink_own_link (st : Stores) (linkId : string) (click : Click.t) :
  reachable false st ->
  In click (ClickStorage.getClicksForLink linkId st) ->
  Click.linkId click = linkId.
Proof.
  intros Hreach.
  assert (Hfiled : filed_ok st).
  { induction Hreach as [|st st' _ IH Hstep]; [intros k cs c []|].
    now apply (filed_ok_step false st st'). }
  intros Hin. unfold ClickStorage.getClicksForLink in Hin.
  destruct (JsMap.get linkId (clicksStore st)) as [cs|] eqn:G; [|destruct Hin].
  apply JsMapFacts.get_In in G. eauto.
Qed.

Lemma getClicksForLink_own_link_witness :
  reachable false sampleStores /\
  (exists click, In click (ClickStorage.getClicksForLink "link_1" sampleStores) /\
                 Click.id click = "click_2" /\ Click.linkId click = "link_1").
Proof.
  split; [exact (reachable_unguarded _ reachable_sampleStores)|].
  eexists. split; [right; left; reflexivity|]. split; [reflexivity|].
  apply (getClicksForLink_own_link sampleStores "link_1").
  - exact (reachable_unguarded _ reachable_sampleStores).
  - right. left. reflexivity.
Defined.

(** ** The histories are those of the live links *)

Lemma ids_set_found id k l l' (links : JsMap.t Link.t) :
  JsMap.ok links ->
  findEntryById id links = Some (k, l) ->
  Link.id l' = Link.id l ->
  map (fun e => Link.id (snd e)) (JsMap.set k l' links) =
  map (fun e => Link.id (snd e)) links.
Proof.
  intros Hok Hfind Hid.
  destruct (findEntryById_split _ _ _ _ Hok Hfind) as (pre & post & Hm & _ & Hset).
  rewrite Hset. rewrite Hm. rewrite !map_app. simpl. now rewrite Hid.
Qed.

Lemma filter_keep_all {A : Type} (p : A -> bool) (l : list A) :
  (forall x, In x l -> p x = true) -> filter p l = l.
Proof.
  induction l as [|x l IH]; simpl; [reflexivity|]. intros H.
  rewrite (H x (or_introl eq_refl)). f_equal. apply IH. intros y Hy. apply H. now right.
Qed.

(** What [deleteLink] removes from a registry with distinct keys. *)
Lemma delete_found id k l (links : JsMap.t Link.t) :
  JsMap.ok links ->
  findEntryById id links = Some (k, l) ->
  exists pre post,
    links = pre ++ (k, l) :: post /\
    JsMap.delete k links = pre ++ post /\
    Forall (fun e => Link.id (snd e) <> id) pre.
Proof.
  intros Hok Hfind.
  destruct (findEntryById_split _ _ _ _ Hok Hfind) as (pre & post & Hm & Hpre & _).
  exists pre, post. repeat split; auto.
  unfold JsMap.ok, JsMap.keys in Hok. rewrite Hm in Hok |- *.
  rewrite map_app in Hok. simpl in Hok. apply NoDup_remove_2 in Hok.
  unfold JsMap.delete. rewrite filter_app. simpl. rewrite String.eqb_refl. simpl.
  rewrite !filter_keep_all; [reflexivity | |];
    intros [k' l'] Hin; simpl; apply negb_true_iff, String.eqb_neq; intros ->;
    apply Hok, in_app_iff; [right | left]; now apply (in_map fst) in Hin.
Qed.

Lemma ledgers_ok_step st st' :
  step true st st' -> codes_ok st -> counts_ok st -> ledgers_ok st -> ledgers_ok st'.
Proof.
  intros Hstep (Hok & _) (Hids & _) Hled. unfold ledgers_ok in *.
  destruct Hstep as
    [fuel newId now rnd url title description custom st link st' _ Hfresh Hcreate
    | click st Hlive | id st | linkId clickId locationResult st | id st].
  - destruct (createLink_free_code _ _ _ _ _ _ _ _ _ _ _ Hcreate)
      as (code & Hfree & _ & Hlink & ->).
    simpl. rewrite (JsMapFacts.set_fresh _ _ _ Hfree), map_app. simpl.
    rewrite JsMapFacts.keys_set.
    assert (Hnew : JsMap.has newId (clicksStore st) = false).
    { apply JsMapFacts.has_false_keys. rewrite Hled, in_map_iff.
      intros ([k l] & Hid & Hin). apply (Hfresh eq_refl k l Hin). exact Hid. }
    rewrite Hnew, Hled. now subst link.
  - destruct (findEntryById_live _ _ (Hlive eq_refl)) as (k & l & Hfind).
    unfold ClickStorage.addClick, LinkStorage.updateLinkClickCount. simpl.
    rewrite Hfind. simpl.
    rewrite (ids_set_found _ _ _ (Link.with_clickCount _ l) _ Hok Hfind eq_refl).
    rewrite JsMapFacts.keys_set.
    assert (Hhas : JsMap.has (Click.linkId click) (clicksStore st) = true).
    { destruct (JsMap.has (Click.linkId click) (clicksStore st)) eqn:E; [reflexivity|].
      apply JsMapFacts.has_false_keys in E. exfalso. apply E. rewrite Hled.
      destruct (findEntryById_Some _ _ _ _ Hfind) as [Hin <-].
      now apply (in_map (fun e => Link.id (snd e))) in Hin. }
    now rewrite Hhas.
  - unfold LinkStorage.toggleLinkStatus.
    destruct (findEntryById id (linksStore st)) as [[k l]|] eqn:Hfind; [|assumption].
    simpl. now rewrite (ids_set_found _ _ _ (Link.with_isActive _ l) _ Hok Hfind eq_refl).
  - rewrite linksStore_enrichClick. unfold enrichClick.
    destruct (LocationResult.success locationResult); [|assumption].
    destruct (LocationResult.location locationResult) as [loc|]; [|assumption].
    destruct (find _ _) as [c|] eqn:Hfind; [|assumption].
    simpl. rewrite JsMapFacts.keys_set.
    unfold ClickStorage.getClicksForLink, JsMap.has in *.
    destruct (JsMap.get linkId (clicksStore st)); [assumption | discriminate].
  - unfold LinkStorage.deleteLink.
    destruct (findEntryById id (linksStore st)) as [[k l]|] eqn:Hfind; [|assumption].
    destruct (delete_found _ _ _ _ Hok Hfind) as (pre & post & Hm & Hdel & _).
    destruct (findEntryById_Some _ _ _ _ Hfind) as [_ Hid].
    simpl. rewrite JsMapFacts.keys_delete, Hled, Hdel. rewrite Hm in Hids |- *.
    rewrite !map_app in *. simpl in *. rewrite Hid in *.
    apply NoDup_remove_2 in Hids.
    rewrite filter_app. simpl. rewrite String.eqb_refl. simpl.
    rewrite !filter_keep_all; [reflexivity | |];
      intros x Hin; apply negb_true_iff, String.eqb_neq; intros ->;
      apply Hids, in_app_iff; auto.
Qed.

Lemma ledgers_ok_reachable st : reachable true st -> ledgers_ok st.
Proof.
  induction 1 as [|st st' Hreach IH Hstep]; [reflexivity|].
  apply (ledgers_ok_step st st' Hstep); auto.
  - exact (codes_ok_reachable true st Hreach).
  - exact (counts_ok_reachable st Hreach).
Qed.

Lemma history_kept_iff_live (st : Stores) :
  reachable true st ->
  forall id, JsMap.has id (clicksStore st) = true <->
             exists l, LinkStorage.getLinkById id st = Some l.
Proof.
  intros Hreach. pose proof (ledgers_ok_reachable st Hreach) as Hled.
  unfold ledgers_ok in Hled.
  intros id. rewrite getLinkById_findEntryById. split.
  - intros Hhas.
    assert (Hin : In id (JsMap.keys (clicksStore st))).
    { destruct (in_dec string_dec id (JsMap.keys (clicksStore st))); [assumption|].
      apply JsMapFacts.has_false_keys in n. congruence. }
    rewrite Hled, in_map_iff in Hin. destruct Hin as ([k l] & Hid & Hin).
    destruct (findEntryById_live id (linksStore st)) as (k' & l' & ->); [eauto|].
    simpl. eauto.
  - intros (l & Hl).
    destruct (findEntryById id (linksStore st)) as [[k l']|] eqn:Hfind; [|discriminate].
    destruct (findEntryById_Some _ _ _ _ Hfind) as [Hin Hid].
    destruct (JsMap.has id (clicksStore st)) eqn:E; [reflexivity|].
    apply JsMapFacts.has_false_keys in E. exfalso. apply E. rewrite Hled, <- Hid.
    now apply (in_map (fun e => Link.id (snd e))) in Hin.
Qed.

(** X3.  In every state reached by guarded calls, the histories kept are
    exactly those of the live links, in the order of the registry: a history
    exists under an id exactly when some link has that id (no history is
    orphaned, no link is without one), and no two links share an id. *)
Theorem histories_match_registry (st : Stores) :
  reachable true st ->
  JsMap.keys (clicksStore st) = map Link.id (JsMap.values (linksStore st)) /\
  NoDup (map Link.id (JsMap.values (linksStore st))) /\
  (forall id, JsMap.has id (clicksStore st) = true <->
              exists l, LinkStorage.getLinkById id st = Some l).
Proof.
  intros Hreach. pose proof (ledgers_ok_reachable st Hreach) as Hled.
  pose proof (counts_ok_reachable st Hreach) as (Hids & _).
  unfold ledgers_ok in Hled. unfold JsMap.values. rewrite map_map.
  split; [assumption|]. split; [assumption|].
  now apply history_kept_iff_live.
Qed.

Lemma histories_match_registry_witness :
  reachable true sampleStores /\
  JsMap.keys (clicksStore sampleStores) = ["link_1"] /\
  JsMap.has "link_1" (clicksStore sampleStores) = true.
Proof.
  split; [exact reachable_sampleStores|].
  destruct (histories_match_registry sampleStores reachable_sampleStores)
    as (Hkeys & _ & Hhas).
  split; [exact Hkeys|].
  apply Hhas. eexists. reflexivity.
Defined.

(** X4.  In every state reached by guarded calls, [deleteLink id] returns
    [true] exactly when a link has the id; afterwards no link has the id and
    no history is kept under it, while every link of another id is found as
    before, with the history it had. *)
Theorem deleteLink_removes (st : Stores) (id : string) :
  reachable true st ->
  let result := LinkStorage.deleteLink id st in
  (fst result = true <-> exists l, LinkStorage.getLinkById id st = Some l) /\
  LinkStorage.getLinkById id (snd result) = None /\
  JsMap.has id (clicksStore (snd result)) = false /\
  (forall other, other <> id ->
     LinkStorage.getLinkById other (snd result) = LinkStorage.getLinkById other st /\
     JsMap.get other (clicksStore (snd result)) = JsMap.get other (clicksStore st)).
Proof.
  intros Hreach result.
  pose proof (codes_ok_reachable true st Hreach) as (Hok & _).
  pose proof (counts_ok_reachable st Hreach) as (Hids & _).
  pose proof (history_kept_iff_live st Hreach) as Hhas.
  unfold result, LinkStorage.deleteLink. rewrite !getLinkById_findEntryById.
  destruct (findEntryById id (linksStore st)) as [[k l]|] eqn:Hfind.
  - destruct (delete_found _ _ _ _ Hok Hfind) as (pre & post & Hm & Hdel & Hpre).
    destruct (findEntryById_Some _ _ _ _ Hfind) as [_ Hid].
    assert (Hpost : Forall (fun e => Link.id (snd e) <> id) post).
    { rewrite Hm, map_app in Hids. simpl in Hids. apply NoDup_remove_2 in Hids.
      rewrite Forall_forall. intros e He Heq. apply Hids, in_app_iff. right.
      rewrite Hid, <- Heq. now apply (in_map (fun e => Link.id (snd e))) in He. }
    simpl. rewrite Hdel.
    split; [split; eauto|]. split; [|split].
    + assert (Hnone : findEntryById id (pre ++ post) = None).
      { apply findEntryById_None. intros k' l' Hin. apply in_app_iff in Hin.
        rewrite Forall_forall in Hpre, Hpost.
        destruct Hin as [Hin | Hin]; [apply (Hpre _ Hin) | apply (Hpost _ Hin)]. }
      now rewrite Hnone.
    + unfold JsMap.has. now rewrite JsMapFacts.get_delete_eq.
    + intros other Hne. split.
      * rewrite !getLinkById_findEntryById. simpl. rewrite Hm. f_equal.
        unfold findEntryById, JsMap.entries. clear -Hne Hid.
        induction pre as [|[k' l'] pre IH]; simpl.
        -- rewrite Hid. apply String.eqb_neq in Hne.
           rewrite String.eqb_sym in Hne. now rewrite Hne.
        -- now rewrite IH.
      * apply JsMapFacts.get_delete_ne. congruence.
  - simpl. rewrite Hfind. simpl.
    split; [split; [discriminate | intros [l' H]; discriminate]|].
    split; [reflexivity|]. split; [|auto].
    destruct (JsMap.has id (clicksStore st)) eqn:E; [|reflexivity].
    apply Hhas in E. rewrite getLinkById_findEntryById, Hfind in E.
    destruct E as [l' E]. discriminate.
Qed.

Lemma deleteLink_removes_witness :
  reachable true sampleStores /\
  fst (LinkStorage.deleteLink "link_1" sampleStores) = true /\
  LinkStorage.getLinkById "link_1" (snd (LinkStorage.deleteLink "link_1" sampleStores))
    = None.
Proof.
  split; [exact reachable_sampleStores|].
  destruct (deleteLink_removes sampleStores "link_1" reachable_sampleStores)
    as (Hret & Hgone & _).
  split; [|exact Hgone].
  apply Hret. eexists. reflexivity.
Defined.

(** ** Listing links and clicks *)

(** X5.  [getAllLinks] returns the links of the registry, each once, newest
    first: a later position never has a later creation time, and links
    created at the same instant keep the order of the registry. *)
Theorem getAllLinks_spec (st : Stores) :
  Permutation (JsMap.values (linksStore st)) (getAllLinks st) /\
  (forall i j a b,
     i < j ->
     nth_error (getAllLinks st) i = Some a ->
     nth_error (getAllLinks st) j = Some b ->
     (Link.createdAt b <= Link.createdAt a)%Z) /\
  (forall t,
     filter (fun l => Z.eqb (Link.createdAt l) t) (getAllLinks st) =
     filter (fun l => Z.eqb (Link.createdAt l) t) (JsMap.values (linksStore st))).
Proof.
  unfold getAllLinks. split; [apply js_sort_perm|]. split.
  - intros i j a b Hij Hi Hj.
    exact (StronglySorted_nth_error _ _
             (js_sort_key_sorted Link.createdAt _) i j a b Hij Hi Hj).
  - intros t. apply (js_sort_key_stable Link.createdAt).
Qed.

Lemma fold_left_append_concat {A : Type} (ls : list (list A)) (init : list A) :
  fold_left (fun acc l => acc ++ l) ls init = init ++ concat ls.
Proof.
  revert init. induction ls as [|l ls IH]; intros init; simpl.
  - now rewrite app_nil_r.
  - now rewrite IH, app_assoc.
Qed.


(** ** Unique visitors *)

Lemma JsSet_fromList_snoc xs x :
  JsSet.fromList (xs ++ [x]) = JsSet.add x (JsSet.fromList xs).
Proof. unfold JsSet.fromList. now rewrite fold_left_app. Qed.

Lemma JsSet_has_In x s : JsSet.has x s = true <-> In x s.
Proof.
  unfold JsSet.has. rewrite existsb_exists. split.
  - intros (y & Hy & E). apply String.eqb_eq in E. now subst.
  - intros H. exists x. split; [assumption | apply String.eqb_refl].
Qed.

Lemma JsSet_fromList_spec xs :
  NoDup (JsSet.fromList xs) /\ (forall x, In x (JsSet.fromList xs) <-> In x xs).
Proof.
  induction xs as [|x xs [IHnd IHin]] using rev_ind.
  - split; [constructor | reflexivity].
  - rewrite JsSet_fromList_snoc. unfold JsSet.add.
    destruct (JsSet.has x (JsSet.fromList xs)) eqn:E.
    + apply JsSet_has_In in E. split; [assumption|].
      intros y. rewrite in_app_iff, IHin. simpl. split; [tauto|].
      intros [H | [<- | []]]; [assumption | now apply IHin].
    + split.
      * apply NoDup_snoc; [assumption|]. intros H. apply JsSet_has_In in H. congruence.
      * intros y. rewrite !in_app_iff, IHin. reflexivity.
Qed.

(** X7.  [getUniqueClicksForLink] counts the distinct [ip] values among the
    clicks of the link: it is the length of a list without repetition that
    holds exactly those values.  It is at most the number of clicks, and 0
    exactly when the link has no click (or no history). *)
Theorem getUniqueClicksForLink_spec (linkId : string) (st : Stores) :
  let clicks := ClickStorage.getClicksForLink linkId st in
  (exists ips,
     NoDup ips /\
     (forall ip, In ip ips <-> exists click, In click clicks /\ Click.ip click = ip) /\
     getUniqueClicksForLink linkId st = Z.of_nat (List.length ips)) /\
  (0 <= getUniqueClicksForLink linkId st <= Z.of_nat (List.length clicks))%Z /\
  (getUniqueClicksForLink linkId st = 0%Z <-> clicks = []).
Proof.
  intros clicks. unfold getUniqueClicksForLink, JsSet.size.
  change (arr_or (JsMap.get linkId (clicksStore st)) []) with clicks.
  destruct (JsSet_fromList_spec (map Click.ip clicks)) as [Hnd Hin].
  set (ips := JsSet.fromList (map Click.ip clicks)) in *.
  assert (Hle : List.length ips <= List.length clicks).
  { rewrite <- (length_map Click.ip clicks). apply NoDup_incl_length; [assumption|].
    intros x Hx. now apply Hin. }
  split; [|split].
  - exists ips. split; [assumption|]. split; [|reflexivity].
    intros ip. rewrite Hin, in_map_iff. split; intros (c & H1 & H2); eauto.
  - lia.
  - split.
    + intros Hzero. destruct clicks as [|c cs]; [reflexivity|].
      assert (Hc : In (Click.ip c) ips) by (apply Hin; now left).
      destruct ips; [destruct Hc | simpl in Hzero; lia].
    + intros Hnil. rewrite Hnil in *. simpl in Hle. lia.
Qed.

(** ** The dashboard *)

Lemma filter_length_perm {A : Type} (p : A -> bool) (l l' : list A) :
  Permutation l l' -> List.length (filter p l) = List.length (filter p l').
Proof.
  induction 1 as [|x l l' _ IH|x y l|l l' l'' _ IH1 _ IH2]; simpl.
  - reflexivity.
  - destruct (p x); simpl; congruence.
  - destruct (p x), (p y); reflexivity.
  - congruence.
Qed.

Lemma length_concat_sum {A : Type} (ls : list (list A)) :
  Z.of_nat (List.length (concat ls)) =
  sumZ (map (fun l => Z.of_nat (List.length l)) ls).
Proof.
  induction ls as [|l ls IH]; simpl; [reflexivity|].
  rewrite length_app, Nat2Z.inj_add, IH. reflexivity.
Qed.

(** The [reduce] that picks the top performer, over any list of links. *)
Lemma top_performer_spec (links : list Link.t) :
  let top :=
    fold_left (fun top current =>
                 match top with
                 | None => Some current
                 | Some t =>
                     if (Link.clickCount t <? Link.clickCount current)%Z
                     then Some current else top
                 end) links None in
  (top = None <-> links = []) /\
  (forall t, top = Some t ->
     exists pre post,
       links = pre ++ t :: post /\
       Forall (fun l => (Link.clickCount l < Link.clickCount t)%Z) pre /\
       Forall (fun l => (Link.clickCount l <= Link.clickCount t)%Z) post).
Proof.
  induction links as [|x links IH] using rev_ind.
  - simpl. split; [tauto | discriminate].
  - rewrite fold_left_app. simpl. cbv zeta in IH. destruct IH as [IHnone IHsome].
    destruct (fold_left _ links None) as [t|] eqn:Htop.
    + destruct (IHsome t eq_refl) as (pre & post & -> & Hpre & Hpost).
      destruct (Link.clickCount t <? Link.clickCount x)%Z eqn:E.
      * apply Z.ltb_lt in E. split.
        -- split; [discriminate | intros H; now destruct (pre ++ t :: post)].
        -- intros t' [= <-]. exists (pre ++ t :: post), []. repeat split; auto.
           apply Forall_app. split.
           ++ eapply Forall_impl; [|exact Hpre]. simpl. intros; lia.
           ++ constructor; [assumption|].
              eapply Forall_impl; [|exact Hpost]. simpl. intros; lia.
      * apply Z.ltb_ge in E. split.
        -- split; [discriminate | intros H; now destruct (pre ++ t :: post)].
        -- intros t' [= <-]. exists pre, (post ++ [x]). repeat split; auto.
           ++ now rewrite <- app_assoc.
           ++ apply Forall_app. split; [assumption | now constructor].
    + assert (Hnil : links = []) by now apply IHnone. subst links. simpl. split.
      * split; discriminate.
      * intros t [= <-]. exists [], []. repeat split; constructor.
Qed.

Lemma getDashboardStats_totalClicks (st : Stores) :
  DashboardStats.totalClicks (getDashboardStats st) =
  sumZ (map (fun e => Z.of_nat (List.length (snd e))) (clicksStore st)).
Proof.
  unfold getDashboardStats. simpl. unfold getAllClicks, forEach.
  rewrite fold_left_append_concat. simpl.
  rewrite <- (Permutation_length (js_sort_perm _ _)), length_concat_sum.
  unfold JsMap.values. now rewrite map_map.
Qed.

(** X8.  [getDashboardStats]: [totalLinks] is the number of registered
    links; [activeLinks] is the number of those with [isActive] set, so at
    most [totalLinks]; [totalClicks] is the sum of the lengths of all
    histories; [topPerformingLink] is absent exactly when there is no link,
    and otherwise is a link of the list [getAllLinks] returns whose
    [clickCount] no link exceeds, the first one of that count in that list. *)
Theorem getDashboardStats_spec (st : Stores) :
  let stats := getDashboardStats st in
  DashboardStats.totalLinks stats = Z.of_nat (List.length (linksStore st)) /\
  DashboardStats.activeLinks stats =
    Z.of_nat (List.length (filter Link.isActive (JsMap.values (linksStore st)))) /\
  (0 <= DashboardStats.activeLinks stats <= DashboardStats.totalLinks stats)%Z /\
  DashboardStats.totalClicks stats =
    sumZ (map (fun e => Z.of_nat (List.length (snd e))) (clicksStore st)) /\
  (DashboardStats.topPerformingLink stats = None <-> linksStore st = []) /\
  (forall t, DashboardStats.topPerformingLink stats = Some t ->
     exists pre post,
       getAllLinks st = pre ++ t :: post /\
       Forall (fun l => (Link.clickCount l < Link.clickCount t)%Z) pre /\
       Forall (fun l => (Link.clickCount l <= Link.clickCount t)%Z) post).
Proof.
  intros stats. unfold stats, getDashboardStats. simpl.
  assert (Hperm : Permutation (JsMap.values (linksStore st)) (getAllLinks st))
    by apply js_sort_perm.
  assert (Hlen : List.length (getAllLinks st) = List.length (linksStore st)).
  { rewrite <- (Permutation_length Hperm). unfold JsMap.values. apply length_map. }
  destruct (top_performer_spec (getAllLinks st)) as [Hnone Hsome].
  split; [now rewrite Hlen|]. split; [|split; [|split; [|split]]].
  - now rewrite (filter_length_perm _ _ _ (Permutation_sym Hperm)).
  - pose proof (filter_length Link.isActive (getAllLinks st)). lia.
  - apply (getDashboardStats_totalClicks st).
  - cbv zeta in Hnone. rewrite Hnone. split.
    + intros H. rewrite H in Hlen. now destruct (linksStore st).
    + intros H. rewrite H in Hlen. now destruct (getAllLinks st).
  - exact Hsome.
Qed.

Lemma get_keys_values {V : Type} (m : JsMap.t V) :
  JsMap.ok m ->
  map (fun k => JsMap.get k m) (JsMap.keys m) = map (fun e => Some (snd e)) m.
Proof.
  intros Hok. unfold JsMap.keys. rewrite map_map. apply map_ext_in.
  intros [k v] Hin. simpl. now apply JsMapFacts.In_get.
Qed.


Lemma sumZ_app (l l' : list Z) : sumZ (l ++ l') = (sumZ l + sumZ l')%Z.
Proof.
  induction l as [|x l IH]; simpl; [reflexivity|]. rewrite IH. lia.
Qed.

Lemma totalClicks_clickCounts (st : Stores) :
  reachable true st ->
  DashboardStats.totalClicks (getDashboardStats st) =
  sumZ (map Link.clickCount (JsMap.values (linksStore st))).
Proof.
  intros Hreach. rewrite getDashboardStats_totalClicks.
  pose proof (ledgers_ok_reachable st Hreach) as Hled.
  pose proof (counts_ok_reachable st Hreach) as (Hids & Hall).
  unfold ledgers_ok in Hled.
  assert (Hok : JsMap.ok (clicksStore st)) by (unfold JsMap.ok; now rewrite Hled).
  assert (Hcounts : map Link.clickCount (JsMap.values (linksStore st)) =
                    map (fun i => Z.of_nat (List.length
                           (arr_or (JsMap.get i (clicksStore st)) [])))
                        (map (fun e => Link.id (snd e)) (linksStore st))).
  { unfold JsMap.values. rewrite !map_map. apply map_ext_in. intros e He.
    rewrite Forall_forall in Hall. exact (Hall e He). }
  rewrite Hcounts, <- Hled.
  rewrite <- (map_map (fun k => JsMap.get k (clicksStore st))
                (fun o => Z.of_nat (List.length (arr_or o [])))).
  rewrite (get_keys_values _ Hok), map_map. reflexivity.
Qed.

(** X9.  In every state reached by guarded calls, the dashboard's
    [totalClicks] is the sum of the [clickCount] of the registered links; and
    deleting a link lowers [totalClicks] by exactly that link's [clickCount]
    and [totalLinks] by one. *)
Theorem deleteLink_dashboard (st : Stores) (id : string) (link : Link.t) :
  reachable true st ->
  LinkStorage.getLinkById id st = Some link ->
  let before := getDashboardStats st in
  let after := getDashboardStats (snd (LinkStorage.deleteLink id st)) in
  DashboardStats.totalClicks before =
    sumZ (map Link.clickCount (JsMap.values (linksStore st))) /\
  DashboardStats.totalClicks after =
    (DashboardStats.totalClicks before - Link.clickCount link)%Z /\
  DashboardStats.totalLinks after = (DashboardStats.totalLinks before - 1)%Z.
Proof.
  intros Hreach Hget before after.
  assert (Hreach' : reachable true (snd (LinkStorage.deleteLink id st))).
  { apply (reachable_step true st); [assumption | apply step_deleteLink]. }
  unfold before, after.
  rewrite (totalClicks_clickCounts _ Hreach), (totalClicks_clickCounts _ Hreach').
  split; [reflexivity|].
  pose proof (codes_ok_reachable true st Hreach) as (Hok & _).
  rewrite getLinkById_findEntryById in Hget.
  unfold LinkStorage.deleteLink.
  destruct (findEntryById id (linksStore st)) as [[k l]|] eqn:Hfind; [|discriminate].
  injection Hget as <-.
  destruct (delete_found _ _ _ _ Hok Hfind) as (pre & post & Hm & Hdel & _).
  assert (Hlen : forall s, DashboardStats.totalLinks (getDashboardStats s) =
                           Z.of_nat (List.length (linksStore s))).
  { intros s. unfold getDashboardStats, getAllLinks. simpl.
    rewrite <- (Permutation_length (js_sort_perm _ _)).
    unfold JsMap.values. now rewrite length_map. }
  rewrite !Hlen. simpl. rewrite Hdel, Hm. unfold JsMap.values.
  rewrite !map_app, !sumZ_app, !length_app. simpl. split; lia.
Qed.

Lemma deleteLink_dashboard_witness :
  reachable true sampleStores /\
  DashboardStats.totalClicks (getDashboardStats sampleStores) = 2%Z /\
  DashboardStats.totalClicks
    (getDashboardStats (snd (LinkStorage.deleteLink "link_1" sampleStores))) = 0%Z.
Proof.
  split; [exact reachable_sampleStores|].
  destruct (deleteLink_dashboard sampleStores "link_1" _ reachable_sampleStores eq_refl)
    as (Hbefore & Hafter & _).
  split; [exact Hbefore | exact Hafter].
Defined.

(** * Further properties of the aggregations *)

Lemma sumZ_perm (l l' : list Z) : Permutation l l' -> sumZ l = sumZ l'.
Proof.
  induction 1 as [|x l l' _ IH|x y l|l l' l'' _ IH1 _ IH2]; simpl; lia.
Qed.

Lemma has_true_get_false {V : Type} k (m : JsMap.t V) :
  JsMap.has k m = false -> JsMap.get k m = None.
Proof. unfold JsMap.has. now destruct (JsMap.get k m). Qed.

(** The counts of the counting loop add up to the number of elements. *)
Lemma tally_total {A : Type} (label : A -> string) (xs : list A) :
  sumZ (map snd (tally label xs)) = Z.of_nat (List.length xs).
Proof.
  induction xs as [|x xs IH] using rev_ind; [reflexivity|].
  rewrite tally_snoc, length_app, Nat2Z.inj_add. simpl List.length.
  rewrite <- IH. clear IH.
  destruct (JsMap.has (label x) (tally label xs)) eqn:Hhas.
  - destruct (JsMapFacts.set_present (label x)
                (num_or (JsMap.get (label x) (tally label xs)) 0 + 1)%Z _ Hhas)
      as (pre & v0 & post & Hm & _ & Hset).
    rewrite Hset.
    assert (Hget : JsMap.get (label x) (tally label xs) = Some v0).
    { apply (JsMapFacts.In_get _ _ _ (tally_ok label xs)).
      rewrite Hm. apply in_app_iff. right. now left. }
    assert (Hpos : (0 < v0)%Z).
    { apply JsMapFacts.get_In, tally_In in Hget. lia. }
    rewrite Hget. rewrite Hm. rewrite !map_app, !sumZ_app. simpl.
    destruct (Z.eqb_spec v0 0); lia.
  - rewrite (JsMapFacts.set_fresh _ _ _ Hhas), map_app, sumZ_app. simpl.
    apply has_true_get_false in Hhas. rewrite Hhas. simpl. lia.
Qed.

Lemma grouped_total {A : Type} (label : A -> string) (xs : list A) :
  sumZ (map count (js_sort byCountDesc (toNameCounts (tally label xs)))) =
  Z.of_nat (List.length xs).
Proof.
  rewrite <- (sumZ_perm _ _ (Permutation_map count (js_sort_perm byCountDesc _))).
  unfold toNameCounts, JsMap.entries. rewrite map_map. simpl.
  apply tally_total.
Qed.

(** X10.  [groupClicksByCity] labels a click [city, country] when its city
    is present and not empty (with [Unknown] for a missing or empty country),
    and [Unknown] otherwise.  The result has one entry per label met, each
    with the number of clicks that carry the label, larger counts first and
    equal counts in the order their labels were first met; it is empty on no
    clicks. *)
Theorem groupClicksByCity_spec (clicks : list Click.t) :
  (forall click,
     (Click.city click = None \/ Click.city click = Some EmptyString ->
      cityLabel click = "Unknown") /\
     (forall c, Click.city click = Some c -> c <> EmptyString ->
      cityLabel click =
        String.append c (String.append ", " (str_or (Click.country click) "Unknown")))) /\
  NoDup (map name (groupClicksByCity clicks)) /\
  (forall n, In n (map name (groupClicksByCity clicks)) <->
             exists click, In click clicks /\ cityLabel click = n) /\
  (forall e, In e (groupClicksByCity clicks) ->
             count e = Z.of_nat (occurrences cityLabel (name e) clicks)) /\
  (forall i j e1 e2,
     i < j ->
     nth_error (groupClicksByCity clicks) i = Some e1 ->
     nth_error (groupClicksByCity clicks) j = Some e2 ->
     (count e2 < count e1)%Z \/
     (count e1 = count e2 /\
      firstIndex cityLabel (name e1) clicks < firstIndex cityLabel (name e2) clicks)) /\
  groupClicksByCity [] = [].
Proof.
  change (groupClicksByCity clicks)
    with (js_sort byCountDesc (toNameCounts (tally cityLabel clicks))).
  destruct (grouped_spec cityLabel clicks) as (Hnd & Hnames & Hcount & Hsort).
  split; [|split; [|split; [|split; [|split]]]]; auto.
  - intros click. unfold cityLabel, truthy. split.
    + intros [-> | ->]; reflexivity.
    + intros c -> Hc. apply String.eqb_neq in Hc. now rewrite Hc.
  - intros i j e1 e2 Hij Hi Hj.
    exact (StronglySorted_nth_error _ _ Hsort i j e1 e2 Hij Hi Hj).
Qed.

(** X11.  Every click is counted once by a grouping: the counts returned by
    [groupClicksByCountry] add up to the number of clicks, and so do those of
    [groupClicksByCity]; the counts returned by [generateTopReferers], which
    keeps ten entries at most, add up to at most that number, and to exactly
    that number when no more than ten labels occur. *)
Theorem grouping_totals (urlHostname : string -> option string) (clicks : list Click.t) :
  sumZ (map count (groupClicksByCountry clicks)) = Z.of_nat (List.length clicks) /\
  sumZ (map count (groupClicksByCity clicks)) = Z.of_nat (List.length clicks) /\
  (sumZ (map count (generateTopReferers urlHostname clicks))
     <= Z.of_nat (List.length clicks))%Z /\
  (List.length (tally (refererLabel urlHostname) clicks) <= 10 ->
   sumZ (map count (generateTopReferers urlHostname clicks))
     = Z.of_nat (List.length clicks)).
Proof.
  split; [apply (grouped_total countryLabel)|].
  split; [apply (grouped_total cityLabel)|].
  change (generateTopReferers urlHostname clicks)
    with (firstn 10 (js_sort byCountDesc
                       (toNameCounts (tally (refererLabel urlHostname) clicks)))).
  pose proof (grouped_total (refererLabel urlHostname) clicks) as Htotal.
  destruct (grouped_spec (refererLabel urlHostname) clicks) as (_ & _ & Hcount & _).
  set (full := js_sort byCountDesc
                 (toNameCounts (tally (refererLabel urlHostname) clicks))) in *.
  split.
  - rewrite <- Htotal.
    assert (Hs : sumZ (map count full) =
                 (sumZ (map count (firstn 10 full)) +
                  sumZ (map count (skipn 10 full)))%Z)
      by (now rewrite <- sumZ_app, <- map_app, firstn_skipn).
    rewrite Hs.
    assert (Hnonneg : forall l, (forall e, In e l -> In e full) ->
                                (0 <= sumZ (map count l))%Z).
    { induction l as [|e l IH]; simpl; intros Hl; [lia|].
      pose proof (Hcount e (Hl e (or_introl eq_refl))).
      assert (0 <= sumZ (map count l))%Z by (apply IH; intros; apply Hl; now right).
      lia. }
    assert (Hsub : forall e, In e (skipn 10 full) -> In e full).
    { intros e He. rewrite <- (firstn_skipn 10 full). apply in_app_iff. now right. }
    pose proof (Hnonneg (skipn 10 full) Hsub) as H.
    lia.
  - intros Hfew. rewrite firstn_all2; [assumption|].
    unfold full. rewrite <- (Permutation_length (js_sort_perm byCountDesc _)).
    unfold toNameCounts, JsMap.entries. now rewrite length_map.
Qed.

Lemma truthy_filter (o : option string) :
  match truthy o with Some s => [s] | None => [] end =
  filter (fun s => negb (String.eqb s EmptyString)) [str_or o EmptyString].
Proof.
  unfold truthy, str_or. destruct o as [x|]; [|reflexivity].
  destruct (String.eqb x "") eqn:E; simpl; [reflexivity|]. now rewrite E.
Qed.

Lemma formatLocation_parts (location : LocationData.t) :
  formatLocation location =
  str_or (Some (join ", "
                  (filter (fun s => negb (String.eqb s EmptyString))
                     [str_or (LocationData.city location) EmptyString;
                      str_or (LocationData.region location) EmptyString;
                      str_or (LocationData.country location) EmptyString])))
         "Unknown Location".
Proof.
  unfold formatLocation.
  change [str_or (LocationData.city location) EmptyString;
          str_or (LocationData.region location) EmptyString;
          str_or (LocationData.country location) EmptyString]
    with ([str_or (LocationData.city location) EmptyString] ++
          [str_or (LocationData.region location) EmptyString] ++
          [str_or (LocationData.country location) EmptyString]).
  rewrite !filter_app, <- !truthy_filter.
  destruct (truthy (LocationData.city location)),
           (truthy (LocationData.region location)),
           (truthy (LocationData.country location)); reflexivity.
Qed.

Lemma join_nonempty (sep : string) (parts : list string) :
  parts <> [] -> Forall (fun s => s <> EmptyString) parts ->
  join sep parts <> EmptyString.
Proof.
  intros Hne Hall. destruct parts as [|p rest]; [congruence|].
  inversion Hall as [|? ? Hp _]; subst.
  destruct rest; simpl; [assumption|]. destruct p; [congruence | discriminate].
Qed.

(** X12.  [formatLocation] never returns the empty string.  Of the city,
    the region and the country it keeps those that are present and not
    empty, in that order: with none it returns [Unknown Location], otherwise
    it returns them separated by a comma and a space. *)
Theorem formatLocation_spec (location : LocationData.t) :
  let parts :=
    filter (fun s => negb (String.eqb s EmptyString))
      [str_or (LocationData.city location) EmptyString;
       str_or (LocationData.region location) EmptyString;
       str_or (LocationData.country location) EmptyString] in
  formatLocation location <> EmptyString /\
  (parts = [] -> formatLocation location = "Unknown Location") /\
  (parts <> [] -> formatLocation location = join ", " parts).
Proof.
  intros parts. rewrite formatLocation_parts. fold parts.
  assert (Hall : Forall (fun s => s <> EmptyString) parts).
  { rewrite Forall_forall. intros s Hs. apply filter_In in Hs.
    destruct Hs as [_ Hs]. now apply negb_true_iff, String.eqb_neq in Hs. }
  destruct parts as [|p rest] eqn:E.
  - simpl. repeat split; try discriminate. congruence.
  - assert (Hj : join ", " (p :: rest) <> EmptyString)
      by (apply join_nonempty; [discriminate | assumption]).
    assert (Hor : str_or (Some (join ", " (p :: rest))) "Unknown Location"
                  = join ", " (p :: rest)).
    { unfold str_or. apply String.eqb_neq in Hj. now rewrite Hj. }
    rewrite Hor. repeat split; auto. discriminate.
Qed.

(** * Properties of the client address *)

(** ** What the address pattern matches *)

Lemma octet_match (s rest : string) :
  In rest (matchAt (Rep 1 3 (Class isDigit)) s) ->
  exists ds, s = String.append ds rest /\ isOctetText ds = true.
Proof.
  unfold isOctetText.
  destruct s as [|c1 s]; [simpl; tauto|].
  simpl. destruct (isDigit c1) eqn:E1; [|simpl; tauto].
  simpl. destruct s as [|c2 s]; simpl.
  - intros [<- | []]. exists (String c1 ""). simpl. now rewrite E1.
  - destruct (isDigit c2) eqn:E2; simpl.
    + destruct s as [|c3 s]; simpl.
      * intros [<- | [<- | []]].
        -- exists (String c1 ""). simpl. now rewrite E1.
        -- exists (String c1 (String c2 "")). simpl. now rewrite E1, E2.
      * destruct (isDigit c3) eqn:E3; simpl.
        -- intros [<- | [<- | [<- | []]]].
           ++ exists (String c1 ""). simpl. now rewrite E1.
           ++ exists (String c1 (String c2 "")). simpl. now rewrite E1, E2.
           ++ exists (String c1 (String c2 (String c3 ""))). simpl. now rewrite E1, E2, E3.
        -- intros [<- | [<- | []]].
           ++ exists (String c1 ""). simpl. now rewrite E1.
           ++ exists (String c1 (String c2 "")). simpl. now rewrite E1, E2.
    + intros [<- | []]. exists (String c1 ""). simpl. now rewrite E1.
Qed.

Lemma matchAt_Seq r1 r2 s rest :
  In rest (matchAt (Seq r1 r2) s) <->
  exists mid, In mid (matchAt r1 s) /\ In rest (matchAt r2 mid).
Proof. simpl. apply in_flat_map. Qed.

Lemma matchAt_Rep_3_3 r s rest :
  In rest (matchAt (Rep 3 3 r) s) <->
  exists m1 m2, In m1 (matchAt r s) /\ In m2 (matchAt r m1) /\ In rest (matchAt r m2).
Proof.
  change (matchAt (Rep 3 3 r) s)
    with (flat_map (matchAt r) (flat_map (matchAt r) (flat_map (matchAt r) [s])) ++ []).
  rewrite app_nil_r.
  assert (H1 : forall x, In x (flat_map (matchAt r) [s]) <-> In x (matchAt r s)).
  { intros x. cbn [flat_map]. now rewrite app_nil_r. }
  split.
  - intros H. apply in_flat_map in H. destruct H as (m2 & Hm2 & Hrest).
    apply in_flat_map in Hm2. destruct Hm2 as (m1 & Hm1 & Hm2).
    apply H1 in Hm1. eauto.
  - intros (m1 & m2 & Hm1 & Hm2 & Hrest). apply in_flat_map. exists m2.
    split; [|assumption]. apply in_flat_map. exists m1. split; [|assumption].
    now apply H1.
Qed.

Lemma matchAt_dot s rest :
  In rest (matchAt (Class (Ascii.eqb "."%char)) s) <-> s = String "."%char rest.
Proof.
  destruct s as [|c s]; cbn [matchAt]; [simpl; split; [tauto | discriminate]|].
  destruct (Ascii.eqb_spec "."%char c) as [<- | Hne]; cbn [In].
  - split; [intros [-> | []]; reflexivity | intros [= ->]; now left].
  - split; [tauto | intros [= -> _]; congruence].
Qed.

(** An octet text matches [\d{1,3}] whatever follows it. *)
Lemma octet_match_intro (ds rest : string) :
  isOctetText ds = true ->
  In rest (matchAt (Rep 1 3 (Class isDigit)) (String.append ds rest)).
Proof.
  unfold isOctetText.
  destruct ds as [|c1 [|c2 [|c3 [|c4 ds]]]]; simpl; try discriminate;
    rewrite ?andb_true_r; intros H.
  - rewrite H. simpl. now left.
  - apply andb_true_iff in H. destruct H as [H1 H2].
    rewrite H1. simpl. rewrite H2. simpl. right. now left.
  - apply andb_true_iff in H. destruct H as [H1 H].
    apply andb_true_iff in H. destruct H as [H2 H3].
    rewrite H1. simpl. rewrite H2. simpl. rewrite H3. simpl. right. right. now left.
Qed.

Lemma append_empty_r (s : string) : String.append s EmptyString = s.
Proof. induction s as [|c s IH]; simpl; congruence. Qed.

Lemma test_ipv4Regex_iff (ip : string) :
  test ipv4Regex ip = true <->
  exists d1 d2 d3 d4,
    ip = dotted d1 d2 d3 d4 /\
    Forall (fun d => isOctetText d = true) [d1; d2; d3; d4].
Proof.
  unfold test, ipv4Regex. rewrite existsb_exists. split.
  - intros (x & Hx & Ex). apply String.eqb_eq in Ex. subst x.
    apply matchAt_Seq in Hx. destruct Hx as (mid & Hmid & H4).
    apply matchAt_Rep_3_3 in Hmid. destruct Hmid as (m1 & m2 & H1 & H2 & H3).
    apply matchAt_Seq in H1, H2, H3.
    destruct H1 as (x1 & H1 & D1), H2 as (x2 & H2 & D2), H3 as (x3 & H3 & D3).
    apply matchAt_dot in D1, D2, D3. subst x1 x2 x3.
    apply octet_match in H1, H2, H3, H4.
    destruct H1 as (d1 & -> & O1), H2 as (d2 & -> & O2),
             H3 as (d3 & -> & O3), H4 as (d4 & -> & O4).
    exists d1, d2, d3, d4. rewrite append_empty_r. split; [reflexivity|].
    repeat constructor; assumption.
  - intros (d1 & d2 & d3 & d4 & -> & Hall).
    inversion Hall as [|? ? O1 Hall1]; subst. inversion Hall1 as [|? ? O2 Hall2]; subst.
    inversion Hall2 as [|? ? O3 Hall3]; subst. inversion Hall3 as [|? ? O4 _]; subst.
    exists EmptyString. split; [|reflexivity].
    apply matchAt_Seq. exists d4. split.
    + apply matchAt_Rep_3_3.
      exists (String.append d2 (String "."%char (String.append d3 (String "."%char d4)))),
             (String.append d3 (String "."%char d4)).
      repeat split; apply matchAt_Seq; eexists; (split;
        [apply octet_match_intro; assumption | now apply matchAt_dot]).
    + rewrite <- (append_empty_r d4) at 1. now apply octet_match_intro.
Qed.

Lemma isDigit_not_dot c : isDigit c = true -> Ascii.eqb c "."%char = false.
Proof.
  intros H. destruct (Ascii.eqb_spec c "."%char) as [-> | _]; [|reflexivity].
  discriminate H.
Qed.

Lemma split_octet (d rest : string) :
  isOctetText d = true ->
  split "."%char (String.append d (String "."%char rest)) = d :: split "."%char rest /\
  split "."%char d = [d].
Proof.
  unfold isOctetText. intros H. apply andb_true_iff in H. destruct H as [_ H].
  induction d as [|c d IH]; simpl.
  - auto.
  - simpl in H. apply andb_true_iff in H. destruct H as [Hc H].
    rewrite (isDigit_not_dot c Hc). destruct (IH H) as [-> ->]. auto.
Qed.

Lemma split_dotted (d1 d2 d3 d4 : string) :
  Forall (fun d => isOctetText d = true) [d1; d2; d3; d4] ->
  split "."%char (dotted d1 d2 d3 d4) = [d1; d2; d3; d4].
Proof.
  intros Hall.
  inversion Hall as [|? ? O1 Hall1]; subst. inversion Hall1 as [|? ? O2 Hall2]; subst.
  inversion Hall2 as [|? ? O3 Hall3]; subst. inversion Hall3 as [|? ? O4 _]; subst.
  unfold dotted.
  rewrite (proj1 (split_octet d1 _ O1)), (proj1 (split_octet d2 _ O2)),
          (proj1 (split_octet d3 _ O3)), (proj2 (split_octet d4 EmptyString O4)).
  reflexivity.
Qed.

Lemma parseInt10_digit c s :
  isDigit c = true -> parseInt10 (String c s) = Some (digitsValue 0 (String c s)).
Proof.
  intros H.
  destruct c as [[] [] [] [] [] [] [] []];
    try (vm_compute in H; discriminate H); reflexivity.
Qed.

Lemma parseInt10_octet d :
  isOctetText d = true -> parseInt10 d = Some (digitsValue 0 d) /\ (0 <= digitsValue 0 d)%Z.
Proof.
  unfold isOctetText. intros H. apply andb_true_iff in H. destruct H as [Hlen H].
  destruct d as [|c d]; [discriminate|]. simpl in H.
  apply andb_true_iff in H. destruct H as [Hc H].
  split; [now apply parseInt10_digit|].
  assert (Hnn : forall s acc, (0 <= acc)%Z -> (0 <= digitsValue acc s)%Z).
  { induction s as [|c' s IH]; cbn [digitsValue]; intros acc Hacc; [assumption|].
    destruct (isDigit c') eqn:E; [|assumption]. apply IH.
    unfold isDigit in E. cbv zeta in E. apply andb_true_iff in E.
    destruct E as [E _]. apply Nat.leb_le in E. lia. }
  now apply Hnn.
Qed.

(** X13.  [isValidIP] accepts exactly the dotted quads: four texts of one
    to three decimal digits, joined by dots, each of value at most 255. *)
Theorem isValidIP_iff (ip : string) :
  isValidIP ip = true <->
  exists d1 d2 d3 d4,
    ip = dotted d1 d2 d3 d4 /\
    Forall (fun d => isOctetText d = true /\ (digitsValue 0 d <= 255)%Z)
      [d1; d2; d3; d4].
Proof.
  unfold isValidIP. rewrite andb_true_iff, test_ipv4Regex_iff.
  assert (Hpart : forall d, isOctetText d = true ->
            (match parseInt10 d with
             | Some num => (0 <=? num)%Z && (num <=? 255)%Z
             | None => false
             end = true <-> (digitsValue 0 d <= 255)%Z)).
  { intros d Hd. destruct (parseInt10_octet d Hd) as [-> Hnn].
    rewrite andb_true_iff, !Z.leb_le. tauto. }
  split.
  - intros [(d1 & d2 & d3 & d4 & -> & Hall) Hevery].
    rewrite (split_dotted _ _ _ _ Hall) in Hevery.
    exists d1, d2, d3, d4. split; [reflexivity|].
    rewrite forallb_forall in Hevery. rewrite Forall_forall in Hall |- *.
    intros d Hd. split; [now apply Hall|].
    apply Hpart; [now apply Hall | now apply Hevery].
  - intros (d1 & d2 & d3 & d4 & -> & Hall).
    assert (Hoct : Forall (fun d => isOctetText d = true) [d1; d2; d3; d4])
      by (eapply Forall_impl; [|exact Hall]; simpl; tauto).
    split; [eauto 10|].
    rewrite (split_dotted _ _ _ _ Hoct). apply forallb_forall.
    rewrite Forall_forall in Hall. intros d Hd. destruct (Hall d Hd) as [Ho Hv].
    now apply Hpart.
Qed.

(** ** Private ranges and the address the service works with *)

Lemma numEq_inject (a n : Z) : numEq (Some (inject_Z a)) n = Z.eqb a n.
Proof.
  unfold numEq.
  destruct (Z.eqb_spec a n) as [-> | Hne].
  - apply Qeq_bool_iff. reflexivity.
  - destruct (Qeq_bool (inject_Z a) (inject_Z n)) eqn:E; [|reflexivity].
    apply Qeq_bool_iff in E. unfold Qeq in E. simpl in E. lia.
Qed.

Lemma numGe_inject (a n : Z) : numGe (Some (inject_Z a)) n = Z.leb n a.
Proof.
  unfold numGe. destruct (Z.leb_spec n a) as [H | H].
  - apply Qle_bool_iff. unfold Qle. simpl. lia.
  - destruct (Qle_bool (inject_Z n) (inject_Z a)) eqn:E; [|reflexivity].
    apply Qle_bool_iff in E. unfold Qle in E. simpl in E. lia.
Qed.

Lemma numLe_inject (a n : Z) : numLe (Some (inject_Z a)) n = Z.leb a n.
Proof.
  unfold numLe. destruct (Z.leb_spec a n) as [H | H].
  - apply Qle_bool_iff. unfold Qle. simpl. lia.
  - destruct (Qle_bool (inject_Z a) (inject_Z n)) eqn:E; [|reflexivity].
    apply Qle_bool_iff in E. unfold Qle in E. simpl in E. lia.
Qed.

Section ClientAddressFacts.

Variable toNumber : string -> option Q.

(** What the code relies on of [Number]: a text of one to three decimal
    digits converts to the number it writes. *)
Hypothesis toNumber_octet :
  forall s, isOctetText s = true -> toNumber s = Some (inject_Z (digitsValue 0 s)).

Lemma isPrivateIP_dotted (d1 d2 d3 d4 : string) :
  Forall (fun d => isOctetText d = true) [d1; d2; d3; d4] ->
  isPrivateIP toNumber (dotted d1 d2 d3 d4) =
  inPrivateRange (digitsValue 0 d1) (digitsValue 0 d2).
Proof.
  intros Hall. unfold isPrivateIP. rewrite (split_dotted _ _ _ _ Hall).
  inversion Hall as [|? ? O1 Hall1]; subst. inversion Hall1 as [|? ? O2 _]; subst.
  cbn [map nth_error]. rewrite (toNumber_octet _ O1), (toNumber_octet _ O2).
  now rewrite !numEq_inject, numGe_inject, numLe_inject.
Qed.

(** X14.  An address [isValidIP] accepts is a dotted quad, and on it
    [isPrivateIP] holds exactly when the first octet is 10 or 127, or the
    first two are 172 and 16 to 31, or 192 and 168. *)
Theorem isPrivateIP_ranges (ip : string) :
  isValidIP ip = true ->
  exists d1 d2 d3 d4,
    ip = dotted d1 d2 d3 d4 /\
    isPrivateIP toNumber ip = inPrivateRange (digitsValue 0 d1) (digitsValue 0 d2).
Proof.
  unfold isValidIP. intros H. apply andb_true_iff in H. destruct H as [H _].
  apply test_ipv4Regex_iff in H. destruct H as (d1 & d2 & d3 & d4 & -> & Hall).
  exists d1, d2, d3, d4. split; [reflexivity|]. now apply isPrivateIP_dotted.
Qed.

Lemma getClientIP_loop_sound headers names ip :
  getClientIP_loop toNumber headers names = Some ip ->
  isValidIP ip = true /\ isPrivateIP toNumber ip = false /\
  exists header value,
    In header names /\ truthy (headers header) = Some value /\
    ip = trim (hd EmptyString (split ","%char value)).
Proof.
  induction names as [|header rest IH]; simpl; [discriminate|].
  destruct (truthy (headers header)) as [value|] eqn:Hv.
  - destruct (isValidIP _ && negb (isPrivateIP toNumber _)) eqn:E.
    + intros [= <-]. apply andb_true_iff in E. destruct E as [E1 E2].
      apply negb_true_iff in E2. repeat split; auto. exists header, value. auto.
    + intros H. destruct (IH H) as (H1 & H2 & h & v & Hin & Hh & Hip).
      repeat split; auto. exists h, v. auto.
  - intros H. destruct (IH H) as (H1 & H2 & h & v & Hin & Hh & Hip).
    repeat split; auto. exists h, v. auto.
Qed.

Lemma getClientIP_loop_none headers names :
  getClientIP_loop toNumber headers names = None <->
  forall header value,
    In header names -> truthy (headers header) = Some value ->
    let ip := trim (hd EmptyString (split ","%char value)) in
    isValidIP ip && negb (isPrivateIP toNumber ip) = false.
Proof.
  induction names as [|header rest IH]; simpl.
  - split; [intros _ h v [] | reflexivity].
  - destruct (truthy (headers header)) as [value|] eqn:Hv.
    + destruct (isValidIP _ && negb (isPrivateIP toNumber _)) eqn:E.
      * split; [discriminate|]. intros H.
        specialize (H header value (or_introl eq_refl) Hv). simpl in H. congruence.
      * rewrite IH. split.
        -- intros H h v [<- | Hin] Hh; [|exact (H h v Hin Hh)].
           rewrite Hv in Hh. injection Hh as <-. exact E.
        -- intros H h v Hin Hh. exact (H h v (or_intror Hin) Hh).
    + rewrite IH. split.
      * intros H h v [<- | Hin] Hh; [congruence | exact (H h v Hin Hh)].
      * intros H h v Hin Hh. exact (H h v (or_intror Hin) Hh).
Qed.

Lemma getClientIP_loop_first headers pre header post value :
  truthy (headers header) = Some value ->
  (let ip := trim (hd EmptyString (split ","%char value)) in
   isValidIP ip && negb (isPrivateIP toNumber ip) = true) ->
  (forall h v,
     In h pre -> truthy (headers h) = Some v ->
     let ip := trim (hd EmptyString (split ","%char v)) in
     isValidIP ip && negb (isPrivateIP toNumber ip) = false) ->
  getClientIP_loop toNumber headers (pre ++ header :: post) =
    Some (trim (hd EmptyString (split ","%char value))).
Proof.
  intros Hv Hok. induction pre as [|h pre IH]; intros Hpre.
  - cbn [app getClientIP_loop]. rewrite Hv. cbv zeta in Hok |- *. now rewrite Hok.
  - cbn [app getClientIP_loop].
    destruct (truthy (headers h)) as [v|] eqn:Hh.
    + pose proof (Hpre h v (or_introl eq_refl) Hh) as E. cbv zeta in E |- *.
      rewrite E. apply IH. intros h' v' Hin. exact (Hpre h' v' (or_intror Hin)).
    + apply IH. intros h' v' Hin. exact (Hpre h' v' (or_intror Hin)).
Qed.

(** X15.  Whatever the request headers, [getClientIP] returns an address
    that [isValidIP] accepts and [isPrivateIP] rejects.  The candidate of a
    header is the first comma-separated item of its value, trimmed.  The
    result is the candidate of the first of the seven headers, in their
    order of priority, whose candidate is valid and not private; and it is
    [8.8.8.8] when no header has such a candidate. *)
Theorem getClientIP_public (headers : string -> option string) :
  isValidIP (getClientIP toNumber headers) = true /\
  isPrivateIP toNumber (getClientIP toNumber headers) = false /\
  (forall pre header post value,
     possibleHeaders = pre ++ header :: post ->
     truthy (headers header) = Some value ->
     (let ip := trim (hd EmptyString (split ","%char value)) in
      isValidIP ip && negb (isPrivateIP toNumber ip) = true) ->
     (forall h v,
        In h pre -> truthy (headers h) = Some v ->
        let ip := trim (hd EmptyString (split ","%char v)) in
        isValidIP ip && negb (isPrivateIP toNumber ip) = false) ->
     getClientIP toNumber headers = trim (hd EmptyString (split ","%char value))) /\
  ((forall header value,
      In header possibleHeaders -> truthy (headers header) = Some value ->
      let ip := trim (hd EmptyString (split ","%char value)) in
      isValidIP ip && negb (isPrivateIP toNumber ip) = false) ->
   getClientIP toNumber headers = "8.8.8.8").
Proof.
  split; [|split; [|split]].
  - unfold getClientIP.
    destruct (getClientIP_loop toNumber headers possibleHeaders) as [ip|] eqn:Hloop.
    + now destruct (getClientIP_loop_sound _ _ _ Hloop) as (Hv & _).
    + reflexivity.
  - unfold getClientIP.
    destruct (getClientIP_loop toNumber headers possibleHeaders) as [ip|] eqn:Hloop.
    + now destruct (getClientIP_loop_sound _ _ _ Hloop) as (_ & Hp & _).
    + change "8.8.8.8" with (dotted "8" "8" "8" "8").
      rewrite isPrivateIP_dotted; [reflexivity|]. repeat constructor.
  - intros pre header post value Hsplit Hv Hok Hpre. unfold getClientIP.
    rewrite Hsplit.
    now rewrite (getClientIP_loop_first headers pre header post value Hv Hok Hpre).
  - intros Hnone. unfold getClientIP.
    apply (proj2 (getClientIP_loop_none headers possibleHeaders)) in Hnone.
    now rewrite Hnone.
Qed.

End ClientAddressFacts.

Lemma numberOfOctetText_octet s :
  isOctetText s = true -> numberOfOctetText s = Some (inject_Z (digitsValue 0 s)).
Proof. unfold numberOfOctetText. now intros ->. Qed.

Lemma isPrivateIP_ranges_witness :
  isValidIP "172.20.0.1" = true /\
  exists d1 d2 d3 d4,
    "172.20.0.1" = dotted d1 d2 d3 d4 /\
    isPrivateIP numberOfOctetText "172.20.0.1" =
      inPrivateRange (digitsValue 0 d1) (digitsValue 0 d2).
Proof.
  split; [reflexivity|].
  exact (isPrivateIP_ranges numberOfOctetText numberOfOctetText_octet
           "172.20.0.1" eq_refl).
Defined.

Lemma getClientIP_public_witness :
  getClientIP numberOfOctetText forwardedHeaders = "203.0.113.9" /\
  isValidIP (getClientIP numberOfOctetText forwardedHeaders) = true /\
  isPrivateIP numberOfOctetText (getClientIP numberOfOctetText forwardedHeaders) = false.
Proof.
  split; [reflexivity|].
  destruct (getClientIP_public numberOfOctetText numberOfOctetText_octet
              forwardedHeaders) as (Hv & Hp & _).
  split; [exact Hv | exact Hp].
Defined.

(** ** The sanitizers *)

Lemma sliceTo_length (n : nat) (s : string) : String.length (sliceTo n s) <= n.
Proof.
  unfold sliceTo. revert n. induction s as [|c s IH]; intros [|n]; cbn; try lia.
  specialize (IH n). lia.
Qed.

Lemma sliceTo_short (n : nat) (s : string) : String.length s <= n -> sliceTo n s = s.
Proof.
  unfold sliceTo. revert n. induction s as [|c s IH]; intros [|n]; cbn; intros H;
    try reflexivity; try lia.
  f_equal. apply IH. lia.
Qed.

Lemma sliceTo_chars (n : nat) (s : string) (c : ascii) :
  In c (list_ascii_of_string (sliceTo n s)) -> In c (list_ascii_of_string s).
Proof.
  unfold sliceTo. revert n. induction s as [|a s IH]; intros [|n]; cbn; try tauto.
  intros [H | H]; [now left | right; now apply (IH n)].
Qed.

Lemma sliceTo_empty (n : nat) (s : string) :
  sliceTo (S n) s = EmptyString -> s = EmptyString.
Proof. unfold sliceTo. destruct s; cbn; [reflexivity | discriminate]. Qed.

Lemma removeAll_chars (class : ascii -> bool) (s : string) (c : ascii) :
  In c (list_ascii_of_string (removeAll class s)) <->
  In c (list_ascii_of_string s) /\ class c = false.
Proof.
  induction s as [|a s IH]; cbn; [tauto|].
  destruct (class a) eqn:E; cbn; rewrite IH; split.
  - intros [H1 H2]. auto.
  - intros [[<- | H1] H2]; [congruence | auto].
  - intros [<- | [H1 H2]]; auto.
  - intros [[<- | H1] H2]; auto.
Qed.

Lemma removeAll_clean (class : ascii -> bool) (s : string) :
  (forall c, In c (list_ascii_of_string s) -> class c = false) -> removeAll class s = s.
Proof.
  induction s as [|a s IH]; cbn; intros H; [reflexivity|].
  rewrite (H a (or_introl eq_refl)). f_equal. apply IH. intros c Hc. apply H. now right.
Qed.

Lemma removeAll_empty (class : ascii -> bool) (s : string) :
  removeAll class s = EmptyString <->
  forall c, In c (list_ascii_of_string s) -> class c = true.
Proof.
  induction s as [|a s IH]; cbn; [tauto|].
  destruct (class a) eqn:E.
  - rewrite IH. split.
    + intros H c [<- | Hc]; auto.
    + intros H c Hc. apply H. now right.
  - split; [discriminate|]. intros H. specialize (H a (or_introl eq_refl)). congruence.
Qed.

Lemma truthy_cases (s : option string) :
  (truthy s = None /\ (s = None \/ s = Some EmptyString)) \/
  (exists x, truthy s = Some x /\ s = Some x /\ x <> EmptyString).
Proof.
  destruct s as [x|]; cbn; [|left; auto].
  destruct (String.eqb_spec x EmptyString) as [-> | Hne]; [left; auto|].
  right. exists x. auto.
Qed.

(** X16.  [sanitizeUserAgent] returns [Unknown] for a missing or empty user
    agent.  Otherwise its result holds characters of the user agent only,
    none of them an angle bracket or a quote; it has 500 characters at most;
    it is the user agent itself when that has no such character and no more
    than 500.  The result is empty exactly when the user agent is not empty
    and made of such characters only, and that is the only case in which
    sanitizing the result again changes it (into [Unknown]). *)
Theorem sanitizeUserAgent_spec (userAgent : option string) :
  let result := sanitizeUserAgent userAgent in
  (userAgent = None \/ userAgent = Some EmptyString -> result = "Unknown") /\
  String.length result <= 500 /\
  (forall c, In c (list_ascii_of_string result) -> isMarkupChar c = false) /\
  (forall ua, userAgent = Some ua -> ua <> EmptyString ->
     (forall c, In c (list_ascii_of_string result) -> In c (list_ascii_of_string ua)) /\
     (String.length ua <= 500 ->
      (forall c, In c (list_ascii_of_string ua) -> isMarkupChar c = false) ->
      result = ua)) /\
  (result = EmptyString <->
   exists ua, userAgent = Some ua /\ ua <> EmptyString /\
     forall c, In c (list_ascii_of_string ua) -> isMarkupChar c = true) /\
  sanitizeUserAgent (Some result) =
    (if String.eqb result EmptyString then "Unknown" else result).
Proof.
  intros result.
  assert (Hclean : forall c, In c (list_ascii_of_string result) -> isMarkupChar c = false).
  { subst result. unfold sanitizeUserAgent.
    destruct (truthy userAgent) as [ua|].
    - intros c Hc. apply sliceTo_chars in Hc. now apply removeAll_chars in Hc.
    - intros c Hc. cbn in Hc.
      repeat (destruct Hc as [<- | Hc]; [reflexivity|]). destruct Hc. }
  assert (Hlen : String.length result <= 500).
  { subst result. unfold sanitizeUserAgent.
    destruct (truthy userAgent) as [ua|]; [apply sliceTo_length | cbn; lia]. }
  split; [|split; [exact Hlen|split; [exact Hclean|split; [|split]]]].
  - subst result. unfold sanitizeUserAgent. now intros [-> | ->].
  - intros ua -> Hne. subst result. unfold sanitizeUserAgent. cbn [truthy].
    destruct (String.eqb_spec ua EmptyString) as [E | _]; [contradiction|]. split.
    + intros c Hc. apply sliceTo_chars in Hc. now apply removeAll_chars in Hc.
    + intros Hshort Hnone. rewrite (removeAll_clean _ _ Hnone). now apply sliceTo_short.
  - subst result. unfold sanitizeUserAgent.
    destruct (truthy_cases userAgent) as [[-> Hs] | (ua & -> & -> & Hne)].
    + split; [discriminate|]. intros (ua & E & Hne & _).
      destruct Hs as [Hs | Hs]; congruence.
    + split.
      * intros E. apply sliceTo_empty in E. exists ua.
        split; [reflexivity|]. split; [exact Hne|]. now apply removeAll_empty.
      * intros (ua' & [= <-] & _ & Hall).
        apply (proj2 (removeAll_empty isMarkupChar ua)) in Hall. now rewrite Hall.
  - unfold sanitizeUserAgent at 1. cbn [truthy].
    destruct (String.eqb result EmptyString); [reflexivity|].
    rewrite (removeAll_clean _ _ Hclean). now apply sliceTo_short.
Qed.

Lemma isAlnum_isCodeChar (c : ascii) : isAlnum c = true -> isCodeChar c = true.
Proof. unfold isCodeChar. now intros ->. Qed.

(** X17.  [sanitizeShortCode] returns a text of 20 characters at most, all
    of them letters, digits, underscores or hyphens taken from the code.  It
    returns the code itself exactly when the code is such a text, so it
    changes none of its own results, and no text of six letters and digits,
    which is what [generateShortCode] draws. *)
Theorem sanitizeShortCode_spec (code : string) :
  let result := sanitizeShortCode code in
  String.length result <= 20 /\
  (forall c, In c (list_ascii_of_string result) ->
     isCodeChar c = true /\ In c (list_ascii_of_string code)) /\
  (result = code <->
   String.length code <= 20 /\
   forall c, In c (list_ascii_of_string code) -> isCodeChar c = true) /\
  sanitizeShortCode result = result /\
  (isShortCode code = true -> result = code).
Proof.
  assert (Hchars : forall s c, In c (list_ascii_of_string (sanitizeShortCode s)) ->
            isCodeChar c = true /\ In c (list_ascii_of_string s)).
  { intros s c Hc. unfold sanitizeShortCode in Hc. apply sliceTo_chars in Hc.
    apply removeAll_chars in Hc. destruct Hc as [Hin Hcl].
    apply negb_false_iff in Hcl. auto. }
  assert (Hfix : forall s, String.length s <= 20 ->
            (forall c, In c (list_ascii_of_string s) -> isCodeChar c = true) ->
            sanitizeShortCode s = s).
  { intros s Hlen Hall. unfold sanitizeShortCode. rewrite removeAll_clean.
    - now apply sliceTo_short.
    - intros c Hc. apply negb_false_iff. now apply Hall. }
  intros result.
  assert (Hlen : String.length result <= 20) by apply sliceTo_length.
  split; [exact Hlen|]. split; [apply Hchars|]. split; [|split].
  - split.
    + intros E. rewrite <- E. split; [exact Hlen|]. intros c Hc. now apply Hchars in Hc.
    + intros [H1 H2]. now apply Hfix.
  - apply Hfix; [exact Hlen|]. intros c Hc. now apply Hchars in Hc.
  - unfold isShortCode. intros H. apply andb_true_iff in H. destruct H as [H6 Hall].
    apply Nat.eqb_eq in H6. rewrite forallb_forall in Hall.
    apply Hfix; [lia|]. intros c Hc. apply isAlnum_isCodeChar. now apply Hall.
Qed.

(** ** [getLocationFromIP] *)

Section GeolocationFacts.

Variable toNumber : string -> option Q.
Variable ipApi : string -> fetched IpApiData.t.
Variable ipapiCo : string -> fetched IpapiCoData.t.

(** Either the primary service has delivered a JSON body, or it has not. *)
Lemma ipApi_body_or_not (ip : string) :
  (exists status data, ipApi ip = Responded true status (inr data)) \/
  (forall status data, ipApi ip <> Responded true status (inr data)).
Proof.
  destruct (ipApi ip) as [e | [|] status [e | data]];
    try (right; discriminate).
  left. now exists status, data.
Qed.

Lemma getLocationFromIP_private ip :
  isPrivateIP toNumber ip = true ->
  getLocationFromIP toNumber ipApi ipapiCo ip =
    (LocationResult.mk false None (Some "Private IP address"), []).
Proof. unfold getLocationFromIP. now intros ->. Qed.

Lemma getLocationFromIP_answered ip status data :
  isPrivateIP toNumber ip = false ->
  ipApi ip = Responded true status (inr data) ->
  snd (getLocationFromIP toNumber ipApi ipapiCo ip) = [IpApi] /\
  (LocationResult.success (fst (getLocationFromIP toNumber ipApi ipapiCo ip)) = false
     <-> IpApiData.status data = Some "fail") /\
  (IpApiData.status data <> Some "fail" ->
   exists loc,
     fst (getLocationFromIP toNumber ipApi ipapiCo ip) =
       LocationResult.mk true (Some loc) None /\
     LocationData.query loc = IpApiData.query data /\
     LocationData.org loc = IpApiData.org data) /\
  (IpApiData.status data = Some "fail" ->
   fst (getLocationFromIP toNumber ipApi ipapiCo ip) =
     LocationResult.mk false None
       (Some (str_or (IpApiData.message data) "Failed to get location data"))).
Proof.
  intros Hpub Hans. unfold getLocationFromIP. rewrite Hpub, Hans. cbn [negb].
  destruct (IpApiData.status data) as [s|] eqn:Hs.
  - destruct (String.eqb_spec s "fail") as [-> | Hne]; cbn [fst snd LocationResult.success].
    + split; [reflexivity|]. split; [tauto|]. split; [congruence | reflexivity].
    + split; [reflexivity|]. split; [split; [discriminate | congruence]|].
      split; [|congruence]. intros _. eexists. split; [reflexivity|]. now cbn.
  - cbn [fst snd LocationResult.success]. split; [reflexivity|].
    split; [split; discriminate|]. split; [|discriminate].
    intros _. eexists. split; [reflexivity|]. now cbn.
Qed.

Lemma getLocationFromIP_unanswered ip :
  isPrivateIP toNumber ip = false ->
  (forall status data, ipApi ip <> Responded true status (inr data)) ->
  exists error,
    getLocationFromIP toNumber ipApi ipapiCo ip =
      (getLocationFromIP_catch ipapiCo ip error, [IpApi; IpapiCo]).
Proof.
  intros Hpub Hno. unfold getLocationFromIP. rewrite Hpub.
  destruct (ipApi ip) as [e | ok status json] eqn:Hans.
  - now exists e.
  - destruct ok; cbn [negb].
    + destruct json as [e | data]; [now exists e|].
      exfalso. now apply (Hno status data).
    + eexists. reflexivity.
Qed.

Lemma getLocationFromIP_catch_cases ip error :
  (exists status d,
     ipapiCo ip = Responded true status (inr d) /\
     getLocationFromIP_catch ipapiCo ip error =
       LocationResult.mk true
         (Some (LocationData.mk
                  (IpapiCoData.country_name d) (IpapiCoData.country_code d)
                  (IpapiCoData.region d) (IpapiCoData.city d)
                  (IpapiCoData.latitude d) (IpapiCoData.longitude d)
                  (IpapiCoData.org d) None (Some ip)))
         None) \/
  ((forall status d, ipapiCo ip <> Responded true status (inr d)) /\
   exists message,
     getLocationFromIP_catch ipapiCo ip error = LocationResult.mk false None (Some message)).
Proof.
  unfold getLocationFromIP_catch.
  destruct (ipapiCo ip) as [e | ok status json].
  - right. split; [discriminate | eexists; reflexivity].
  - destruct ok.
    + destruct json as [e | d].
      * right. split; [discriminate | eexists; reflexivity].
      * left. exists status, d. split; reflexivity.
    + right. split; [discriminate | eexists; reflexivity].
Qed.

(** X18.  Which services [getLocationFromIP] fetches from: none for an
    address [isPrivateIP] holds of; otherwise the primary one, and after it
    the fallback one exactly when the primary has delivered no JSON body
    (its fetch was rejected, its response was not [ok], or the body could
    not be read).  So an answer of the primary service is final, also when
    it reports [fail]. *)
Theorem getLocationFromIP_fetches (ip : string) :
  let calls := snd (getLocationFromIP toNumber ipApi ipapiCo ip) in
  (calls = [] <-> isPrivateIP toNumber ip = true) /\
  (calls = [IpApi] <->
   isPrivateIP toNumber ip = false /\
   exists status data, ipApi ip = Responded true status (inr data)) /\
  (calls = [IpApi; IpapiCo] <->
   isPrivateIP toNumber ip = false /\
   forall status data, ipApi ip <> Responded true status (inr data)).
Proof.
  intros calls. subst calls.
  destruct (isPrivateIP toNumber ip) eqn:Hp.
  - rewrite (getLocationFromIP_private ip Hp). cbn [snd].
    split; [tauto|]. split; split; try discriminate; intros [H _]; discriminate.
  - destruct (ipApi_body_or_not ip) as [(status & data & Hans) | Hno].
    + destruct (getLocationFromIP_answered ip status data Hp Hans) as (-> & _).
      split; [split; discriminate|]. split.
      * split; [|reflexivity]. intros _. split; [reflexivity|]. now exists status, data.
      * split; [discriminate|]. intros [_ H]. exfalso. now apply (H status data).
    + destruct (getLocationFromIP_unanswered ip Hp Hno) as (error & ->). cbn [snd].
      split; [split; discriminate|]. split.
      * split; [discriminate|]. intros [_ (s & d & H)]. exfalso. now apply (Hno s d).
      * split; [|reflexivity]. intros _. split; [reflexivity | exact Hno].
Qed.

(** X19.  What [getLocationFromIP] resolves to.  The result is well
    formed: a success carries a location and no error, a failure an error
    and no location.  It is a success exactly when the address is not
    private and either the primary service has delivered a body whose
    [status] is not [fail], or it has delivered none and the fallback
    service has delivered one.  A location from the fallback service has
    the address itself as its [query] and no [org]. *)
Theorem getLocationFromIP_result (ip : string) :
  let result := fst (getLocationFromIP toNumber ipApi ipapiCo ip) in
  ((LocationResult.success result = true /\
    LocationResult.location result <> None /\ LocationResult.error result = None) \/
   (LocationResult.success result = false /\
    LocationResult.location result = None /\ LocationResult.error result <> None)) /\
  (LocationResult.success result = true <->
   isPrivateIP toNumber ip = false /\
   ((exists status data,
       ipApi ip = Responded true status (inr data) /\
       IpApiData.status data <> Some "fail") \/
    ((forall status data, ipApi ip <> Responded true status (inr data)) /\
     exists status d, ipapiCo ip = Responded true status (inr d)))) /\
  (forall loc,
     (forall status data, ipApi ip <> Responded true status (inr data)) ->
     LocationResult.location result = Some loc ->
     LocationData.query loc = Some ip /\ LocationData.org loc = None).
Proof.
  intros result. subst result.
  destruct (isPrivateIP toNumber ip) eqn:Hp.
  - rewrite (getLocationFromIP_private ip Hp). cbn.
    split; [right; repeat split; discriminate|]. split.
    + split; [discriminate | intros [H _]; discriminate].
    + discriminate.
  - destruct (ipApi_body_or_not ip) as [(status & data & Hans) | Hno].
    + destruct (getLocationFromIP_answered ip status data Hp Hans)
        as (_ & Hfail & Hok & Hko).
      assert (Hd : IpApiData.status data = Some "fail" \/
                   IpApiData.status data <> Some "fail").
      { destruct (IpApiData.status data) as [s|]; [|right; discriminate].
        destruct (String.eqb_spec s "fail") as [-> | Hne]; [now left | right; congruence]. }
      destruct Hd as [Hd | Hd].
      * rewrite (Hko Hd). cbn. split; [right; repeat split; discriminate|]. split.
        -- split; [discriminate|]. intros [_ [(s & d & H1 & H2) | [H _]]].
           ++ rewrite Hans in H1. injection H1 as _ <-. contradiction.
           ++ exfalso. now apply (H status data).
        -- discriminate.
      * destruct (Hok Hd) as (loc & -> & _). cbn.
        split; [left; repeat split; discriminate|]. split.
        -- split; [|reflexivity]. intros _. split; [reflexivity|]. left.
           now exists status, data.
        -- intros loc' H. exfalso. now apply (H status data).
    + pose proof Hno as Hno'.
      destruct (getLocationFromIP_unanswered ip Hp Hno) as (error & ->). cbn [fst].
      destruct (getLocationFromIP_catch_cases ip error)
        as [(status & d & Hfb & ->) | (Hfb & message & ->)]; cbn.
      * split; [left; repeat split; discriminate|]. split.
        -- split; [|reflexivity]. intros _. split; [reflexivity|]. right.
           split; [exact Hno'|]. now exists status, d.
        -- intros loc _ [= <-]. now cbn.
      * split; [right; repeat split; discriminate|]. split.
        -- split; [discriminate|]. intros [_ [(s & d & H1 & _) | [_ (s & d & H)]]].
           ++ exfalso. now apply (Hno' s d).
           ++ exfalso. now apply (Hfb s d).
        -- discriminate.
Qed.

Lemma getClientIP_valid (headers : string -> option string) :
  isValidIP (getClientIP toNumber headers) = true.
Proof.
  unfold getClientIP.
  destruct (getClientIP_loop toNumber headers possibleHeaders) as [ip|] eqn:Hloop.
  - now destruct (getClientIP_loop_sound _ _ _ _ Hloop) as (Hv & _).
  - reflexivity.
Qed.

Lemma or_else_str_or (a b : option string) (d : string) :
  str_or (or_else a (or_else b None)) d = str_or (or_else a b) d.
Proof.
  unfold or_else, str_or, truthy. destruct a as [x|], b as [y|]; try reflexivity.
  - destruct (String.eqb x ""); [|reflexivity]. now destruct (String.eqb y "") eqn:E; rewrite ?E.
  - now destruct (String.eqb y "") eqn:E; rewrite ?E.
Qed.

Lemma formatLocation_country_only (country query : option string) :
  formatLocation
    (LocationData.mk country None None None None None None None query) =
  str_or country "Unknown Location".
Proof.
  unfold formatLocation.
  cbn [LocationData.city LocationData.region LocationData.country truthy].
  destruct (truthy_cases country) as [[-> [-> | ->]] | (x & -> & -> & Hx)];
    reflexivity.
Qed.

(** X21.  [getLocationFromHeaders] fills in two fields only: the country,
    which is the [cf-ipcountry] header when that is present and not empty,
    else the [x-country-code] header when that is, and is never the empty
    string; and the [query], an address [isValidIP] accepts.  So
    [formatLocation] renders its result as that country, or as
    [Unknown Location] when neither header names one. *)
Theorem getLocationFromHeaders_spec (headers : string -> option string) :
  let location := getLocationFromHeaders toNumber headers in
  LocationData.country location <> Some EmptyString /\
  (forall c, truthy (headers "cf-ipcountry") = Some c ->
     LocationData.country location = Some c) /\
  (truthy (headers "cf-ipcountry") = None ->
     LocationData.country location = truthy (headers "x-country-code")) /\
  (exists ip, LocationData.query location = Some ip /\ isValidIP ip = true) /\
  location =
    LocationData.mk (LocationData.country location) None None None None None None None
      (LocationData.query location) /\
  formatLocation location =
    str_or (LocationData.country location) "Unknown Location".
Proof.
  intros location. subst location. unfold getLocationFromHeaders.
  cbn [LocationData.country LocationData.query].
  set (cf := headers "cf-ipcountry"). set (xc := headers "x-country-code").
  assert (Hxc : or_else xc None = truthy xc).
  { unfold or_else. now destruct (truthy xc). }
  rewrite Hxc.
  split; [|split; [|split; [|split; [|split; [reflexivity|]]]]].
  - unfold or_else.
    destruct (truthy_cases cf) as [[-> _] | (x & -> & _ & Hx)]; [|congruence].
    destruct (truthy_cases xc) as [[-> _] | (x & -> & _ & Hx)]; congruence.
  - intros c Hc. unfold or_else. now rewrite Hc.
  - intros Hc. unfold or_else. now rewrite Hc.
  - eexists. split; [reflexivity | apply getClientIP_valid].
  - apply formatLocation_country_only.
Qed.

Section Composition.

Hypothesis toNumber_octet :
  forall s, isOctetText s = true -> toNumber s = Some (inject_Z (digitsValue 0 s)).

Lemma getClientIP_not_private (headers : string -> option string) :
  isPrivateIP toNumber (getClientIP toNumber headers) = false.
Proof.
  unfold getClientIP.
  destruct (getClientIP_loop toNumber headers possibleHeaders) as [ip|] eqn:Hloop.
  - now destruct (getClientIP_loop_sound _ _ _ _ Hloop) as (_ & Hp & _).
  - change "8.8.8.8" with (dotted "8" "8" "8" "8").
    rewrite (isPrivateIP_dotted toNumber toNumber_octet); [reflexivity|].
    repeat constructor.
Qed.

(** X20.  Looking up the address [getClientIP] returns always reaches the
    primary service: for no request does [getLocationFromIP] take its
    private-address exit, and the fallback service is fetched from only
    after the primary one. *)
Theorem getLocationFromIP_of_client (headers : string -> option string) :
  let calls :=
    snd (getLocationFromIP toNumber ipApi ipapiCo (getClientIP toNumber headers)) in
  calls = [IpApi] \/ calls = [IpApi; IpapiCo].
Proof.
  intros calls. subst calls.
  pose proof (getClientIP_not_private headers) as Hp.
  unfold getLocationFromIP. rewrite Hp.
  destruct (ipApi (getClientIP toNumber headers)) as [e | [|] status [e | data]];
    cbn [negb snd]; auto.
  destruct (match IpApiData.status data with
            | Some s => String.eqb s "fail"
            | None => false
            end); cbn [snd]; auto.
Qed.

End Composition.

End GeolocationFacts.

(** ** The redirect handler *)

Lemma addClick_history (click : Click.t) (st : Stores) :
  ClickStorage.getClicksForLink (Click.linkId click) (ClickStorage.addClick click st) =
    ClickStorage.getClicksForLink (Click.linkId click) st ++ [click] /\
  (forall other, other <> Click.linkId click ->
     ClickStorage.getClicksForLink other (ClickStorage.addClick click st) =
     ClickStorage.getClicksForLink other st).
Proof.
  unfold ClickStorage.addClick, ClickStorage.getClicksForLink.
  rewrite clicksStore_updateLinkClickCount. cbn [clicksStore]. split.
  - now rewrite JsMapFacts.get_set_eq.
  - intros other Hne. rewrite JsMapFacts.get_set_ne; [reflexivity | congruence].
Qed.

Lemma addClick_changes (click : Click.t) (st : Stores) :
  ClickStorage.addClick click st <> st.
Proof.
  intros E. destruct (addClick_history click st) as [H _]. rewrite E in H.
  apply (f_equal (@List.length Click.t)) in H. rewrite length_app in H. cbn in H. lia.
Qed.

Lemma findEntryById_of_get (st : Stores) (code : string) (link : Link.t) :
  counts_ok st ->
  JsMap.get code (linksStore st) = Some link ->
  findEntryById (Link.id link) (linksStore st) = Some (code, link).
Proof.
  intros [Hids _] Hget. apply JsMapFacts.get_In in Hget.
  destruct (findEntryById_live (Link.id link) (linksStore st)) as (k & l & Hfind);
    [now exists code, link|].
  destruct (findEntryById_Some _ _ _ _ Hfind) as [Hin Hid].
  rewrite Hfind. f_equal.
  apply (NoDup_map_eq (fun e => Link.id (snd e)) (linksStore st)); auto.
Qed.

Lemma addClick_counted (st : Stores) (code : string) (link : Link.t) (click : Click.t) :
  findEntryById (Click.linkId click) (linksStore st) = Some (code, link) ->
  LinkStorage.getLinkByShortCode code (ClickStorage.addClick click st) =
    Some (Link.with_clickCount (Link.clickCount link + 1)%Z link) /\
  (forall other, other <> code ->
     LinkStorage.getLinkByShortCode other (ClickStorage.addClick click st) =
     LinkStorage.getLinkByShortCode other st).
Proof.
  intros Hfind.
  unfold ClickStorage.addClick, LinkStorage.updateLinkClickCount,
    LinkStorage.getLinkByShortCode.
  cbn [linksStore clicksStore]. rewrite Hfind. cbn [linksStore]. split.
  - apply JsMapFacts.get_set_eq.
  - intros other Hne. apply JsMapFacts.get_set_ne. congruence.
Qed.

Lemma truthy_idem (s : option string) : truthy (truthy s) = truthy s.
Proof.
  destruct (truthy_cases s) as [[-> _] | (x & -> & _ & Hx)]; [reflexivity|].
  cbn [truthy]. apply String.eqb_neq in Hx. now rewrite Hx.
Qed.

Lemma sanitizeUserAgent_truthy (s : option string) :
  sanitizeUserAgent (truthy s) = sanitizeUserAgent s.
Proof. unfold sanitizeUserAgent. now rewrite truthy_idem. Qed.

Lemma sanitizeReferer_truthy urlParts (s : option string) :
  sanitizeReferer urlParts (truthy s) = sanitizeReferer urlParts s.
Proof. unfold sanitizeReferer. now rewrite truthy_idem. Qed.

Section ShortLinkFacts.

Variable toNumber : string -> option Q.
Variable urlParts : string -> option (string * string).
Variable redirectAccepts : string -> bool.

Lemma redirect_GET_cases clickId now shortCode headers st :
  (exists link,
     shortCode <> EmptyString /\
     LinkStorage.getLinkByShortCode shortCode st = Some link /\
     Link.isActive link = true /\
     ShortLinkRoute.GET toNumber urlParts redirectAccepts clickId now shortCode headers st =
       (if redirectAccepts (Link.originalUrl link)
        then ShortLinkRoute.mkRedirect
               (ShortLinkRoute.Absolute (Link.originalUrl link)) (Some 302%Z)
        else ShortLinkRoute.mkRedirect (ShortLinkRoute.OnSite "/") None,
        ClickStorage.addClick
          (requestClick toNumber urlParts clickId (Link.id link) now headers) st,
        Some (ShortLinkRoute.mkLookup (Link.id link) clickId
                (getClientIP toNumber headers)))) \/
  ((forall link,
      shortCode <> EmptyString ->
      LinkStorage.getLinkByShortCode shortCode st = Some link ->
      Link.isActive link = false) /\
   ShortLinkRoute.GET toNumber urlParts redirectAccepts clickId now shortCode headers st =
     (ShortLinkRoute.mkRedirect
        (ShortLinkRoute.OnSite
           (if String.eqb shortCode EmptyString then "/"
            else match LinkStorage.getLinkByShortCode shortCode st with
                 | None => "/?error=not-found"
                 | Some _ => "/?error=inactive"
                 end))
        None,
      st, None)).
Proof.
  unfold ShortLinkRoute.GET.
  destruct (String.eqb_spec shortCode EmptyString) as [E | E].
  - right. split; [intros link H; contradiction | reflexivity].
  - destruct (LinkStorage.getLinkByShortCode shortCode st) as [link|].
    + destruct (Link.isActive link) eqn:Hact; cbn [negb].
      * left. exists link. repeat split; auto.
        now destruct (redirectAccepts (Link.originalUrl link)).
      * right. split; [|reflexivity]. now intros l _ [= <-].
    + right. split; [discriminate | reflexivity].
Qed.

(** X22.  The redirect handler, whatever the stores.  It answers with a
    redirect off the site only for a short code that is not empty and
    resolves to an active link, to that link's [originalUrl] and with status
    302.  It records a click, and leaves a location lookup running, exactly
    for such a short code, also when the final redirect is refused and the
    answer is the home page; the click goes to the end of the history under
    the link's id, with the handler's id and time, the address
    [getClientIP] gives (one that [isValidIP] accepts), the sanitized user
    agent and no location.  For any other short code the stores are left as
    they are and the answer is a redirect on the site: to [/] for the empty
    code, [/?error=not-found] for an unknown one, [/?error=inactive] for an
    inactive link. *)
Theorem redirect_GET_spec (clickId : string) (now : Z) (shortCode : string)
    (headers : string -> option string) (st : Stores) :
  let out :=
    ShortLinkRoute.GET toNumber urlParts redirectAccepts clickId now shortCode headers st in
  let response := fst (fst out) in
  let st' := snd (fst out) in
  let pending := snd out in
  (forall u, ShortLinkRoute.url response = ShortLinkRoute.Absolute u ->
     ShortLinkRoute.status response = Some 302%Z /\
     exists link,
       shortCode <> EmptyString /\
       LinkStorage.getLinkByShortCode shortCode st = Some link /\
       Link.isActive link = true /\ Link.originalUrl link = u) /\
  (st' = st <-> pending = None) /\
  (pending = None <->
   forall link,
     shortCode <> EmptyString ->
     LinkStorage.getLinkByShortCode shortCode st = Some link ->
     Link.isActive link = false) /\
  (pending = None ->
   response =
     ShortLinkRoute.mkRedirect
       (ShortLinkRoute.OnSite
          (if String.eqb shortCode EmptyString then "/"
           else match LinkStorage.getLinkByShortCode shortCode st with
                | None => "/?error=not-found"
                | Some _ => "/?error=inactive"
                end))
       None) /\
  (forall l, pending = Some l ->
     exists link click,
       LinkStorage.getLinkByShortCode shortCode st = Some link /\
       l = ShortLinkRoute.mkLookup (Link.id link) clickId (Click.ip click) /\
       click = Click.mk clickId (Link.id link) now (getClientIP toNumber headers)
                 (sanitizeUserAgent (headers "user-agent"))
                 None None None None None None
                 (sanitizeReferer urlParts (headers "referer")) None None /\
       isValidIP (Click.ip click) = true /\
       st' = ClickStorage.addClick click st /\
       ClickStorage.getClicksForLink (Link.id link) st' =
         ClickStorage.getClicksForLink (Link.id link) st ++ [click] /\
       (forall other, other <> Link.id link ->
          ClickStorage.getClicksForLink other st' =
          ClickStorage.getClicksForLink other st) /\
       response =
         if redirectAccepts (Link.originalUrl link)
         then ShortLinkRoute.mkRedirect
                (ShortLinkRoute.Absolute (Link.originalUrl link)) (Some 302%Z)
         else ShortLinkRoute.mkRedirect (ShortLinkRoute.OnSite "/") None).
Proof.
  intros out response st' pending. subst response st' pending out.
  destruct (redirect_GET_cases clickId now shortCode headers st)
    as [(link & Hne & Hget & Hact & ->) | (Hnone & ->)]; cbn [fst snd].
  - split; [|split; [|split; [|split]]].
    + intros u. destruct (redirectAccepts (Link.originalUrl link));
        cbn [ShortLinkRoute.url ShortLinkRoute.status]; [|discriminate].
      intros [= <-]. split; [reflexivity|]. now exists link.
    + split; [|discriminate]. intros E. exfalso. exact (addClick_changes _ _ E).
    + split; [discriminate|]. intros H. specialize (H link Hne Hget). congruence.
    + discriminate.
    + intros l [= <-].
      exists link, (requestClick toNumber urlParts clickId (Link.id link) now headers).
      split; [exact Hget|]. split; [reflexivity|]. split.
      { unfold requestClick.
        now rewrite sanitizeUserAgent_truthy, sanitizeReferer_truthy. }
      split; [apply getClientIP_valid|]. split; [reflexivity|].
      destruct (addClick_history
                  (requestClick toNumber urlParts clickId (Link.id link) now headers) st)
        as [H1 H2].
      split; [exact H1|]. split; [exact H2 | reflexivity].
  - split; [|split; [|split; [|split]]].
    + cbn [ShortLinkRoute.url]. discriminate.
    + tauto.
    + tauto.
    + reflexivity.
    + discriminate.
Qed.

(** X23.  In every state reached by guarded calls, the redirect handler
    leaves such a state.  When the short code
    resolves to an active link, the link is afterwards registered under the
    same code with its [clickCount] raised by one, which is again the length
    of the history under its id, and every other short code resolves as
    before. *)
Theorem redirect_GET_counts (clickId : string) (now : Z) (shortCode : string)
    (headers : string -> option string) (st : Stores) :
  reachable true st ->
  let st' :=
    snd (fst (ShortLinkRoute.GET toNumber urlParts redirectAccepts
                clickId now shortCode headers st)) in
  reachable true st' /\
  (forall link,
     LinkStorage.getLinkByShortCode shortCode st = Some link ->
     Link.isActive link = true ->
     LinkStorage.getLinkByShortCode shortCode st' =
       Some (Link.with_clickCount (Link.clickCount link + 1)%Z link) /\
     (Link.clickCount link + 1)%Z =
       Z.of_nat (List.length (ClickStorage.getClicksForLink (Link.id link) st')) /\
     (forall other, other <> shortCode ->
        LinkStorage.getLinkByShortCode other st' =
        LinkStorage.getLinkByShortCode other st)).
Proof.
  intros Hreach st'. subst st'.
  pose proof (counts_ok_reachable st Hreach) as Hcounts.
  pose proof (codes_ok_reachable true st Hreach) as [_ Hcodes].
  destruct (redirect_GET_cases clickId now shortCode headers st)
    as [(link & Hne & Hget & Hact & ->) | (Hnone & ->)]; cbn [fst snd].
  - set (click := requestClick toNumber urlParts clickId (Link.id link) now headers).
    pose proof (findEntryById_of_get st shortCode link Hcounts Hget) as Hfind.
    split.
    + apply (reachable_step true st); [exact Hreach|].
      apply step_addClick. intros _. exists shortCode, link.
      split; [now apply JsMapFacts.get_In | reflexivity].
    + intros link' Hget' _. rewrite Hget in Hget'. injection Hget' as <-.
      destruct (addClick_counted st shortCode link click Hfind) as [H1 H2].
      split; [exact H1|]. split; [|exact H2].
      destruct (addClick_history click st) as [Hh _]. cbn [click requestClick Click.linkId] in Hh.
      fold click in Hh. rewrite Hh, length_app. cbn [List.length].
      destruct Hcounts as [_ Hall]. rewrite Forall_forall in Hall.
      destruct (findEntryById_Some _ _ _ _ Hfind) as [Hin _].
      pose proof (Hall _ Hin) as Hc. unfold count_ok in Hc. cbn [snd] in Hc. lia.
  - split; [exact Hreach|]. intros link Hget Hact.
    destruct (String.eqb_spec shortCode EmptyString) as [E | E].
    + exfalso. rewrite Forall_forall in Hcodes.
      apply JsMapFacts.get_In in Hget. destruct (Hcodes _ Hget) as [_ Hk]. now apply Hk.
    + specialize (Hnone link E Hget). congruence.
Qed.

(** X24.  [toggleLinkStatus] gates the redirect.  In every state reached
    by guarded calls, after the link a short code resolves to has been
    toggled, the code resolves to the same link with
    [isActive] negated.  If the link was active, the handler now answers
    [/?error=inactive] and records nothing; if it was inactive, the handler
    now records the click under the link's id. *)
Theorem toggleLinkStatus_gates_redirect (clickId : string) (now : Z) (shortCode : string)
    (headers : string -> option string) (st : Stores) (link : Link.t) :
  reachable true st ->
  LinkStorage.getLinkByShortCode shortCode st = Some link ->
  let toggled := LinkStorage.toggleLinkStatus (Link.id link) st in
  let out :=
    ShortLinkRoute.GET toNumber urlParts redirectAccepts
      clickId now shortCode headers (snd toggled) in
  fst toggled = true /\
  LinkStorage.getLinkByShortCode shortCode (snd toggled) =
    Some (Link.with_isActive (negb (Link.isActive link)) link) /\
  (Link.isActive link = true ->
   out = (ShortLinkRoute.mkRedirect (ShortLinkRoute.OnSite "/?error=inactive") None,
          snd toggled, None)) /\
  (Link.isActive link = false ->
   snd out = Some (ShortLinkRoute.mkLookup (Link.id link) clickId
                     (getClientIP toNumber headers)) /\
   ClickStorage.getClicksForLink (Link.id link) (snd (fst out)) =
     ClickStorage.getClicksForLink (Link.id link) st ++
     [requestClick toNumber urlParts clickId (Link.id link) now headers]).
Proof.
  intros Hreach Hget toggled out.
  pose proof (counts_ok_reachable st Hreach) as Hcounts.
  pose proof (codes_ok_reachable true st Hreach) as [_ Hcodes].
  pose proof (findEntryById_of_get st shortCode link Hcounts Hget) as Hfind.
  assert (Hne : shortCode <> EmptyString).
  { rewrite Forall_forall in Hcodes. apply JsMapFacts.get_In in Hget.
    now destruct (Hcodes _ Hget) as [_ Hk]. }
  assert (Htog : toggled =
            (true, mkStores
                     (JsMap.set shortCode
                        (Link.with_isActive (negb (Link.isActive link)) link)
                        (linksStore st))
                     (clicksStore st))).
  { unfold toggled, LinkStorage.toggleLinkStatus. now rewrite Hfind. }
  assert (Hget' : LinkStorage.getLinkByShortCode shortCode (snd toggled) =
                  Some (Link.with_isActive (negb (Link.isActive link)) link)).
  { rewrite Htog. unfold LinkStorage.getLinkByShortCode. cbn [snd linksStore].
    apply JsMapFacts.get_set_eq. }
  split; [now rewrite Htog|]. split; [exact Hget'|].
  destruct (redirect_GET_cases clickId now shortCode headers (snd toggled))
    as [(l & _ & Hl & Hact & E) | (Hnone & E)].
  - rewrite Hget' in Hl. injection Hl as <-. cbn [Link.isActive Link.with_isActive] in Hact.
    apply negb_true_iff in Hact. split; [congruence|]. intros _.
    unfold out. rewrite E. cbn [fst snd Link.id Link.with_isActive]. split; [reflexivity|].
    destruct (addClick_history
                (requestClick toNumber urlParts clickId (Link.id link) now headers)
                (snd toggled)) as [Hh _].
    cbn [requestClick Click.linkId] in Hh. rewrite Hh. f_equal.
    rewrite Htog. reflexivity.
  - specialize (Hnone _ Hne Hget'). cbn [Link.isActive Link.with_isActive] in Hnone.
    apply negb_false_iff in Hnone. split; [|congruence]. intros _.
    unfold out. rewrite E. apply String.eqb_neq in Hne. rewrite Hne, Hget'. reflexivity.
Qed.

(** X25.  A link can be followed as soon as it is created.  When
    [createLink], called with an id that no registered link has, returns a
    link, the redirect handler called with that link's short code records
    the link's first click: the history under the link's id is that one
    click, the link's [clickCount] is 1, and the answer is the redirect to
    the URL the link was created with (the home page if that URL is
    refused). *)
Theorem createLink_then_GET fuel newId created rnd originalUrl title description customCode
    (st st1 : Stores) (link : Link.t) (clickId : string) (now : Z)
    (headers : string -> option string) :
  (forall k, rnd k < String.length chars) ->
  (forall k l, In (k, l) (linksStore st) -> Link.id l <> newId) ->
  LinkStorage.createLink fuel newId created rnd originalUrl title description customCode st
    = Some (Returned link, st1) ->
  let out :=
    ShortLinkRoute.GET toNumber urlParts redirectAccepts
      clickId now (Link.shortCode link) headers st1 in
  fst (fst out) =
    (if redirectAccepts originalUrl
     then ShortLinkRoute.mkRedirect (ShortLinkRoute.Absolute originalUrl) (Some 302%Z)
     else ShortLinkRoute.mkRedirect (ShortLinkRoute.OnSite "/") None) /\
  LinkStorage.getLinkByShortCode (Link.shortCode link) (snd (fst out)) =
    Some (Link.with_clickCount 1%Z link) /\
  ClickStorage.getClicksForLink newId (snd (fst out)) =
    [requestClick toNumber urlParts clickId newId now headers] /\
  snd out = Some (ShortLinkRoute.mkLookup newId clickId (getClientIP toNumber headers)).
Proof.
  intros Hrnd Hfresh Hcreate out.
  destruct (createLink_Returned _ _ _ _ _ _ _ _ _ _ _ Hrnd Hcreate)
    as (code & Hfree & Hne & _ & Hlink & Hst1).
  assert (Hcode : Link.shortCode link = code) by now rewrite Hlink.
  assert (Hid : Link.id link = newId) by now rewrite Hlink.
  assert (Hget : LinkStorage.getLinkByShortCode code st1 = Some link).
  { rewrite Hst1. unfold LinkStorage.getLinkByShortCode. cbn [linksStore].
    apply JsMapFacts.get_set_eq. }
  assert (Hfind : findEntryById newId (linksStore st1) = Some (code, link)).
  { rewrite Hst1. cbn [linksStore]. rewrite (JsMapFacts.set_fresh _ _ _ Hfree).
    apply findEntryById_app_skip; [|exact Hid].
    rewrite Forall_forall. intros [k l] Hin. cbn [snd]. now apply (Hfresh k l). }
  unfold out. rewrite Hcode.
  destruct (redirect_GET_cases clickId now code headers st1)
    as [(l & _ & Hl & Hact & ->) | (Hnone & _)].
  - rewrite Hget in Hl. injection Hl as <-. cbn [fst snd]. rewrite Hid.
    set (click := requestClick toNumber urlParts clickId newId now headers).
    assert (Hurl : Link.originalUrl link = originalUrl) by now rewrite Hlink.
    rewrite Hurl. split; [reflexivity|].
    destruct (addClick_counted st1 code link click Hfind) as [H1 _].
    destruct (addClick_history click st1) as [Hh _]. cbn [click requestClick Click.linkId] in Hh.
    fold click in Hh.
    split; [|split; [|reflexivity]].
    + rewrite H1. f_equal. rewrite Hlink. reflexivity.
    + rewrite Hh. rewrite Hst1. unfold ClickStorage.getClicksForLink. cbn [clicksStore].
      now rewrite JsMapFacts.get_set_eq.
  - exfalso. specialize (Hnone link Hne Hget). rewrite Hlink in Hnone. discriminate.
Qed.

End ShortLinkFacts.

(** ** The redirect handler and its lookup *)

Lemma getLocationFromIP_located toNumber ipApi ipapiCo ip loc :
  LocationResult.location (fst (getLocationFromIP toNumber ipApi ipapiCo ip)) = Some loc ->
  LocationResult.success (fst (getLocationFromIP toNumber ipApi ipapiCo ip)) = true.
Proof.
  unfold getLocationFromIP, getLocationFromIP_catch.
  destruct (isPrivateIP toNumber ip); [discriminate|].
  destruct (ipApi ip) as [e | [|] status [e | data]]; cbn [negb];
    try (destruct (ipapiCo ip) as [e' | [|] status' [e' | d]]; cbn;
         first [discriminate | reflexivity]).
  destruct (match IpApiData.status data with
            | Some s => String.eqb s "fail"
            | None => false
            end); cbn; [discriminate | reflexivity].
Qed.

Lemma enrichClick_unlocated linkId clickId locationResult st :
  LocationResult.location locationResult = None ->
  enrichClick linkId clickId locationResult st = st.
Proof.
  unfold enrichClick. intros ->. now destruct (LocationResult.success locationResult).
Qed.

Lemma enrichClick_newest (click : Click.t) (loc : LocationData.t)
    (locationResult : LocationResult.t) (st : Stores) :
  LocationResult.success locationResult = true ->
  LocationResult.location locationResult = Some loc ->
  (forall c, In c (ClickStorage.getClicksForLink (Click.linkId click) st) ->
             Click.id c <> Click.id click) ->
  enrichClick (Click.linkId click) (Click.id click) locationResult
    (ClickStorage.addClick click st) =
  mkStores (linksStore (ClickStorage.addClick click st))
    (JsMap.set (Click.linkId click)
       (ClickStorage.getClicksForLink (Click.linkId click) st ++
        [Click.with_location loc click])
       (clicksStore (ClickStorage.addClick click st))).
Proof.
  intros Hok Hloc Hfresh.
  assert (Hold : forall y, In y (ClickStorage.getClicksForLink (Click.linkId click) st) ->
                 String.eqb (Click.id y) (Click.id click) = false).
  { intros y Hy. apply String.eqb_neq. now apply Hfresh. }
  destruct (find_app_last (fun c => String.eqb (Click.id c) (Click.id click))
              _ click Hold (String.eqb_refl _)) as [Hfind Hupd].
  destruct (addClick_history click st) as [H1 _].
  unfold enrichClick. rewrite Hok, Hloc, H1, Hfind. now rewrite Hupd.
Qed.

Section RedirectLookup.

Variable toNumber : string -> option Q.
Variable urlParts : string -> option (string * string).
Variable redirectAccepts : string -> bool.
Variable ipApi : string -> fetched IpApiData.t.
Variable ipapiCo : string -> fetched IpapiCoData.t.

(** X26.  The redirect handler followed by the callback of its lookup,
    for a short code that resolves to an active link none of whose clicks
    has the handler's click id.  The lookup is made for the address of the
    recorded click.  When it yields a location, the click at the end of the
    link's history is the recorded one with the eight location fields of
    that location; when it yields none, the callback changes nothing.
    Either way the registry, and so every [clickCount], and every other
    history are as the handler left them. *)
Theorem redirect_GET_settled (clickId : string) (now : Z) (shortCode : string)
    (headers : string -> option string) (st : Stores) (link : Link.t) :
  shortCode <> EmptyString ->
  LinkStorage.getLinkByShortCode shortCode st = Some link ->
  Link.isActive link = true ->
  (forall c, In c (ClickStorage.getClicksForLink (Link.id link) st) ->
             Click.id c <> clickId) ->
  let out :=
    ShortLinkRoute.GET toNumber urlParts redirectAccepts clickId now shortCode headers st in
  let click := requestClick toNumber urlParts clickId (Link.id link) now headers in
  let found :=
    LocationResult.location
      (fst (getLocationFromIP toNumber ipApi ipapiCo (Click.ip click))) in
  exists l,
    snd out = Some l /\
    ShortLinkRoute.ip l = Click.ip click /\
    let st2 := ShortLinkRoute.settle toNumber ipApi ipapiCo l (snd (fst out)) in
    linksStore st2 = linksStore (snd (fst out)) /\
    ClickStorage.getClicksForLink (Link.id link) st2 =
      ClickStorage.getClicksForLink (Link.id link) st ++
      [match found with
       | Some loc => Click.with_location loc click
       | None => click
       end] /\
    (found = None -> st2 = snd (fst out)) /\
    (forall other, other <> Link.id link ->
       ClickStorage.getClicksForLink other st2 =
       ClickStorage.getClicksForLink other st).
Proof.
  intros Hne Hget Hact Hfresh out click found.
  destruct (redirect_GET_cases toNumber urlParts redirectAccepts
              clickId now shortCode headers st)
    as [(l & _ & Hl & _ & E) | (Hnone & _)].
  2: { specialize (Hnone link Hne Hget). congruence. }
  rewrite Hget in Hl. injection Hl as <-.
  unfold out. rewrite E. cbn [fst snd]. fold click.
  eexists. split; [reflexivity|]. split; [reflexivity|].
  unfold ShortLinkRoute.settle.
  cbn [ShortLinkRoute.linkId ShortLinkRoute.clickId ShortLinkRoute.ip].
  change (getClientIP toNumber headers) with (Click.ip click).
  destruct (addClick_history click st) as [H1 H2].
  cbn [click requestClick Click.linkId] in H1, H2. fold click in H1, H2.
  split; [apply linksStore_enrichClick|].
  destruct found as [loc|] eqn:Hfound; unfold found in Hfound.
  - pose proof (getLocationFromIP_located _ _ _ _ _ Hfound) as Hok.
    pose proof (enrichClick_newest click loc _ st Hok Hfound) as Hnew.
    cbn [click requestClick Click.linkId Click.id] in Hnew. fold click in Hnew.
    rewrite (Hnew Hfresh).
    unfold ClickStorage.getClicksForLink at 1. cbn [clicksStore].
    rewrite JsMapFacts.get_set_eq. split; [reflexivity|]. split; [discriminate|].
    intros other Hother. unfold ClickStorage.getClicksForLink at 1. cbn [clicksStore].
    rewrite JsMapFacts.get_set_ne by congruence. now apply H2.
  - rewrite (enrichClick_unlocated _ _ _ _ Hfound).
    split; [exact H1|]. split; [reflexivity|]. exact H2.
Qed.

End RedirectLookup.

(** ** The handlers of a link *)

Lemma filed_ok_reachable guarded st : reachable guarded st -> filed_ok st.
Proof.
  induction 1 as [|st st' _ IH Hstep]; [intros k cs c []|].
  now apply (filed_ok_step guarded st st').
Qed.

Lemma getUniqueClicksForLink_le linkId st :
  (0 <= getUniqueClicksForLink linkId st <=
   Z.of_nat (List.length (ClickStorage.getClicksForLink linkId st)))%Z.
Proof.
  unfold getUniqueClicksForLink, JsSet.size, ClickStorage.getClicksForLink.
  set (clicks := arr_or (JsMap.get linkId (clicksStore st)) []).
  destruct (JsSet_fromList_spec (map Click.ip clicks)) as [Hnd Hin].
  assert (Hle : List.length (JsSet.fromList (map Click.ip clicks)) <= List.length clicks).
  { rewrite <- (length_map Click.ip clicks). apply NoDup_incl_length; [assumption|].
    intros x Hx. now apply Hin. }
  lia.
Qed.

Lemma deleteLink_gone id st :
  codes_ok st -> counts_ok st ->
  LinkStorage.getLinkById id (snd (LinkStorage.deleteLink id st)) = None.
Proof.
  intros [Hok _] [Hids _]. rewrite getLinkById_findEntryById.
  unfold LinkStorage.deleteLink.
  destruct (findEntryById id (linksStore st)) as [[k l]|] eqn:Hfind.
  - destruct (delete_found _ _ _ _ Hok Hfind) as (pre & post & Hm & Hdel & Hpre).
    destruct (findEntryById_Some _ _ _ _ Hfind) as [_ Hid].
    cbn [snd linksStore]. rewrite Hdel.
    assert (Hnone : findEntryById id (pre ++ post) = None).
    { apply findEntryById_None. intros k' l' Hin Heq.
      rewrite Hm, map_app in Hids. cbn [map snd] in Hids. apply NoDup_remove_2 in Hids.
      apply in_app_iff in Hin. destruct Hin as [Hin | Hin].
      - rewrite Forall_forall in Hpre. now apply (Hpre _ Hin).
      - apply Hids, in_app_iff. right. rewrite Hid, <- Heq.
        now apply (in_map (fun e => Link.id (snd e))) in Hin. }
    now rewrite Hnone.
  - cbn [snd]. now rewrite Hfind.
Qed.

Section LinkRouteFacts.

Variable startOfDay : Z -> Z.
Variable subDays : Z -> Z -> Z.
Variable format : Z -> option string.
Variable urlHostname : string -> option string.

(** X27.  The analytics handler, in every state reached by guarded calls.
    It answers 400 exactly for the empty id and 404 exactly for an id, not
    empty, that no link has.  For the id of a link it answers 500 exactly
    when [format] throws on one of the thirty dates of the window or on the
    date of a click of the link, as it does on an Invalid Date, and succeeds
    exactly when it throws on none.  On success the body holds the link of
    that id and its history; [totalClicks] is the length of the history and
    equals the link's [clickCount]; [uniqueClicks] lies between 0 and
    [totalClicks]; every click listed carries the id as its [linkId]; the
    three rankings have ten entries at most and [clicksByDate] has thirty. *)
Theorem analytics_GET_spec (clock : nat -> Z) (id : string) (st : Stores) :
  reachable true st ->
  let response := LinkRoute.GET startOfDay subDays format urlHostname clock id st in
  let clicks := ClickStorage.getClicksForLink id st in
  (LinkRoute.status response = Some 400%Z <-> id = EmptyString) /\
  (LinkRoute.status response = Some 404%Z <->
   id <> EmptyString /\ LinkStorage.getLinkById id st = None) /\
  (LinkRoute.status response = Some 500%Z <->
   id <> EmptyString /\
   (exists link, LinkStorage.getLinkById id st = Some link) /\
   ((exists i, i < 30 /\
               format (startOfDay (subDays (clock i) (Z.of_nat i))) = None) \/
    (exists click, In click clicks /\
                   format (startOfDay (Click.timestamp click)) = None))) /\
  (ApiResponse.success (LinkRoute.body response) = true <->
   id <> EmptyString /\
   (exists link, LinkStorage.getLinkById id st = Some link) /\
   (forall i, i < 30 -> format (startOfDay (subDays (clock i) (Z.of_nat i))) <> None) /\
   (forall click, In click clicks ->
                  format (startOfDay (Click.timestamp click)) <> None)) /\
  (ApiResponse.success (LinkRoute.body response) = true <->
   exists d, ApiResponse.data (LinkRoute.body response) = Some d) /\
  (forall d, ApiResponse.data (LinkRoute.body response) = Some d ->
     LinkRoute.status response = None /\
     LinkStorage.getLinkById id st = Some (AnalyticsData.link d) /\
     Link.id (AnalyticsData.link d) = id /\
     AnalyticsData.clicks d = ClickStorage.getClicksForLink id st /\
     AnalyticsData.totalClicks d = Z.of_nat (List.length (AnalyticsData.clicks d)) /\
     AnalyticsData.totalClicks d = Link.clickCount (AnalyticsData.link d) /\
     (0 <= AnalyticsData.uniqueClicks d <= AnalyticsData.totalClicks d)%Z /\
     (forall click, In click (AnalyticsData.clicks d) -> Click.linkId click = id) /\
     List.length (AnalyticsData.topCountries d) <= 10 /\
     List.length (AnalyticsData.topCities d) <= 10 /\
     List.length (AnalyticsData.topReferers d) <= 10 /\
     List.length (AnalyticsData.clicksByDate d) = 30).
Proof.
  intros Hreach response clicks. subst response clicks. unfold LinkRoute.GET.
  destruct (String.eqb_spec id EmptyString) as [E | E].
  - cbn. split; [tauto|]. split; [split; [discriminate | tauto]|].
    split; [split; [discriminate | tauto]|].
    split; [split; [discriminate | tauto]|].
    split; [split; [discriminate | intros [d H]; discriminate] | discriminate].
  - destruct (LinkStorage.getLinkById id st) as [link|] eqn:Hget.
    + destruct (generateClicksByDate_runs startOfDay subDays format clock
                  (ClickStorage.getClicksForLink id st))
        as [[Hthrow ->] | (Hwindow & Hclicks & result & -> & Hlen)];
        cbn [LinkRoute.status LinkRoute.body ApiResponse.success ApiResponse.data].
      * split; [split; [discriminate | contradiction]|].
        split; [split; [discriminate | intros [_ H]; discriminate]|].
        split; [split; [intros _; split; [exact E | split; [eauto | exact Hthrow]]
                       | reflexivity]|].
        split.
        { split; [discriminate|]. intros (_ & _ & Hw & Hc). exfalso.
          destruct Hthrow as [(i & Hi & Hnone) | (click & Hin & Hnone)];
            [now apply (Hw i Hi) | now apply (Hc click Hin)]. }
        split; [split; [discriminate | intros [d H]; discriminate] | discriminate].
      * split; [split; [discriminate | contradiction]|].
        split; [split; [discriminate | intros [_ H]; discriminate]|].
        split.
        { split; [discriminate|]. intros (_ & _ & Hthrow). exfalso.
          destruct Hthrow as [(i & Hi & Hnone) | (click & Hin & Hnone)];
            [now apply (Hwindow i Hi) | now apply (Hclicks click Hin)]. }
        split; [split; [intros _; split; [exact E | split; [eauto | split; assumption]]
                       | reflexivity]|].
        split; [split; eauto|].
        intros d Hd.
        apply (f_equal (fun o => match o with Some x => x | None => d end)) in Hd.
        cbv beta iota in Hd. subst d.
        cbn [AnalyticsData.link AnalyticsData.clicks AnalyticsData.totalClicks
             AnalyticsData.uniqueClicks AnalyticsData.topCountries AnalyticsData.topCities
             AnalyticsData.topReferers AnalyticsData.clicksByDate].
        rewrite getLinkById_findEntryById in Hget.
        destruct (findEntryById id (linksStore st)) as [[k l]|] eqn:Hfind; [|discriminate].
        injection Hget as ->.
        destruct (findEntryById_Some _ _ _ _ Hfind) as [Hin Hid].
        pose proof (counts_ok_reachable st Hreach) as [_ Hall].
        rewrite Forall_forall in Hall. pose proof (Hall _ Hin) as Hc.
        unfold count_ok in Hc. cbn [snd] in Hc. rewrite Hid in Hc.
        split; [reflexivity|]. split; [reflexivity|]. split; [exact Hid|].
        split; [reflexivity|]. split; [reflexivity|]. split; [now rewrite Hc|].
        split; [apply getUniqueClicksForLink_le|]. split.
        { intros click Hclick.
          pose proof (filed_ok_reachable true st Hreach) as Hfiled.
          unfold ClickStorage.getClicksForLink in Hclick.
          destruct (JsMap.get id (clicksStore st)) as [cs|] eqn:G; [|destruct Hclick].
          apply JsMapFacts.get_In in G. exact (Hfiled _ _ _ G Hclick). }
        unfold slice0, generateTopReferers.
        split; [apply firstn_le_length|]. split; [apply firstn_le_length|].
        split; [apply firstn_le_length | exact Hlen].
    + cbn. split; [split; [discriminate | contradiction]|].
      split; [tauto|].
      split; [split; [discriminate | intros (_ & [l H] & _); discriminate]|].
      split; [split; [discriminate | intros (_ & [l H] & _); discriminate]|].
      split; [split; [discriminate | intros [d H]; discriminate] | discriminate].
Qed.

(** X28.  The delete handler, in every state reached by guarded calls.  It
    answers 400 exactly for the empty id, 404 exactly for an id, not empty,
    that no link has, and succeeds otherwise; a call that does not succeed
    leaves the stores as they are.  The state it leaves is again such a
    state, and in it no link has the id: the analytics handler does not
    succeed for the id, nor does a second delete. *)
Theorem DELETE_spec (clock : nat -> Z) (id : string) (st : Stores) :
  reachable true st ->
  let response := fst (LinkRoute.DELETE id st) in
  let st' := snd (LinkRoute.DELETE id st) in
  (LinkRoute.status response = Some 400%Z <-> id = EmptyString) /\
  (LinkRoute.status response = Some 404%Z <->
   id <> EmptyString /\ LinkStorage.getLinkById id st = None) /\
  (ApiResponse.success (LinkRoute.body response) = true <->
   id <> EmptyString /\ exists link, LinkStorage.getLinkById id st = Some link) /\
  (ApiResponse.success (LinkRoute.body response) = false -> st' = st) /\
  reachable true st' /\
  (id <> EmptyString -> LinkStorage.getLinkById id st' = None) /\
  ApiResponse.success
    (LinkRoute.body (LinkRoute.GET startOfDay subDays format urlHostname clock id st'))
    = false /\
  ApiResponse.success (LinkRoute.body (fst (LinkRoute.DELETE id st'))) = false.
Proof.
  intros Hreach response st'. subst response st'.
  pose proof (codes_ok_reachable true st Hreach) as Hcodes.
  pose proof (counts_ok_reachable st Hreach) as Hcounts.
  assert (Hfail : forall s,
            LinkStorage.getLinkById id s = None \/ id = EmptyString ->
            ApiResponse.success
              (LinkRoute.body (LinkRoute.GET startOfDay subDays format urlHostname clock id s))
              = false /\
            ApiResponse.success (LinkRoute.body (fst (LinkRoute.DELETE id s))) = false).
  { intros s Hs. unfold LinkRoute.GET, LinkRoute.DELETE.
    destruct (String.eqb_spec id EmptyString) as [E | E]; [split; reflexivity|].
    destruct Hs as [Hs | Hs]; [|contradiction]. rewrite Hs. split; [reflexivity|].
    rewrite getLinkById_findEntryById in Hs. unfold LinkStorage.deleteLink.
    destruct (findEntryById id (linksStore s)) as [[k l]|]; [discriminate | reflexivity]. }
  assert (Hst' : snd (LinkRoute.DELETE id st) =
                 if String.eqb id EmptyString then st
                 else snd (LinkStorage.deleteLink id st)).
  { unfold LinkRoute.DELETE. destruct (String.eqb id EmptyString); [reflexivity|].
    now destruct (LinkStorage.deleteLink id st) as [[|] s]. }
  assert (Hgone : id <> EmptyString ->
                  LinkStorage.getLinkById id (snd (LinkRoute.DELETE id st)) = None).
  { intros E. rewrite Hst'. apply String.eqb_neq in E. rewrite E.
    now apply deleteLink_gone. }
  assert (Hreach' : reachable true (snd (LinkRoute.DELETE id st))).
  { rewrite Hst'. destruct (String.eqb id EmptyString); [exact Hreach|].
    apply (reachable_step true st); [exact Hreach | apply step_deleteLink]. }
  assert (Hafter : LinkStorage.getLinkById id (snd (LinkRoute.DELETE id st)) = None \/
                   id = EmptyString).
  { destruct (String.eqb_spec id EmptyString) as [E | E]; [now right | left; auto]. }
  destruct (Hfail _ Hafter) as [Hget Hdel].
  split; [|split; [|split; [|split; [|split; [exact Hreach'|split;
    [exact Hgone|split; [exact Hget | exact Hdel]]]]]]].
  - unfold LinkRoute.DELETE.
    destruct (String.eqb_spec id EmptyString) as [E | E]; [cbn; tauto|].
    destruct (LinkStorage.deleteLink id st) as [[|] s]; cbn;
      (split; [discriminate | contradiction]).
  - unfold LinkRoute.DELETE. rewrite getLinkById_findEntryById.
    unfold LinkStorage.deleteLink.
    destruct (String.eqb_spec id EmptyString) as [E | E];
      [cbn; split; [discriminate | tauto]|].
    destruct (findEntryById id (linksStore st)) as [[k l]|]; cbn.
    + split; [discriminate | intros [_ H]; discriminate].
    + tauto.
  - unfold LinkRoute.DELETE. rewrite getLinkById_findEntryById.
    unfold LinkStorage.deleteLink.
    destruct (String.eqb_spec id EmptyString) as [E | E];
      [cbn; split; [discriminate | tauto]|].
    destruct (findEntryById id (linksStore st)) as [[k l]|]; cbn.
    + split; eauto.
    + split; [discriminate | intros [_ [l H]]; discriminate].
  - rewrite Hst'. unfold LinkRoute.DELETE, LinkStorage.deleteLink.
    destruct (String.eqb id EmptyString); [reflexivity|].
    destruct (findEntryById id (linksStore st)) as [[k l]|]; cbn;
      [discriminate | reflexivity].
Qed.

End LinkRouteFacts.

(** ** [initializeSampleData] *)

Lemma addClick_single (code : string) (link : Link.t) (click : Click.t)
    (clicks : JsMap.t (list Click.t)) :
  Link.id link = Click.linkId click ->
  ClickStorage.addClick click (mkStores [(code, link)] clicks) =
  mkStores [(code, Link.with_clickCount (Link.clickCount link + 1)%Z link)]
    (JsMap.set (Click.linkId click)
       (arr_or (JsMap.get (Click.linkId click) clicks) [] ++ [click]) clicks).
Proof.
  intros Hid.
  unfold ClickStorage.addClick, LinkStorage.updateLinkClickCount, findEntryById,
    JsMap.entries.
  cbn [linksStore clicksStore find snd]. rewrite Hid, String.eqb_refl.
  cbn [JsMap.set]. now rewrite String.eqb_refl.
Qed.

(** X29.  [initializeSampleData] always returns, whatever the random draws
    and with no turn of the generator's loop: it creates its link only in an
    empty registry, where the first code drawn is free.  On a registry that
    is not empty it changes nothing.  On an empty one it leaves exactly one
    link, active, for [https://example.com], under the first code drawn,
    with a [clickCount] of 2, and the two sample clicks, in order, as the
    history under the link's id; other histories stay.  A second call,
    whatever its surroundings, changes nothing. *)
Theorem initializeSampleData_spec (fuel : nat) (newId : string) (now : Z)
    (rnd : nat -> nat) (hourAgo halfHourAgo : Z) (st : Stores) :
  exists st',
    initializeSampleData fuel newId now rnd hourAgo halfHourAgo st = Some st' /\
    (linksStore st <> [] -> st' = st) /\
    (linksStore st = [] ->
     linksStore st' =
       [(fst (generateShortCode 6 rnd 0),
         Link.mk newId "https://example.com" (fst (generateShortCode 6 rnd 0))
           (Some "Sample Link")
           (Some "This is a sample tracking link for demo purposes")
           now 2%Z true)] /\
     map (fun c => (Click.id c, Click.linkId c, Click.timestamp c))
       (ClickStorage.getClicksForLink newId st') =
       [("click_1", newId, hourAgo); ("click_2", newId, halfHourAgo)] /\
     (forall other, other <> newId ->
        ClickStorage.getClicksForLink other st' =
        ClickStorage.getClicksForLink other st)) /\
    (forall fuel2 newId2 now2 rnd2 hourAgo2 halfHourAgo2,
       initializeSampleData fuel2 newId2 now2 rnd2 hourAgo2 halfHourAgo2 st' = Some st').
Proof.
  assert (Hidle : forall s f i n r h hh,
            linksStore s <> [] -> initializeSampleData f i n r h hh s = Some s).
  { intros s f i n r h hh Hs. unfold initializeSampleData.
    destruct (linksStore s) as [|e m]; [contradiction | reflexivity]. }
  destruct (linksStore st) as [|e m] eqn:Hlinks.
  - unfold initializeSampleData, LinkStorage.createLink, generateUniqueShortCode.
    rewrite Hlinks. cbn [List.length Nat.eqb truthy].
    destruct (generateShortCode 6 rnd 0) as [code pos] eqn:Hgen.
    rewrite (generateUniqueShortCode_loop_free fuel rnd pos [] code eq_refl).
    cbn [JsMap.set forEach fold_left fst].
    rewrite addClick_single by reflexivity.
    rewrite addClick_single by reflexivity.
    cbn [Click.linkId Link.id Link.with_clickCount Link.clickCount Link.originalUrl
         Link.shortCode Link.title Link.description Link.createdAt Link.isActive].
    rewrite !JsMapFacts.get_set_eq. cbn [arr_or app]. rewrite JsMapFacts.set_set.
    eexists. split; [reflexivity|]. cbn [linksStore]. split; [contradiction|].
    split.
    + intros _. split; [reflexivity|]. split.
      * unfold ClickStorage.getClicksForLink. cbn [clicksStore].
        rewrite JsMapFacts.set_set, JsMapFacts.get_set_eq. reflexivity.
      * intros other Hne. unfold ClickStorage.getClicksForLink. cbn [clicksStore].
        rewrite JsMapFacts.set_set. now rewrite JsMapFacts.get_set_ne by congruence.
    + intros. reflexivity.
  - exists st. assert (Hne : linksStore st <> []) by (rewrite Hlinks; discriminate).
    split; [now apply Hidle|]. split; [reflexivity|].
    split; [discriminate|].
    intros. now apply Hidle.
Qed.

(** ** The tracking handler *)

Lemma with_location_linkId (loc : LocationData.t) (c : Click.t) :
  Click.linkId (Click.with_location loc c) = Click.linkId c.
Proof. reflexivity. Qed.

Lemma addClick_unregistered (click : Click.t) (st : Stores) :
  LinkStorage.getLinkById (Click.linkId click) st = None ->
  linksStore (ClickStorage.addClick click st) = linksStore st /\
  JsMap.has (Click.linkId click) (clicksStore (ClickStorage.addClick click st)) = true.
Proof.
  rewrite getLinkById_findEntryById. intros Hnone.
  destruct (findEntryById (Click.linkId click) (linksStore st)) as [e|] eqn:Hfind;
    [discriminate|].
  unfold ClickStorage.addClick.
  rewrite updateLinkClickCount_unknown by exact Hfind.
  cbn [linksStore clicksStore]. split; [reflexivity|].
  unfold JsMap.has. now rewrite JsMapFacts.get_set_eq.
Qed.

Section TrackFacts.

Variable toNumber : string -> option Q.
Variable urlParts : string -> option (string * string).
Variable textOf : jsonValue -> string.

(** X30.  The POST tracking handler, in a state reached by guarded calls.
    An answer that is not a success leaves the stores as they are; it is the
    500 answer exactly when the short code resolves to an active link and
    either the body is [null] or the user agent the handler picks, the
    field of the body when that is truthy and else the header, is no
    string.  A success given without waiting is given for a body that
    carries a location: the click stored has the coordinates of the body
    and no country, and the state is again one reached by guarded calls.
    Without a location in the body the handler waits for the lookup of an
    active link's click.  Resumed in the state it started from, it stores
    the click and leaves such a state.  Resumed after the link has been
    deleted, it still answers with a success and stores the click: a
    history is kept under an id that no link has, which is no state reached
    by guarded calls. *)
Theorem track_POST_spec (clickId : string) (now : Z) (shortCode : string)
    (headers : string -> option string) (body : TrackRoute.requestBody) (st : Stores) :
  reachable true st ->
  (forall r st',
     TrackRoute.POST toNumber urlParts textOf clickId now shortCode headers body st =
       TrackRoute.Answered r st' ->
     (TrackRoute.success r = false -> st' = st) /\
     (TrackRoute.status r = Some 500%Z <->
      (exists link,
         LinkStorage.getLinkByShortCode shortCode st = Some link /\
         Link.isActive link = true) /\
      (body = TrackRoute.NullBody \/
       exists bodyUserAgent bodyReferer bodyLocation value,
         body = TrackRoute.Fields bodyUserAgent bodyReferer bodyLocation /\
         firstTruthy bodyUserAgent (headers "user-agent") = Some value /\
         forall text, value <> JString text)) /\
     (TrackRoute.success r = true ->
      exists link click bodyUserAgent bodyReferer,
        LinkStorage.getLinkByShortCode shortCode st = Some link /\
        Link.isActive link = true /\
        TrackRoute.redirectUrl r = Some (Link.originalUrl link) /\
        body = TrackRoute.Fields bodyUserAgent bodyReferer
                 (Some (Click.latitude click, Click.longitude click)) /\
        Click.linkId click = Link.id link /\
        Click.country click = None /\
        st' = ClickStorage.addClick click st /\
        reachable true st')) /\
  (forall link click,
     TrackRoute.POST toNumber urlParts textOf clickId now shortCode headers body st =
       TrackRoute.Awaiting link click ->
     LinkStorage.getLinkByShortCode shortCode st = Some link /\
     Link.isActive link = true /\
     Click.linkId click = Link.id link /\
     Click.ip click = getClientIP toNumber headers /\
     forall locationResult,
       let resumed := TrackRoute.POST_resumed link click locationResult in
       let deleted := snd (LinkStorage.deleteLink (Link.id link) st) in
       TrackRoute.success (fst (resumed st)) = true /\
       reachable true (snd (resumed st)) /\
       TrackRoute.success (fst (resumed deleted)) = true /\
       LinkStorage.getLinkById (Link.id link) (snd (resumed deleted)) = None /\
       JsMap.has (Link.id link) (clicksStore (snd (resumed deleted))) = true /\
       ~ reachable true (snd (resumed deleted))).
Proof.
  intros Hreach.
  pose proof (codes_ok_reachable true st Hreach) as Hcodes.
  pose proof (counts_ok_reachable st Hreach) as Hcounts.
  assert (Hlive : forall link click,
            LinkStorage.getLinkByShortCode shortCode st = Some link ->
            Click.linkId click = Link.id link ->
            reachable true (ClickStorage.addClick click st)).
  { intros link click Hget Hid. apply (reachable_step true st); [exact Hreach|].
    apply step_addClick. intros _. exists shortCode, link.
    split; [now apply JsMapFacts.get_In | now rewrite Hid]. }
  assert (Hresumed : forall link click locationResult,
            LinkStorage.getLinkByShortCode shortCode st = Some link ->
            Click.linkId click = Link.id link ->
            let resumed := TrackRoute.POST_resumed link click locationResult in
            let deleted := snd (LinkStorage.deleteLink (Link.id link) st) in
            TrackRoute.success (fst (resumed st)) = true /\
            reachable true (snd (resumed st)) /\
            TrackRoute.success (fst (resumed deleted)) = true /\
            LinkStorage.getLinkById (Link.id link) (snd (resumed deleted)) = None /\
            JsMap.has (Link.id link) (clicksStore (snd (resumed deleted))) = true /\
            ~ reachable true (snd (resumed deleted))).
  { intros link click locationResult Hget Hid. cbv zeta.
    set (deleted := snd (LinkStorage.deleteLink (Link.id link) st)).
    set (stored := match LocationResult.success locationResult,
                         LocationResult.location locationResult with
                   | true, Some location => Click.with_location location click
                   | _, _ => click
                   end).
    assert (Hstored : Click.linkId stored = Link.id link).
    { unfold stored. destruct (LocationResult.success locationResult);
        [destruct (LocationResult.location locationResult)|]; exact Hid. }
    assert (Hres : forall s, TrackRoute.POST_resumed link click locationResult s =
                     (TrackRoute.tracked link, ClickStorage.addClick stored s))
      by reflexivity.
    rewrite !Hres. cbn [fst snd TrackRoute.success TrackRoute.tracked].
    split; [reflexivity|]. split; [now apply (Hlive link)|]. split; [reflexivity|].
    pose proof (deleteLink_gone (Link.id link) st Hcodes Hcounts) as Hgone.
    fold deleted in Hgone. rewrite <- Hstored in Hgone.
    destruct (addClick_unregistered stored deleted Hgone) as [Hlinks Hhas].
    rewrite Hstored in Hgone, Hhas.
    assert (Hnone : LinkStorage.getLinkById (Link.id link)
                      (ClickStorage.addClick stored deleted) = None).
    { unfold LinkStorage.getLinkById in *. now rewrite Hlinks. }
    split; [exact Hnone|]. split; [exact Hhas|].
    intros Hbad. apply (history_kept_iff_live _ Hbad) in Hhas.
    destruct Hhas as [l' Hl']. congruence. }
  unfold TrackRoute.POST.
  destruct (String.eqb_spec shortCode EmptyString) as [E | E].
  { split; [|discriminate]. intros r st' [= <- <-]. cbn.
    split; [reflexivity|]. split; [|discriminate].
    split; [discriminate|]. intros [(link & Hget & _) _]. exfalso.
    destruct Hcodes as [_ Hall]. rewrite Forall_forall in Hall.
    apply JsMapFacts.get_In in Hget. destruct (Hall _ Hget) as [_ Hk].
    apply Hk. exact E. }
  destruct (LinkStorage.getLinkByShortCode shortCode st) as [link|] eqn:Hget.
  2: { split; [|discriminate]. intros r st' [= <- <-]. cbn.
       split; [reflexivity|]. split; [|discriminate].
       split; [discriminate|]. intros [(l & H & _) _]. discriminate. }
  destruct (Link.isActive link) eqn:Hact; cbn [negb].
  2: { split; [|discriminate]. intros r st' [= <- <-]. cbn.
       split; [reflexivity|]. split; [|discriminate].
       split; [discriminate|]. intros [(l & [= <-] & H) _]. congruence. }
  destruct body as [|bodyUserAgent bodyReferer bodyLocation].
  { split; [|discriminate]. intros r st' [= <- <-]. cbn.
    split; [reflexivity|]. split; [|discriminate].
    split; [|reflexivity]. intros _. split; [now exists link | now left]. }
  assert (Hpick :
            (exists userAgent,
               match firstTruthy bodyUserAgent (headers "user-agent") with
               | None => Returned (sanitizeUserAgent None)
               | Some (JString text) => Returned (sanitizeUserAgent (Some text))
               | Some _ => Thrown "userAgent.replace is not a function"
               end = Returned userAgent /\
               forall value, firstTruthy bodyUserAgent (headers "user-agent") = Some value ->
                             exists text, value = JString text) \/
            (match firstTruthy bodyUserAgent (headers "user-agent") with
             | None => @Returned string (sanitizeUserAgent None)
             | Some (JString text) => Returned (sanitizeUserAgent (Some text))
             | Some _ => Thrown "userAgent.replace is not a function"
             end = Thrown "userAgent.replace is not a function" /\
             exists value, firstTruthy bodyUserAgent (headers "user-agent") = Some value /\
                           forall text, value <> JString text)).
  { destruct (firstTruthy bodyUserAgent (headers "user-agent"))
      as [[| b | n | text | items | fields]|].
    - right. split; [reflexivity|]. eexists. split; [reflexivity | discriminate].
    - right. split; [reflexivity|]. eexists. split; [reflexivity | discriminate].
    - right. split; [reflexivity|]. eexists. split; [reflexivity | discriminate].
    - left. eexists. split; [reflexivity|]. intros value [= <-]. now exists text.
    - right. split; [reflexivity|]. eexists. split; [reflexivity | discriminate].
    - right. split; [reflexivity|]. eexists. split; [reflexivity | discriminate].
    - left. eexists. split; [reflexivity|]. discriminate. }
  cbv zeta.
  destruct Hpick as [(userAgent & -> & Htext) | (-> & value & Hvalue & Hno)].
  2: { split; [|discriminate]. intros r st' [= <- <-]. cbn.
       split; [reflexivity|]. split; [|discriminate].
       split; [|reflexivity]. intros _. split; [now exists link|]. right.
       now exists bodyUserAgent, bodyReferer, bodyLocation, value. }
  assert (Hnot500 :
            ~ ((exists l,
                  Some link = Some l /\ Link.isActive l = true) /\
               (TrackRoute.Fields bodyUserAgent bodyReferer bodyLocation
                  = TrackRoute.NullBody \/
                exists ua ref loc value,
                  TrackRoute.Fields bodyUserAgent bodyReferer bodyLocation
                    = TrackRoute.Fields ua ref loc /\
                  firstTruthy ua (headers "user-agent") = Some value /\
                  forall text, value <> JString text))).
  { intros [_ [H | (ua & ref & loc & value & [= <- <- <-] & Hvalue & Hno)]];
      [discriminate|].
    destruct (Htext value Hvalue) as [text ->]. now apply (Hno text). }
  set (referer := match firstTruthy bodyReferer (headers "referer") with
                  | None => None
                  | Some (JString text) => sanitizeReferer urlParts (Some text)
                  | Some value => sanitizeReferer urlParts (Some (textOf value))
                  end).
  destruct bodyLocation as [[latitude longitude]|].
  - split; [|discriminate]. intros r st' Hanswer.
    apply (f_equal (fun p => match p with
                             | TrackRoute.Answered r0 s0 => (r0, s0)
                             | TrackRoute.Awaiting _ _ => (r, st')
                             end)) in Hanswer.
    cbv beta iota in Hanswer. injection Hanswer as <- <-.
    cbn [TrackRoute.success TrackRoute.status TrackRoute.tracked TrackRoute.redirectUrl].
    split; [discriminate|]. split; [split; [discriminate | intros H; now apply Hnot500 in H]|].
    intros _.
    exists link,
      (Click.mk clickId (Link.id link) now (getClientIP toNumber headers) userAgent
         None None None None latitude longitude referer None None),
      bodyUserAgent, bodyReferer.
    split; [reflexivity|]. split; [exact Hact|]. split; [reflexivity|].
    split; [reflexivity|]. split; [reflexivity|]. split; [reflexivity|].
    split; [reflexivity|]. now apply (Hlive link _ eq_refl).
  - split; [discriminate|]. intros l click Hwait.
    apply (f_equal (fun p => match p with
                             | TrackRoute.Awaiting l0 c0 => (l0, c0)
                             | TrackRoute.Answered _ _ => (l, click)
                             end)) in Hwait.
    cbv beta iota in Hwait. injection Hwait as <- <-.
    split; [reflexivity|]. split; [exact Hact|]. split; [reflexivity|].
    split; [reflexivity|]. intros locationResult.
    now apply Hresumed.
Qed.

End TrackFacts.

Lemma track_POST_spec_witness :
  let link :=
    Link.mk "link_1" "https://example.com" "aaaaaa" (Some "Sample Link")
      (Some "This is a sample tracking link for demo purposes") 7200000%Z 2%Z true in
  let resumed :=
    TrackRoute.POST_resumed link
      (requestClick numberOfOctetText sampleUrlParts "click_3" "link_1" 7300000%Z
         forwardedHeaders)
      (fst (getLocationFromIP numberOfOctetText sampleIpApi sampleIpapiCo "203.0.113.9")) in
  reachable true sampleStores /\
  reachable true (snd (resumed sampleStores)) /\
  ~ reachable true
      (snd (resumed (snd (LinkStorage.deleteLink "link_1" sampleStores)))).
Proof.
  intros link resumed. split; [exact reachable_sampleStores|].
  destruct (track_POST_spec numberOfOctetText sampleUrlParts (fun _ => EmptyString)
              "click_3" 7300000%Z
              "aaaaaa" forwardedHeaders (TrackRoute.Fields None None None)
              sampleStores reachable_sampleStores) as [_ Hwait].
  destruct (Hwait link _ eq_refl) as (_ & _ & _ & _ & Hres).
  destruct (Hres (fst (getLocationFromIP numberOfOctetText sampleIpApi sampleIpapiCo
                         "203.0.113.9")))
    as (_ & Hhere & _ & _ & _ & Hrace).
  split; [exact Hhere | exact Hrace].
Defined.

(** ** Instances *)

Lemma getLocationFromIP_of_client_witness :
  let calls :=
    snd (getLocationFromIP numberOfOctetText sampleIpApi sampleIpapiCo
           (getClientIP numberOfOctetText forwardedHeaders)) in
  getClientIP numberOfOctetText forwardedHeaders = "203.0.113.9" /\
  (calls = [IpApi] \/ calls = [IpApi; IpapiCo]).
Proof.
  intros calls. split; [reflexivity|].
  exact (getLocationFromIP_of_client numberOfOctetText sampleIpApi sampleIpapiCo
           numberOfOctetText_octet forwardedHeaders).
Defined.

Lemma redirect_GET_counts_witness :
  let st' :=
    snd (fst (ShortLinkRoute.GET numberOfOctetText sampleUrlParts (fun _ => true)
                "click_3" 7300000%Z "aaaaaa" forwardedHeaders sampleStores)) in
  reachable true sampleStores /\
  reachable true st' /\
  option_map Link.clickCount (LinkStorage.getLinkByShortCode "aaaaaa" sampleStores)
    = Some 2%Z /\
  option_map Link.clickCount (LinkStorage.getLinkByShortCode "aaaaaa" st') = Some 3%Z.
Proof.
  intros st'. split; [exact reachable_sampleStores|].
  destruct (redirect_GET_counts numberOfOctetText sampleUrlParts (fun _ => true)
              "click_3" 7300000%Z "aaaaaa" forwardedHeaders sampleStores
              reachable_sampleStores) as [Hreach Hlink].
  split; [exact Hreach|]. split; [reflexivity|].
  destruct (Hlink _ eq_refl eq_refl) as (Hget & _).
  fold st' in Hget. now rewrite Hget.
Defined.

Lemma toggleLinkStatus_gates_redirect_witness :
  let toggled := LinkStorage.toggleLinkStatus "link_1" sampleStores in
  reachable true sampleStores /\
  fst toggled = true /\
  ShortLinkRoute.GET numberOfOctetText sampleUrlParts (fun _ => true)
    "click_3" 7300000%Z "aaaaaa" forwardedHeaders (snd toggled) =
  (ShortLinkRoute.mkRedirect (ShortLinkRoute.OnSite "/?error=inactive") None,
   snd toggled, None).
Proof.
  intros toggled. split; [exact reachable_sampleStores|].
  destruct (toggleLinkStatus_gates_redirect numberOfOctetText sampleUrlParts
              (fun _ => true) "click_3" 7300000%Z "aaaaaa" forwardedHeaders
              sampleStores _ reachable_sampleStores eq_refl)
    as (Htog & _ & Hoff & _).
  split; [exact Htog | exact (Hoff eq_refl)].
Defined.

Lemma createLink_then_GET_witness :
  exists link st1,
    LinkStorage.createLink 0 "link_2" 7300000%Z (fun _ => 0) "https://example.org"
      None None (Some "promo") sampleStores = Some (Returned link, st1) /\
    let out :=
      ShortLinkRoute.GET numberOfOctetText sampleUrlParts (fun _ => true)
        "click_3" 7400000%Z "promo" forwardedHeaders st1 in
    fst (fst out) =
      ShortLinkRoute.mkRedirect (ShortLinkRoute.Absolute "https://example.org")
        (Some 302%Z) /\
    option_map Link.clickCount (LinkStorage.getLinkByShortCode "promo" (snd (fst out)))
      = Some 1%Z.
Proof.
  eexists _, _. split; [reflexivity|].
  assert (Hrnd : forall k : nat, (fun _ : nat => 0) k < String.length chars)
    by (intros k; vm_compute; lia).
  assert (Hfresh : forall k l, In (k, l) (linksStore sampleStores) ->
                               Link.id l <> "link_2").
  { intros k l [H | []]. injection H as _ <-. discriminate. }
  match goal with
  | |- let out := ShortLinkRoute.GET _ _ _ _ _ _ _ ?st1 in
       _ = _ /\ option_map _ (LinkStorage.getLinkByShortCode _ _) = _ =>
      pose proof (createLink_then_GET numberOfOctetText sampleUrlParts (fun _ => true)
                    0 "link_2" 7300000%Z (fun _ => 0) "https://example.org"
                    None None (Some "promo") sampleStores st1 _
                    "click_3" 7400000%Z forwardedHeaders Hrnd Hfresh eq_refl) as H
  end.
  destruct H as (Hresp & Hget & _).
  intros out. split; [exact Hresp|].
  exact (f_equal (option_map Link.clickCount) Hget).
Defined.

Lemma redirect_GET_settled_witness :
  let out :=
    ShortLinkRoute.GET numberOfOctetText sampleUrlParts (fun _ => true)
      "click_3" 7300000%Z "aaaaaa" forwardedHeaders sampleStores in
  (forall c, In c (ClickStorage.getClicksForLink "link_1" sampleStores) ->
             Click.id c <> "click_3") /\
  exists l,
    snd out = Some l /\
    ShortLinkRoute.ip l = "203.0.113.9" /\
    List.length
      (ClickStorage.getClicksForLink "link_1"
         (ShortLinkRoute.settle numberOfOctetText sampleIpApi sampleIpapiCo l
            (snd (fst out)))) = 3.
Proof.
  intros out.
  assert (Hfresh : forall c, In c (ClickStorage.getClicksForLink "link_1" sampleStores) ->
                             Click.id c <> "click_3").
  { intros c [<- | [<- | []]]; discriminate. }
  split; [exact Hfresh|].
  assert (Hne : "aaaaaa" <> EmptyString) by discriminate.
  destruct (redirect_GET_settled numberOfOctetText sampleUrlParts (fun _ => true)
              sampleIpApi sampleIpapiCo "click_3" 7300000%Z "aaaaaa" forwardedHeaders
              sampleStores _ Hne eq_refl eq_refl Hfresh)
    as (l & Hl & Hip & _ & Hhist & _).
  exists l. split; [exact Hl|]. split; [exact Hip|].
  exact (f_equal (@List.length Click.t) Hhist).
Defined.

Lemma analytics_GET_spec_witness :
  let response :=
    LinkRoute.GET utcStartOfDay utcSubDays utcFormatDate (fun _ => None)
      (fun _ => 2600000000%Z) "link_1" sampleStores in
  reachable true sampleStores /\
  ApiResponse.success (LinkRoute.body response) = true /\
  option_map AnalyticsData.totalClicks (ApiResponse.data (LinkRoute.body response))
    = Some 2%Z.
Proof.
  intros response. split; [exact reachable_sampleStores|].
  destruct (analytics_GET_spec utcStartOfDay utcSubDays utcFormatDate (fun _ => None)
              (fun _ => 2600000000%Z) "link_1" sampleStores reachable_sampleStores)
    as (_ & _ & _ & Hok & Hdata & Hbody).
  fold response in Hok, Hdata, Hbody.
  assert (Hs : ApiResponse.success (LinkRoute.body response) = true).
  { apply Hok. split; [discriminate|]. split; [eexists; reflexivity|].
    split; intros; unfold utcFormatDate; discriminate. }
  split; [exact Hs|].
  destruct (proj1 Hdata Hs) as [d Hd]. rewrite Hd.
  destruct (Hbody d Hd) as (_ & Hlink & _ & _ & _ & Hcount & _).
  cbn [option_map]. rewrite Hcount.
  exact (f_equal (option_map Link.clickCount) (eq_sym Hlink)).
Defined.

Lemma DELETE_spec_witness :
  let st' := snd (LinkRoute.DELETE "link_1" sampleStores) in
  reachable true sampleStores /\
  ApiResponse.success (LinkRoute.body (fst (LinkRoute.DELETE "link_1" sampleStores)))
    = true /\
  reachable true st' /\
  LinkStorage.getLinkById "link_1" st' = None /\
  ApiResponse.success (LinkRoute.body (fst (LinkRoute.DELETE "link_1" st'))) = false.
Proof.
  intros st'. split; [exact reachable_sampleStores|].
  destruct (DELETE_spec utcStartOfDay utcSubDays utcFormatDate (fun _ => None)
              (fun _ => 2600000000%Z) "link_1" sampleStores reachable_sampleStores)
    as (_ & _ & Hok & _ & Hreach & Hgone & _ & Hagain).
  split; [|split; [exact Hreach|split; [|exact Hagain]]].
  - apply Hok. split; [discriminate | eexists; reflexivity].
  - apply Hgone. discriminate.
Defined.
